(** * easy-script: the console.log interpreter of main.go

    A shallow embedding of the three stages of main.go (Lex, Parse and the
    Execute methods driven by Eval) together with the parts of the Go
    standard library they call (strings, unicode/utf8, strconv, math), and
    the properties of the specification stated and settled against it.

    Conventions.
    - A Go [string] is a sequence of bytes: Rocq's [string], one [ascii]
      per byte.
    - A Go [int] is the 64-bit two's-complement integer of the usual
      targets: a [Z] with the wrap-around [wrap64] written out where the
      arithmetic can overflow.
    - A Go function that can panic returns a [result]; the [panic] type
      lists the panics this program can raise. *)

From Stdlib Require Import ZArith List String Ascii Bool Lia.
From Stdlib Require Import Floats.PrimFloat Floats.FloatOps Floats.SpecFloat.
From Stdlib Require Import Floats.FloatAxioms Floats.FloatLemmas.
Import ListNotations.

Open Scope string_scope.
Open Scope list_scope.
Open Scope Z_scope.

(* ================================================================== *)
(** * Panics and the error monad *)

Inductive panic : Type :=
| SliceBoundsOutOfRange   (* runtime error: slice bounds out of range *)
| IndexOutOfRange         (* runtime error: index out of range *)
| IntegerDivideByZero     (* runtime error: integer divide by zero *)
| InvalidSyntax.          (* panic("Invalid syntax") *)

Inductive result (A : Type) : Type :=
| Ok (a : A)
| Panic (p : panic).

Arguments Ok {A} a.
Arguments Panic {A} p.

Definition bind {A B : Type} (r : result A) (k : A -> result B) : result B :=
  match r with
  | Ok a => k a
  | Panic p => Panic p
  end.

Notation "x <- r ;; k" := (bind r (fun x => k))
  (at level 61, r at next level, right associativity).
Notation "' pat <- r ;; k" := (bind r (fun x => match x with pat => k end))
  (at level 61, pat pattern, r at next level, right associativity).

(** [for _, x := range l { st = body st x }], stopping at the first panic. *)
Fixpoint forRange {A S : Type} (body : S -> A -> result S) (st : S) (l : list A)
  : result S :=
  match l with
  | [] => Ok st
  | x :: l' => st' <- body st x ;; forRange body st' l'
  end.

(* ================================================================== *)
(** * Bytes, strings and slicing *)

Definition byte (c : ascii) : Z := Z.of_N (N_of_ascii c).

Definition len (s : string) : Z := Z.of_nat (String.length s).

Fixpoint take (n : nat) (s : string) : string :=
  match n, s with
  | S n', String c s' => String c (take n' s')
  | _, _ => ""
  end.

Fixpoint drop (n : nat) (s : string) : string :=
  match n, s with
  | S n', String _ s' => drop n' s'
  | _, _ => s
  end.

(** The slice expression [s[lo:hi]]: it panics unless [0 <= lo <= hi <= len(s)]. *)
Definition slice (s : string) (lo hi : Z) : result string :=
  if (0 <=? lo) && (lo <=? hi) && (hi <=? len s)
  then Ok (take (Z.to_nat (hi - lo)) (drop (Z.to_nat lo) s))
  else Panic SliceBoundsOutOfRange.

(** The one-byte string of the double quote character (byte 34). *)
Definition dquote : string := String "034"%char "".

(** 64-bit two's-complement wrap-around of an exact integer. *)
Definition wrap64 (z : Z) : Z := (z + 2 ^ 63) mod 2 ^ 64 - 2 ^ 63.

Definition MaxInt64 : Z := 2 ^ 63 - 1.
Definition MinInt64 : Z := - 2 ^ 63.

(* ================================================================== *)
(** * unicode/utf8 and unicode *)

Module utf8.

Definition RuneError : Z := 0xFFFD.
Definition RuneSelf : Z := 0x80.
Definition UTFMax : Z := 4.

(** The [first] table together with [acceptRanges]: for a leading byte of
    a multi-byte sequence, the length of the sequence and the range
    accepted for its second byte; [None] for the bytes the table marks
    invalid. ASCII bytes are handled before the table is consulted. *)
Definition first (b : Z) : option (nat * Z * Z) :=
  if (0xC2 <=? b) && (b <=? 0xDF) then Some (2%nat, 0x80, 0xBF)
  else if b =? 0xE0 then Some (3%nat, 0xA0, 0xBF)
  else if (0xE1 <=? b) && (b <=? 0xEC) then Some (3%nat, 0x80, 0xBF)
  else if b =? 0xED then Some (3%nat, 0x80, 0x9F)
  else if (0xEE <=? b) && (b <=? 0xEF) then Some (3%nat, 0x80, 0xBF)
  else if b =? 0xF0 then Some (4%nat, 0x90, 0xBF)
  else if (0xF1 <=? b) && (b <=? 0xF3) then Some (4%nat, 0x80, 0xBF)
  else if b =? 0xF4 then Some (4%nat, 0x80, 0x8F)
  else None.

Definition cont (b : Z) : Z := Z.land b 0x3F.

(** [DecodeRuneInString]: the first rune of [s] and its width in bytes;
    [(RuneError, 1)] for an invalid encoding, [(RuneError, 0)] for [""]. *)
Definition DecodeRuneInString (s : string) : Z * nat :=
  match s with
  | "" => (RuneError, 0%nat)
  | String c0 t0 =>
    let s0 := byte c0 in
    if s0 <? RuneSelf then (s0, 1%nat)
    else
      match first s0 with
      | None => (RuneError, 1%nat)
      | Some (sz, lo, hi) =>
        if (String.length s <? sz)%nat then (RuneError, 1%nat)
        else
          match t0 with
          | "" => (RuneError, 1%nat)
          | String c1 t1 =>
            let s1 := byte c1 in
            if (s1 <? lo) || (hi <? s1) then (RuneError, 1%nat)
            else if (sz <=? 2)%nat
            then (Z.lor (Z.shiftl (Z.land s0 0x1F) 6) (cont s1), 2%nat)
            else
              match t1 with
              | "" => (RuneError, 1%nat)
              | String c2 t2 =>
                let s2 := byte c2 in
                if (s2 <? 0x80) || (0xBF <? s2) then (RuneError, 1%nat)
                else if (sz <=? 3)%nat
                then (Z.lor (Z.shiftl (Z.land s0 0x0F) 12)
                        (Z.lor (Z.shiftl (cont s1) 6) (cont s2)), 3%nat)
                else
                  match t2 with
                  | "" => (RuneError, 1%nat)
                  | String c3 _ =>
                    let s3 := byte c3 in
                    if (s3 <? 0x80) || (0xBF <? s3) then (RuneError, 1%nat)
                    else (Z.lor (Z.shiftl (Z.land s0 0x07) 18)
                            (Z.lor (Z.shiftl (cont s1) 12)
                               (Z.lor (Z.shiftl (cont s2) 6) (cont s3))),
                          4%nat)
                  end
              end
          end
      end
  end.

(** [RuneStart]: the byte is not a continuation byte. *)
Definition RuneStart (b : Z) : bool := negb (Z.land b 0xC0 =? 0x80).

Definition byteAt (s : string) (i : Z) : Z :=
  match String.get (Z.to_nat i) s with
  | Some c => byte c
  | None => 0
  end.

(** The backward scan [for start--; start >= lim; start--] of
    [DecodeLastRuneInString]; it runs at most [UTFMax - 1] times. *)
Fixpoint scanBack (fuel : nat) (s : string) (start lim : Z) : Z :=
  match fuel with
  | O => start
  | S fuel' =>
    if start <? lim then start
    else if RuneStart (byteAt s start) then start
    else scanBack fuel' s (start - 1) lim
  end.

(** [DecodeLastRuneInString]: the last rune of [s] and its width. *)
Definition DecodeLastRuneInString (s : string) : Z * nat :=
  let end_ := len s in
  if end_ =? 0 then (RuneError, 0%nat)
  else
    let r := byteAt s (end_ - 1) in
    if r <? RuneSelf then (r, 1%nat)
    else
      let lim := Z.max 0 (end_ - UTFMax) in
      let start := scanBack 3 s (end_ - 2) lim in
      let start := Z.max 0 start in
      let '(r, size) := DecodeRuneInString (drop (Z.to_nat start) s) in
      if start + Z.of_nat size =? end_ then (r, size) else (RuneError, 1%nat).

End utf8.

Module unicode.

(** [IsSpace]: the Latin-1 spaces, then the rest of White_Space. *)
Definition IsSpace (r : Z) : bool :=
  if r <=? 0xFF
  then (r =? 9) || (r =? 10) || (r =? 11) || (r =? 12) || (r =? 13)
       || (r =? 32) || (r =? 0x85) || (r =? 0xA0)
  else (r =? 0x1680) || ((0x2000 <=? r) && (r <=? 0x200a))
       || (r =? 0x2028) || (r =? 0x2029) || (r =? 0x202f)
       || (r =? 0x205f) || (r =? 0x3000).

End unicode.

(* ================================================================== *)
(** * strings *)

Module strings.

(** [Index(s, sep)] for a one-byte [sep], the only way main.go calls it:
    the index of the first [c] in [s], or -1. *)
Fixpoint Index (s : string) (c : ascii) : Z :=
  match s with
  | "" => -1
  | String a r =>
    if Ascii.eqb a c then 0
    else let k := Index r c in if k <? 0 then -1 else k + 1
  end.

(** [LastIndex(s, sep)] for a one-byte [sep]: the index of the last [c]. *)
Fixpoint LastIndex (s : string) (c : ascii) : Z :=
  match s with
  | "" => -1
  | String a r =>
    let k := LastIndex r c in
    if 0 <=? k then k + 1
    else if Ascii.eqb a c then 0 else -1
  end.

(** [Split(s, sep)] for a one-byte [sep]: the pieces between the
    separators, of which there is always at least one. *)
Fixpoint Split (s : string) (sep : ascii) : list string :=
  match s with
  | "" => [""]
  | String a r =>
    if Ascii.eqb a sep then "" :: Split r sep
    else
      match Split r sep with
      | piece :: pieces => String a piece :: pieces
      | [] => [String a ""]
      end
  end.

(** [FieldsFunc(s, f)]: the maximal runs of [s] free of bytes satisfying
    [f]. Go calls [f] on runes; for a predicate that holds of ASCII
    characters only, as the one of [Lex], the runs are the same when [f]
    is asked byte by byte, since no byte of a multi-byte sequence is
    ASCII. [cur] is the run being read. *)
Fixpoint fieldsFrom (f : ascii -> bool) (s : string) (cur : string)
  : list string :=
  match s with
  | "" => if String.eqb cur "" then [] else [cur]
  | String a r =>
    if f a
    then (if String.eqb cur "" then fieldsFrom f r ""
          else cur :: fieldsFrom f r "")
    else fieldsFrom f r (cur ++ String a "")%string
  end.

Definition FieldsFunc (s : string) (f : ascii -> bool) : list string :=
  fieldsFrom f s "".

Definition HasPrefix (s prefix : string) : bool := String.prefix prefix s.

Definition HasSuffix (s suffix : string) : bool :=
  (String.length suffix <=? String.length s)%nat
  && String.eqb (drop (String.length s - String.length suffix) s) suffix.

Fixpoint byteIn (c : ascii) (chars : string) : bool :=
  match chars with
  | "" => false
  | String a r => Ascii.eqb c a || byteIn c r
  end.

(** [IndexAny(s, chars)] for ASCII [chars]: the index of the first byte
    of [s] that occurs in [chars], or -1. *)
Fixpoint IndexAny (s chars : string) : Z :=
  match s with
  | "" => -1
  | String a r =>
    if byteIn a chars then 0
    else let k := IndexAny r chars in if k <? 0 then -1 else k + 1
  end.

Definition ContainsAny (s chars : string) : bool := 0 <=? IndexAny s chars.

(** [TrimLeftFunc(s, unicode.IsSpace)]: drop leading runes that are
    spaces. Every step drops at least one byte, so [length s] steps are
    enough. *)
Fixpoint trimLeft (fuel : nat) (s : string) : string :=
  match fuel with
  | O => s
  | S fuel' =>
    match s with
    | "" => ""
    | _ =>
      let '(r, size) := utf8.DecodeRuneInString s in
      if unicode.IsSpace r then trimLeft fuel' (drop size s) else s
    end
  end.

(** [TrimRightFunc(s, unicode.IsSpace)]: drop trailing runes that are
    spaces, each found with [DecodeLastRuneInString]. *)
Fixpoint trimRight (fuel : nat) (s : string) : string :=
  match fuel with
  | O => s
  | S fuel' =>
    match s with
    | "" => ""
    | _ =>
      let '(r, size) := utf8.DecodeLastRuneInString s in
      if unicode.IsSpace r
      then trimRight fuel' (take (String.length s - size) s)
      else s
    end
  end.

(** [TrimSpace(s)]: [s] without leading and trailing white space, as
    Unicode defines it. (Go's fast path for ASCII returns the same
    string.) *)
Definition TrimSpace (s : string) : string :=
  let s1 := trimLeft (String.length s) s in
  trimRight (String.length s1) s1.

(** [Join(elems, sep)]. *)
Definition Join (elems : list string) (sep : string) : string :=
  match elems with
  | [] => ""
  | [e] => e
  | e :: rest => fold_left (fun b s => (b ++ sep ++ s)%string) rest e
  end.

End strings.


(* ================================================================== *)
(** * strconv *)

Module strconv.

(** The two errors of a [*NumError]. *)
Inductive NumError : Type := ErrSyntax | ErrRange.

Definition isDigit (c : ascii) : bool := (48 <=? byte c) && (byte c <=? 57).

Definition maxUint64 : Z := 2 ^ 64 - 1.

(** The digit loop of [ParseUint(s, 10, 64)]: a byte that is no digit is
    a syntax error, unless the digits before it already overflowed. *)
Fixpoint parseUintLoop (s : string) (n : Z) : Z * option NumError :=
  match s with
  | "" => (n, None)
  | String c r =>
    if isDigit c then
      if maxUint64 / 10 + 1 <=? n then (maxUint64, Some ErrRange)
      else
        let n1 := n * 10 + (byte c - 48) in
        if maxUint64 <? n1 then (maxUint64, Some ErrRange)
        else parseUintLoop r n1
    else (0, Some ErrSyntax)
  end.

Definition ParseUint (s : string) : Z * option NumError :=
  match s with
  | "" => (0, Some ErrSyntax)
  | _ => parseUintLoop s 0
  end.

(** [ParseInt(s, 10, 0)] on a 64-bit target. *)
Definition ParseInt (s : string) : Z * option NumError :=
  match s with
  | "" => (0, Some ErrSyntax)
  | String c r =>
    let neg := Ascii.eqb c "-" in
    let digits := if Ascii.eqb c "+" || neg then r else s in
    let '(un, err) := ParseUint digits in
    match err with
    | Some ErrSyntax => (0, Some ErrSyntax)
    | _ =>
      let cutoff := 2 ^ 63 in
      if negb neg && (cutoff <=? un) then (cutoff - 1, Some ErrRange)
      else if neg && (cutoff <? un) then (- cutoff, Some ErrRange)
      else (if neg then - un else un, None)
    end
  end.

(** The digit loop of the fast path of [Atoi]. *)
Fixpoint atoiLoop (s : string) (n : Z) : Z * option NumError :=
  match s with
  | "" => (n, None)
  | String c r =>
    if isDigit c then atoiLoop r (n * 10 + (byte c - 48))
    else (0, Some ErrSyntax)
  end.

(** [Atoi(s)]: the value and the error, of which main.go drops the
    second. Texts of fewer than 19 bytes take the fast path. *)
Definition Atoi (s : string) : Z * option NumError :=
  if (0 <? len s) && (len s <? 19) then
    match s with
    | "" => (0, Some ErrSyntax)
    | String c r =>
      let signed := Ascii.eqb c "-" || Ascii.eqb c "+" in
      let digits := if signed then r else s in
      if signed && (len digits <? 1) then (0, Some ErrSyntax)
      else
        let '(n, err) := atoiLoop digits 0 in
        match err with
        | Some e => (0, Some e)
        | None => (if Ascii.eqb c "-" then - n else n, None)
        end
    end
  else ParseInt s.

Definition digitChar (d : Z) : ascii := ascii_of_N (Z.to_N (48 + d)).

(** The digit loop of [formatBits] in base 10, least significant digit
    first; twenty digits are enough for 64 bits. *)
Fixpoint formatBits (fuel : nat) (u : Z) (acc : string) : string :=
  match fuel with
  | O => acc
  | S fuel' =>
    let acc' := String (digitChar (u mod 10)) acc in
    if u <? 10 then acc' else formatBits fuel' (u / 10) acc'
  end.

(** [Itoa(i)]: the decimal text of a 64-bit integer. *)
Definition Itoa (i : Z) : string :=
  if i <? 0 then String "-" (formatBits 20 (- i) "")
  else formatBits 20 i "".

End strconv.

(* ================================================================== *)
(** * Conversions between int and float64, and math.Pow *)

(** [float64(i)]: the nearest binary64 number, ties to even. *)
Definition float64_of_int (i : Z) : float :=
  SF2Prim (binary_normalize prec emax i 0 false).

(** The integer part of a finite binary64 number, [None] for an infinity or
    a NaN. *)
Definition truncate (f : float) : option Z :=
  match Prim2SF f with
  | S754_zero _ => Some 0
  | S754_finite s m e =>
    let v := if 0 <=? e then Z.pos m * 2 ^ e else Z.pos m / 2 ^ (- e) in
    Some (if s then - v else v)
  | S754_infinity _ | S754_nan => None
  end.

(** [int(f)]: truncation toward zero. Where [int] cannot represent the
    value Go leaves the result to the implementation; this is amd64, whose
    conversion instruction then yields the most negative integer. *)
Definition int_of_float64 (f : float) : Z :=
  match truncate f with
  | Some z => if (MinInt64 <=? z) && (z <=? MaxInt64) then z else MinInt64
  | None => MinInt64
  end.

Module math.

Definition Frexp (f : float) : float * Z := FloatOps.Z.frexp f.

Definition Ldexp (frac : float) (exp : Z) : float := FloatOps.Z.ldexp frac exp.

(** The loop [for i := int64(yi); i != 0; i >>= 1] of [Pow], run over the
    binary digits of [i]: the answer is [a1 * 2**ae]. *)
Fixpoint powLoop (i : positive) (a1 : float) (ae : Z) (x1 : float) (xe : Z)
  : float * Z :=
  if (xe <? - 4096) || (4096 <? xe) then (a1, ae + xe)
  else
    let '(a1, ae) :=
      match i with
      | xO _ => (a1, ae)
      | _ => ((a1 * x1)%float, ae + xe)
      end in
    let x1 := (x1 * x1)%float in
    let xe := 2 * xe in
    let '(x1, xe) :=
      if (x1 <? 0.5)%float then ((x1 + x1)%float, xe - 1) else (x1, xe) in
    match i with
    | xH => (a1, ae)
    | xO i' | xI i' => powLoop i' a1 ae x1 xe
    end.

(** [Pow(x, y)] as [PowerNode.Execute] calls it: both arguments are images
    of ints, hence finite and integral, and [x] is never the negative
    zero. The special cases for NaN, infinite or fractional arguments are
    out of reach and left out; [Modf(Abs(y))] is then [(Abs(y), 0)]. *)
Definition Pow (x y : float) : float :=
  if (y =? 0)%float || (x =? 1)%float then 1%float
  else if (y =? 1)%float then x
  else if (x =? 0)%float
  then (if (y <? 0)%float then infinity else 0%float)
  else
    let yi := abs y in
    if (0x1p63 <=? yi)%float
    then (if (x =? -1)%float then 1%float
          else if Bool.eqb (abs x <? 1)%float (0 <? y)%float then 0%float
          else infinity)
    else
      let '(x1, xe) := Frexp x in
      let '(a1, ae) :=
        match int_of_float64 yi with
        | Z.pos i => powLoop i 1%float 0 x1 xe
        | _ => (1%float, 0)
        end in
      let '(a1, ae) :=
        if (y <? 0)%float then ((1 / a1)%float, - ae) else (a1, ae) in
      Ldexp a1 ae.

End math.

(* ================================================================== *)
(** * main.go: tokens and nodes *)

Definition TokenConsole : string := "CONSOLE".
Definition TokenLog : string := "LOG".
Definition TokenString : string := "STRING".
Definition TokenInt : string := "INT".
Definition TokenPlus : string := "PLUS".
Definition TokenMinus : string := "MINUS".
Definition TokenMultiply : string := "MULTIPLY".
Definition TokenDivide : string := "DIVIDE".
Definition TokenModulo : string := "MODULO".
Definition TokenPower : string := "POWER".

Record Token : Type := mkToken { Type_ : string; Literal : string }.

(** The implementations of the [Node] interface, one constructor per
    struct. *)
#[warning="-register-all"]
Inductive Node : Type :=
| ConsoleLogNode (Arguments : list Node)
| StringNode (Value : string)
| PlusNode (Left Right : Node)
| MinusNode (Left Right : Node)
| MultiplyNode (Left Right : Node)
| DivideNode (Left Right : Node)
| ModuloNode (Left Right : Node)
| PowerNode (Left Right : Node)
| IntNode (Value : string).

(* ================================================================== *)
(** * main.go: the Execute methods *)

(** [left, _ := strconv.Atoi(text)]. *)
Definition operand (text : string) : Z := fst (strconv.Atoi text).

Fixpoint Execute (n : Node) : result string :=
  match n with
  | ConsoleLogNode Arguments =>
    args <- (fix range (l : list Node) : result (list string) :=
               match l with
               | [] => Ok []
               | arg :: l' =>
                 s <- Execute arg ;; ss <- range l' ;; Ok (s :: ss)
               end) Arguments ;;
    Ok (strings.Join args " ")
  | StringNode Value => Ok Value
  | PlusNode Left Right =>
    l <- Execute Left ;; let left := operand l in
    r <- Execute Right ;; let right := operand r in
    Ok (strconv.Itoa (wrap64 (left + right)))
  | MinusNode Left Right =>
    l <- Execute Left ;; let left := operand l in
    r <- Execute Right ;; let right := operand r in
    Ok (strconv.Itoa (wrap64 (left - right)))
  | MultiplyNode Left Right =>
    l <- Execute Left ;; let left := operand l in
    r <- Execute Right ;; let right := operand r in
    Ok (strconv.Itoa (wrap64 (left * right)))
  | DivideNode Left Right =>
    l <- Execute Left ;; let left := operand l in
    r <- Execute Right ;; let right := operand r in
    if right =? 0 then Panic IntegerDivideByZero
    else Ok (strconv.Itoa (wrap64 (Z.quot left right)))
  | ModuloNode Left Right =>
    l <- Execute Left ;; let left := operand l in
    r <- Execute Right ;; let right := operand r in
    if right =? 0 then Panic IntegerDivideByZero
    else Ok (strconv.Itoa (wrap64 (Z.rem left right)))
  | PowerNode Left Right =>
    l <- Execute Left ;; let left := operand l in
    r <- Execute Right ;; let right := operand r in
    let result := math.Pow (float64_of_int left) (float64_of_int right) in
    Ok (strconv.Itoa (int_of_float64 result))
  | IntNode Value => Ok Value
  end.

(** The loop of [ConsoleLogNode.Execute] that fills [args]. *)
Fixpoint executeAll (l : list Node) : result (list string) :=
  match l with
  | [] => Ok []
  | arg :: l' => s <- Execute arg ;; ss <- executeAll l' ;; Ok (s :: ss)
  end.

(* ================================================================== *)
(** * main.go: Lex *)

Definition operators : string := "+-*%/^".

(** The body of [for _, arg := range arguments]. *)
Definition lexArgument (tokens : list Token) (arg : string)
  : result (list Token) :=
  let arg := strings.TrimSpace arg in
  if strings.HasPrefix arg dquote && strings.HasSuffix arg dquote then
    lit <- slice arg 1 (len arg - 1) ;;
    Ok (tokens ++ [mkToken TokenString lit])
  else if strings.ContainsAny arg operators then
    let operatorIndex := strings.IndexAny arg operators in
    a <- slice arg 0 operatorIndex ;;
    let num1 := strings.TrimSpace a in
    b <- slice arg operatorIndex (operatorIndex + 1) ;;
    let operator := strings.TrimSpace b in
    c <- slice arg (operatorIndex + 1) (len arg) ;;
    let num2 := strings.TrimSpace c in
    let tokens := tokens ++ [mkToken TokenInt num1] in
    let tokens :=
      if String.eqb operator "+" then tokens ++ [mkToken TokenPlus operator]
      else if String.eqb operator "-" then tokens ++ [mkToken TokenMinus operator]
      else if String.eqb operator "*" then tokens ++ [mkToken TokenMultiply operator]
      else if String.eqb operator "/" then tokens ++ [mkToken TokenDivide operator]
      else if String.eqb operator "%" then tokens ++ [mkToken TokenModulo operator]
      else if String.eqb operator "^" then tokens ++ [mkToken TokenPower operator]
      else tokens in
    Ok (tokens ++ [mkToken TokenInt num2])
  else Ok (tokens ++ [mkToken TokenInt arg]).

(** The body of [for _, word := range consoleLog]. *)
Definition lexWord (tokens : list Token) (word : string) : result (list Token) :=
  if String.eqb word "console" then Ok (tokens ++ [mkToken TokenConsole word])
  else if String.eqb word "log" then Ok (tokens ++ [mkToken TokenLog word])
  else Ok tokens.

Definition isSeparator (r : ascii) : bool := Ascii.eqb r " " || Ascii.eqb r ".".

(** The body of [for _, stmt := range statements]. *)
Definition lexStatement (tokens : list Token) (stmt : string)
  : result (list Token) :=
  let stmt := strings.TrimSpace stmt in
  if String.eqb stmt "" then Ok tokens
  else
    let startIndex := strings.Index stmt "(" in
    let endIndex := strings.LastIndex stmt ")" in
    head <- slice stmt 0 startIndex ;;
    let consoleLog := strings.FieldsFunc head isSeparator in
    inner <- slice stmt (startIndex + 1) endIndex ;;
    let arguments := strings.Split inner "," in
    tokens <- forRange lexWord tokens consoleLog ;;
    forRange lexArgument tokens arguments.

Definition Lex (input : string) : result (list Token) :=
  let statements := strings.Split input ";" in
  forRange lexStatement [] statements.

(* ================================================================== *)
(** * main.go: Parse *)

(** The index expression [tokens[i]]. *)
Definition index (tokens : list Token) (i : nat) : result Token :=
  match nth_error tokens i with
  | Some t => Ok t
  | None => Panic IndexOutOfRange
  end.

(** The body of the inner loop of [Parse], without its final [i++]: the
    arguments so far and the cursor after the statement [if ... else if]. *)
Definition parseArgument (tokens : list Token) (i : nat) (args : list Node)
  : result (list Node * nat) :=
  t <- index tokens i ;;
  if String.eqb (Type_ t) TokenString then
    Ok (args ++ [StringNode (Literal t)], i)
  else if String.eqb (Type_ t) TokenInt then
    if (i + 2 <? List.length tokens)%nat then
      t2 <- index tokens (i + 2) ;;
      if String.eqb (Type_ t2) TokenInt then
        t1 <- index tokens (i + 1) ;;
        let l := IntNode (Literal t) in
        let r := IntNode (Literal t2) in
        let args :=
          if String.eqb (Type_ t1) TokenPlus then args ++ [PlusNode l r]
          else if String.eqb (Type_ t1) TokenMinus then args ++ [MinusNode l r]
          else if String.eqb (Type_ t1) TokenMultiply then args ++ [MultiplyNode l r]
          else if String.eqb (Type_ t1) TokenDivide then args ++ [DivideNode l r]
          else if String.eqb (Type_ t1) TokenModulo then args ++ [ModuloNode l r]
          else if String.eqb (Type_ t1) TokenPower then args ++ [PowerNode l r]
          else args in
        Ok (args, (i + 2)%nat)
      else Ok (args ++ [IntNode (Literal t)], i)
    else Ok (args ++ [IntNode (Literal t)], i)
  else Ok (args, i).

(** [for i < len(tokens) && tokens[i].Type != TokenConsole { ...; i++ }].
    The cursor grows at every turn, so [len(tokens)] turns are enough. *)
Fixpoint parseArguments (fuel : nat) (tokens : list Token) (i : nat)
  (args : list Node) : result (list Node * nat) :=
  match fuel with
  | O => Ok (args, i)
  | S fuel' =>
    if (i <? List.length tokens)%nat then
      t <- index tokens i ;;
      if negb (String.eqb (Type_ t) TokenConsole) then
        '(args, i) <- parseArgument tokens i args ;;
        parseArguments fuel' tokens (i + 1) args
      else Ok (args, i)
    else Ok (args, i)
  end.

(** [for i < len(tokens) { if ... { ... } else { panic("Invalid syntax") } }]. *)
Fixpoint parseStatements (fuel : nat) (tokens : list Token) (i : nat)
  (nodes : list Node) : result (list Node) :=
  match fuel with
  | O => Ok nodes
  | S fuel' =>
    if (i <? List.length tokens)%nat then
      t <- index tokens i ;;
      if String.eqb (Type_ t) TokenConsole then
        t1 <- index tokens (i + 1) ;;
        if String.eqb (Type_ t1) TokenLog then
          '(args, i) <- parseArguments (List.length tokens) tokens (i + 2) [] ;;
          parseStatements fuel' tokens i (nodes ++ [ConsoleLogNode args])
        else Panic InvalidSyntax
      else Panic InvalidSyntax
    else Ok nodes
  end.

Definition Parse (tokens : list Token) : result (list Node) :=
  parseStatements (List.length tokens) tokens 0 [].

(* ================================================================== *)
(** * main.go: Eval *)

(** [Eval], with standard output as the list of the lines printed so far:
    the lines after the call and the panic that stopped it, if any. *)
Fixpoint Eval (nodes : list Node) (stdout : list string)
  : list string * option panic :=
  match nodes with
  | [] => (stdout, None)
  | node :: nodes' =>
    match Execute node with
    | Ok line => Eval nodes' (stdout ++ [line])
    | Panic p => (stdout, Some p)
    end
  end.

(** The three calls of [main] on the text of the file, [Lex], [Parse] and
    [Eval], without the dumps of the tokens and of the tree that [main]
    prints in between. *)
Definition Interpret (data : string) : list string * option panic :=
  match Lex data with
  | Panic p => ([], Some p)
  | Ok tokens =>
    match Parse tokens with
    | Panic p => ([], Some p)
    | Ok ast => Eval ast []
    end
  end.

(* ================================================================== *)
(** * Vocabulary of the specification *)

(** The six operators of a [BinaryOp] node; main.go has one struct for
    each. *)
Inductive Operator : Type := Add | Sub | Mul | Div | Mod | Pow.

Definition BinaryOp (op : Operator) (l r : Node) : Node :=
  match op with
  | Add => PlusNode l r
  | Sub => MinusNode l r
  | Mul => MultiplyNode l r
  | Div => DivideNode l r
  | Mod => ModuloNode l r
  | Pow => PowerNode l r
  end.

Definition operatorChar (op : Operator) : ascii :=
  match op with
  | Add => "+" | Sub => "-" | Mul => "*" | Div => "/" | Mod => "%" | Pow => "^"
  end%char.

Definition operatorType (op : Operator) : string :=
  match op with
  | Add => TokenPlus | Sub => TokenMinus | Mul => TokenMultiply
  | Div => TokenDivide | Mod => TokenModulo | Pow => TokenPower
  end.

(** The token the lexer emits for an operator. *)
Definition operatorToken (op : Operator) : Token :=
  mkToken (operatorType op) (String (operatorChar op) "").

(** The conversion of the text to a number fails as ill-formed. *)
Definition rejected (text : string) : Prop :=
  snd (strconv.Atoi text) = Some strconv.ErrSyntax.

Definition rejectedb (text : string) : bool :=
  match snd (strconv.Atoi text) with
  | Some strconv.ErrSyntax => true
  | _ => false
  end.

(** The operand text with ["0"] in the place of a rejected one. *)
Definition zeroed (text : string) : string :=
  if rejectedb text then "0" else text.

(** Every byte is a decimal digit. *)
Definition allDigits (s : string) : bool :=
  forallb strconv.isDigit (list_ascii_of_string s).

(** An optional sign followed by one decimal digit or more. *)
Definition numeral (s : string) : bool :=
  match s with
  | "" => false
  | String c r =>
    if Ascii.eqb c "-" || Ascii.eqb c "+"
    then negb (String.eqb r "") && allDigits r
    else allDigits s
  end.

(** No byte of [s] is the byte [c]; no byte of [s] is one of [chars]. *)
Definition free (c : ascii) (s : string) : Prop :=
  ~ In c (list_ascii_of_string s).

Definition freeOf (chars : string) (s : string) : Prop :=
  forall c, In c (list_ascii_of_string s) -> strings.byteIn c chars = false.

(** The argument is taken as a quoted string by the lexer. *)
Definition quoted (arg : string) : bool :=
  strings.HasPrefix arg dquote && strings.HasSuffix arg dquote.

(** The number a text of decimal digits denotes, most significant digit
    first, after the digits of [n]. *)
Fixpoint valueFrom (s : string) (n : Z) : Z :=
  match s with
  | "" => n
  | String c r => valueFrom r (10 * n + (byte c - 48))
  end.

Definition value (s : string) : Z := valueFrom s 0.

(** An integer literal of the language: decimal digits, one at least,
    that denote a number an int can hold. (A sign is not part of a literal:
    the lexer takes a leading [-] or [+] for the operator of the
    argument.) *)
Definition literal (s : string) : Prop :=
  s <> "" /\ allDigits s = true /\ value s <= MaxInt64.

(** The statement [console.log(a op b);]. *)
Definition call (a : string) (op : Operator) (b : string) : string :=
  ("console.log" ++ String "(" ((a ++ String (operatorChar op) b) ++ String ")" ""))%string.

Definition statement (a : string) (op : Operator) (b : string) : string :=
  (call a op b ++ String ";" "")%string.

(** The exact integer result of an operator: division truncates toward
    zero and the remainder has the sign of the dividend, as in Go. *)
Definition exact (op : Operator) (x y : Z) : Z :=
  match op with
  | Add => x + y
  | Sub => x - y
  | Mul => x * y
  | Div => Z.quot x y
  | Mod => Z.rem x y
  | Pow => x ^ y
  end.

(** Where the program computes the exact result of an operator on the
    values of two literals: the sum and the product must fit in an int,
    the divisor must not be 0, and the power, computed in binary64, must
    be below 2^53, the integers that binary64 holds one by one. *)
Definition computable (op : Operator) (x y : Z) : Prop :=
  match op with
  | Add => x + y <= MaxInt64
  | Sub => True
  | Mul => x * y <= MaxInt64
  | Div | Mod => y <> 0
  | Pow => x ^ y < 2 ^ 53
  end.

(** [int(math.Pow(float64(x), float64(y)))]. *)
Definition powInt (x y : Z) : Z :=
  int_of_float64 (math.Pow (float64_of_int x) (float64_of_int y)).

(** A mantissa of binary64 in its normal form: 53 binary digits. *)
Definition normal (q : positive) : Prop := 2 ^ 52 <= Z.pos q < 2 ^ 53.

(** [represents f k s]: the binary64 number [f] is the normal, positive
    and finite one of value [k * 2^s], for a positive integer [k] of at
    most 53 binary digits. *)
Definition represents (f : spec_float) (k s : Z) : Prop :=
  exists (q : positive) (j : Z),
    f = S754_finite false q (s - j) /\ normal q /\ 0 <= j /\ Z.pos q = k * 2 ^ j.

(** [mantissa f X xe]: [f] is the fraction in [0.5, 1) of the positive
    integer [X], and [xe] its exponent: [X = f * 2^xe], as [Frexp]
    returns them and the loop of [Pow] keeps them. *)
Definition mantissa (f : float) (X xe : Z) : Prop :=
  exists (q : positive) (j : Z),
    Prim2SF f = S754_finite false q (- 53) /\ normal q /\ 0 <= j
    /\ Z.pos q = X * 2 ^ j /\ xe = 53 - j.

(** The first and the last byte of a string. *)
Definition firstByte (s : string) : option ascii :=
  match s with
  | "" => None
  | String c _ => Some c
  end.

Fixpoint lastByte (s : string) : option ascii :=
  match s with
  | "" => None
  | String c "" => Some c
  | String _ r => lastByte r
  end.

(** An ASCII byte that is no white space. *)
Definition plain (c : ascii) : Prop :=
  byte c < 128 /\ unicode.IsSpace (byte c) = false.

(* ================================================================== *)
(** * Induction on nodes *)

(** The induction principle of [Node], its list of arguments included,
    with the six arithmetic structs taken together. *)
Section NodeInduction.

Variable P : Node -> Prop.

Hypothesis PLog : forall args, Forall P args -> P (ConsoleLogNode args).
Hypothesis PString : forall v, P (StringNode v).
Hypothesis PInt : forall v, P (IntNode v).
Hypothesis PBinary : forall op l r, P l -> P r -> P (BinaryOp op l r).

Fixpoint Node_induction (n : Node) : P n :=
  match n with
  | ConsoleLogNode args =>
    PLog args
      ((fix all (l : list Node) : Forall P l :=
          match l with
          | [] => Forall_nil P
          | a :: l' => Forall_cons a (Node_induction a) (all l')
          end) args)
  | StringNode v => PString v
  | PlusNode l r => PBinary Add l r (Node_induction l) (Node_induction r)
  | MinusNode l r => PBinary Sub l r (Node_induction l) (Node_induction r)
  | MultiplyNode l r => PBinary Mul l r (Node_induction l) (Node_induction r)
  | DivideNode l r => PBinary Div l r (Node_induction l) (Node_induction r)
  | ModuloNode l r => PBinary Mod l r (Node_induction l) (Node_induction r)
  | PowerNode l r => PBinary Pow l r (Node_induction l) (Node_induction r)
  | IntNode v => PInt v
  end.

End NodeInduction.


(* ================================================================== *)
(** * Vocabulary of the further properties *)

(** The tokens the lexer can emit: the two keywords with their words, the
    six operators with their characters, strings and ints. *)
Definition lexed (t : Token) : Prop :=
  t = mkToken TokenConsole "console"
  \/ t = mkToken TokenLog "log"
  \/ (exists op, t = operatorToken op)
  \/ Type_ t = TokenString
  \/ Type_ t = TokenInt.

(** The tokens end with the token of an argument, if there are any. *)
Definition endsInArgument (tokens : list Token) : Prop :=
  tokens = []
  \/ exists pre t, tokens = pre ++ [t] /\ (Type_ t = TokenString \/ Type_ t = TokenInt).

(** The tokens of a word before the parenthesis. *)
Definition wordTokens (word : string) : list Token :=
  if String.eqb word "console" then [mkToken TokenConsole word]
  else if String.eqb word "log" then [mkToken TokenLog word]
  else [].

(** An argument as the parser builds it from the tokens: the literal of a
    String token, the literal of an Int token, or an operator on the
    literals of two tokens. *)
Definition parsedArgument (tokens : list Token) (n : Node) : Prop :=
  (exists t, In t tokens /\ Type_ t = TokenString /\ n = StringNode (Literal t))
  \/ (exists t, In t tokens /\ Type_ t = TokenInt /\ n = IntNode (Literal t))
  \/ (exists op t t2, In t tokens /\ In t2 tokens
                      /\ Type_ t = TokenInt /\ Type_ t2 = TokenInt
                      /\ n = BinaryOp op (IntNode (Literal t)) (IntNode (Literal t2))).

(** A statement as the parser builds it: a LogCall of such arguments. *)
Definition parsedStatement (tokens : list Token) (n : Node) : Prop :=
  exists args, n = ConsoleLogNode args /\ Forall (parsedArgument tokens) args.

(** The statement [console.log(inner);]. *)
Definition logCall (inner : string) : string :=
  ("console.log" ++ String "(" (inner ++ String ")" ""))%string.

Definition logStatement (inner : string) : string :=
  (logCall inner ++ String ";" "")%string.

(** A string literal: the text between double quotes. *)
Definition quoteArg (text : string) : string := (dquote ++ text ++ dquote)%string.

Definition stringToken (text : string) : Token := mkToken TokenString text.

(* ================================================================== *)
(** * main.go: main *)

(** How a run of the program ends. *)
Inductive exit : Type :=
| Returns                      (* main returns *)
| Exits (code : Z)             (* os.Exit(code) *)
| Panics (p : panic)           (* a panic of Lex, Parse or Execute *)
| PanicsWith (err : string).   (* panic(err), err the error of os.ReadFile *)

(** The verb [%T] of [fmt.Printf] on a node. *)
Definition typeName (n : Node) : string :=
  match n with
  | ConsoleLogNode _ => "*main.ConsoleLogNode"
  | StringNode _ => "*main.StringNode"
  | PlusNode _ _ => "*main.PlusNode"
  | MinusNode _ _ => "*main.MinusNode"
  | MultiplyNode _ _ => "*main.MultiplyNode"
  | DivideNode _ _ => "*main.DivideNode"
  | ModuloNode _ _ => "*main.ModuloNode"
  | PowerNode _ _ => "*main.PowerNode"
  | IntNode _ => "*main.IntNode"
  end.

(** [fmt.Printf("Type: %s, Literal: %s\n", token.Type, token.Literal)],
    without the newline that ends the line. *)
Definition tokenLine (t : Token) : string :=
  ("Type: " ++ Type_ t ++ ", Literal: " ++ Literal t)%string.

(** [fmt.Printf("%T: %s\n", node, text)], without the newline. *)
Definition treeLine (n : Node) (text : string) : string :=
  (typeName n ++ ": " ++ text)%string.

(** The texts ["\nAbstract Syntax Tree:"] and ["\nOutput:"]. *)
Definition treeHeader : string := String "010" "Abstract Syntax Tree:".
Definition outputHeader : string := String "010" "Output:".

(** [for _, node := range ast { fmt.Printf("%T: %s\n", node, node.Execute()) }]:
    the arguments of [Printf] are evaluated first, so a node that panics
    prints nothing. *)
Fixpoint dumpTree (ast : list Node) (stdout : list string)
  : list string * option panic :=
  match ast with
  | [] => (stdout, None)
  | node :: ast' =>
    match Execute node with
    | Ok text => dumpTree ast' (stdout ++ [treeLine node text])
    | Panic p => (stdout, Some p)
    end
  end.

(** [main], given [os.Args] and the file system as the function
    [os.ReadFile] is on paths (the bytes of the file, or the error): the
    lines written to standard output and how the run ends. *)
Definition main (Args : list string) (ReadFile : string -> string + string)
  : list string * exit :=
  if (List.length Args <? 2)%nat
  then (["Please provide a file to execute"], Exits 1)
  else
    match ReadFile (nth 1 Args "") with
    | inr err => ([], PanicsWith err)
    | inl data =>
      match Lex data with
      | Panic p => ([], Panics p)
      | Ok tokens =>
        let stdout := ["Tokens:"] ++ map tokenLine tokens in
        match Parse tokens with
        | Panic p => (stdout, Panics p)
        | Ok ast =>
          match dumpTree ast (stdout ++ [treeHeader]) with
          | (stdout, Some p) => (stdout, Panics p)
          | (stdout, None) =>
            match Eval ast (stdout ++ [outputHeader]) with
            | (stdout, Some p) => (stdout, Panics p)
            | (stdout, None) => (stdout, Returns)
            end
          end
        end
      end
    end.

(** The line of the tree dump for a statement that prints [line]. *)
Definition statementLine (line : string) : string :=
  ("*main.ConsoleLogNode: " ++ line)%string.


(* ================================================================== *)
(** * Statements with white space *)

(** A byte of ASCII white space, a character that [TrimSpace] removes. *)
Definition isBlank (c : ascii) : bool :=
  (byte c <? 128) && unicode.IsSpace (byte c).

Definition blank (w : string) : Prop :=
  forallb isBlank (list_ascii_of_string w) = true.

(** The white space of a statement [console.log(a op b);]: before the
    statement, after the opening parenthesis, after the left operand,
    after the operator, after the right operand, after the closing
    parenthesis and after the semicolon. *)
Record Spacing : Type := mkSpacing {
  before : string;
  afterOpen : string;
  afterLeft : string;
  afterOperator : string;
  afterRight : string;
  afterClose : string;
  afterSemicolon : string
}.

Definition blanks (sp : Spacing) : Prop :=
  blank (before sp) /\ blank (afterOpen sp) /\ blank (afterLeft sp)
  /\ blank (afterOperator sp) /\ blank (afterRight sp) /\ blank (afterClose sp)
  /\ blank (afterSemicolon sp).

Definition noSpacing : Spacing := mkSpacing "" "" "" "" "" "" "".

(** The argument [a op b] and the statement [console.log(a op b);] with
    the white space of [sp]. *)
Definition spacedArgument (sp : Spacing) (a : string) (op : Operator) (b : string) : string :=
  (afterOpen sp
   ++ (a ++ afterLeft sp ++ String (operatorChar op) (afterOperator sp ++ b))
   ++ afterRight sp)%string.

Definition spacedStatement (sp : Spacing) (a : string) (op : Operator) (b : string) : string :=
  ((before sp ++ logCall (spacedArgument sp a op b) ++ afterClose sp)
   ++ String ";" (afterSemicolon sp))%string.

(** What the program computes from the values of two literals: the sum
    and the product are taken modulo 2^64, in the range of an int, and the
    power is the one of binary64, converted to an int. *)
Definition computed (op : Operator) (x y : Z) : Z :=
  match op with
  | Add | Mul => wrap64 (exact op x y)
  | Sub | Div | Mod => exact op x y
  | Pow => powInt x y
  end.

(** The quotient and the remainder by 0. *)
Definition dividesByZero (op : Operator) (y : Z) : bool :=
  match op with
  | Div | Mod => y =? 0
  | _ => false
  end.

(* ================================================================== *)
(** * Loops and the error monad *)

Lemma forRange_app {A S : Type} (body : S -> A -> result S) (l1 l2 : list A) (st : S) :
  forRange body st (l1 ++ l2) = st' <- forRange body st l1 ;; forRange body st' l2.
Proof.
  revert st. induction l1 as [|x l1 IH]; intros st; simpl; [reflexivity|].
  destruct (body st x) as [st'|p]; simpl; [apply IH | reflexivity].
Qed.

(** A loop one of whose turns panics with [p] whatever the state, and no
    turn of which panics otherwise than with [p], panics with [p]. *)
Lemma forRange_panics {A S : Type} (body : S -> A -> result S) (p : panic)
  (l : list A) (x : A) :
  In x l ->
  (forall st, body st x = Panic p) ->
  (forall st y q, body st y = Panic q -> q = p) ->
  forall st, forRange body st l = Panic p.
Proof.
  intros Hin Hx Honly. induction l as [|y l IH]; [contradiction|].
  intros st. simpl. destruct Hin as [->|Hin].
  - rewrite Hx. reflexivity.
  - destruct (body st y) as [st'|q] eqn:E; simpl.
    + apply IH, Hin.
    + f_equal. eapply Honly, E.
Qed.

Lemma forRange_only {A S : Type} (body : S -> A -> result S) (p : panic) :
  (forall st y q, body st y = Panic q -> q = p) ->
  forall l st q, forRange body st l = Panic q -> q = p.
Proof.
  intros Honly l. induction l as [|y l IH]; intros st q; simpl; [discriminate|].
  destruct (body st y) as [st'|q'] eqn:E; simpl.
  - apply IH.
  - intros [= <-]. eapply Honly, E.
Qed.

(* ================================================================== *)
(** * Execution of nodes *)

Lemma Execute_ConsoleLogNode (Arguments : list Node) :
  Execute (ConsoleLogNode Arguments)
  = args <- executeAll Arguments ;; Ok (strings.Join args " ").
Proof.
  reflexivity.
Qed.

Lemma executeAll_ok (args : list Node) (texts : list string) :
  Forall2 (fun n t => Execute n = Ok t) args texts ->
  executeAll args = Ok texts.
Proof.
  induction 1 as [|n t args texts Hn _ IH]; simpl; [reflexivity|].
  rewrite Hn. simpl. rewrite IH. reflexivity.
Qed.

(** The arguments are executed in order: the first panic is the panic of
    the call. *)
Lemma executeAll_panic (pre post : list Node) (texts : list string) (n : Node) (p : panic) :
  Forall2 (fun n t => Execute n = Ok t) pre texts ->
  Execute n = Panic p ->
  executeAll (pre ++ n :: post) = Panic p.
Proof.
  induction 1 as [|m t pre texts Hm _ IH]; simpl; intros Hn.
  - rewrite Hn. reflexivity.
  - rewrite Hm. simpl. rewrite (IH Hn). reflexivity.
Qed.

Lemma append_assoc (a b c : string) : ((a ++ b) ++ c = a ++ (b ++ c))%string.
Proof. induction a as [|x a IH]; simpl; [reflexivity | now rewrite IH]. Qed.

Lemma Join_fold (sep : string) (rest : list string) (e : string) :
  rest <> [] ->
  fold_left (fun b s => (b ++ sep ++ s)%string) rest e
  = (e ++ sep ++ String.concat sep rest)%string.
Proof.
  revert e. induction rest as [|x rest IH]; intros e Hne; [congruence|].
  destruct rest as [|y rest]; [reflexivity|].
  remember (y :: rest) as l eqn:El.
  change (fold_left (fun b s => (b ++ sep ++ s)%string) l (e ++ sep ++ x)%string
          = (e ++ sep ++ String.concat sep (x :: l))%string).
  rewrite IH by (subst l; discriminate).
  subst l. cbn [String.concat]. rewrite !append_assoc. reflexivity.
Qed.

Lemma Join_concat (elems : list string) (sep : string) :
  strings.Join elems sep = String.concat sep elems.
Proof.
  destruct elems as [|e [|x rest]]; try reflexivity.
  unfold strings.Join. rewrite Join_fold by discriminate. reflexivity.
Qed.

(** C7. A LogCall executes its arguments in order and joins their texts
    with exactly one space: when the arguments execute to [texts], the call
    yields the texts separated by single spaces, in argument order. *)
Theorem ConsoleLogNode_joins_arguments (args : list Node) (texts : list string) :
  Forall2 (fun n t => Execute n = Ok t) args texts ->
  Execute (ConsoleLogNode args) = Ok (String.concat " " texts).
Proof.
  intros H. rewrite Execute_ConsoleLogNode, (executeAll_ok _ _ H). simpl.
  rewrite Join_concat. reflexivity.
Qed.

Lemma ConsoleLogNode_joins_arguments_witness :
  Execute (ConsoleLogNode [StringNode "sum:"; PlusNode (IntNode "2") (IntNode "3")])
  = Ok "sum: 5".
Proof.
  apply (ConsoleLogNode_joins_arguments
           [StringNode "sum:"; PlusNode (IntNode "2") (IntNode "3")] ["sum:"; "5"]).
  repeat constructor.
Defined.

(** The statement of the specification, through the whole pipeline. *)
Example Interpret_sum :
  Interpret ("console.log(" ++ dquote ++ "sum:" ++ dquote ++ ", 2+3);")%string
  = (["sum: 5"], None).
Proof. vm_compute. reflexivity. Qed.

Lemma ConsoleLogNode_first_panic (pre post : list Node) (texts : list string)
  (n : Node) (p : panic) :
  Forall2 (fun n t => Execute n = Ok t) pre texts ->
  Execute n = Panic p ->
  Execute (ConsoleLogNode (pre ++ n :: post)) = Panic p.
Proof.
  intros Hpre Hn. rewrite Execute_ConsoleLogNode, (executeAll_panic _ _ _ _ _ Hpre Hn).
  reflexivity.
Qed.

(* ================================================================== *)
(** * Evaluation of the program *)

(** C8. Evaluation emits one line per node, in program order: when the
    nodes execute to [lines], [Eval] appends exactly these lines, in this
    order, to the output and ends without panic. *)
Theorem Eval_emits_lines_in_order (nodes : list Node) (lines stdout : list string) :
  Forall2 (fun n t => Execute n = Ok t) nodes lines ->
  Eval nodes stdout = (stdout ++ lines, None).
Proof.
  intros H. revert stdout.
  induction H as [|n t nodes lines Hn _ IH]; intros stdout; simpl.
  - rewrite app_nil_r. reflexivity.
  - rewrite Hn, IH, <- app_assoc. reflexivity.
Qed.

Lemma Eval_emits_lines_in_order_witness :
  Eval [ConsoleLogNode [PlusNode (IntNode "1") (IntNode "1")];
        ConsoleLogNode [PlusNode (IntNode "2") (IntNode "2")]] []
  = ([] ++ ["2"; "4"], None).
Proof.
  apply (Eval_emits_lines_in_order
           [ConsoleLogNode [PlusNode (IntNode "1") (IntNode "1")];
            ConsoleLogNode [PlusNode (IntNode "2") (IntNode "2")]] ["2"; "4"] []).
  repeat constructor.
Defined.

Example Interpret_two_statements :
  Interpret "console.log(1+1); console.log(2+2);" = (["2"; "4"], None).
Proof. vm_compute. reflexivity. Qed.

(** A panic stops the evaluation: the lines of the nodes before it stay,
    no line is printed for the node that panics nor for those after it. *)
Lemma Eval_stops_at_panic (pre post : list Node) (lines stdout : list string)
  (n : Node) (p : panic) :
  Forall2 (fun n t => Execute n = Ok t) pre lines ->
  Execute n = Panic p ->
  Eval (pre ++ n :: post) stdout = (stdout ++ lines, Some p).
Proof.
  intros H Hn. revert stdout.
  induction H as [|m t pre lines Hm _ IH]; intros stdout; simpl.
  - rewrite Hn, app_nil_r. reflexivity.
  - rewrite Hm, IH, <- app_assoc. reflexivity.
Qed.

(* ================================================================== *)
(** * Conversion of operands *)

Lemma atoiLoop_not_digits (s : string) (n : Z) :
  allDigits s = false -> strconv.atoiLoop s n = (0, Some strconv.ErrSyntax).
Proof.
  unfold allDigits. revert n. induction s as [|c s IH]; intros n; simpl; [discriminate|].
  destruct (strconv.isDigit c); simpl; [apply IH | reflexivity].
Qed.

Lemma atoiLoop_error (s : string) (n v : Z) (e : strconv.NumError) :
  strconv.atoiLoop s n = (v, Some e) -> v = 0 /\ e = strconv.ErrSyntax.
Proof.
  revert n. induction s as [|c s IH]; intros n; simpl; [discriminate|].
  destruct (strconv.isDigit c); [apply IH|]. intros [= <- <-]. split; reflexivity.
Qed.

(** A text the conversion rejects as ill-formed counts as zero. *)
Lemma rejected_operand_zero (text : string) : rejected text -> operand text = 0.
Proof.
  unfold rejected, operand, strconv.Atoi.
  destruct ((0 <? len text) && (len text <? 19)).
  - destruct text as [|c r]; [reflexivity|].
    destruct ((Ascii.eqb c "-" || Ascii.eqb c "+")
              && (len (if Ascii.eqb c "-" || Ascii.eqb c "+" then r else String c r) <? 1));
      [reflexivity|].
    destruct (strconv.atoiLoop _ 0) as [n [e|]]; simpl; [reflexivity | discriminate].
  - unfold strconv.ParseInt. destruct text as [|c r]; [reflexivity|].
    destruct (strconv.ParseUint _) as [un [[|]|]]; simpl; try reflexivity;
      repeat match goal with
             | |- context [if ?b then (_, Some _) else _] => destruct b
             end; discriminate.
Qed.

Lemma rejectedb_spec (text : string) : rejectedb text = true <-> rejected text.
Proof.
  unfold rejectedb, rejected. destruct (snd (strconv.Atoi text)) as [[|]|];
    split; congruence.
Qed.

Lemma operand_zeroed (text : string) : operand (zeroed text) = operand text.
Proof.
  unfold zeroed. destruct (rejectedb text) eqn:E; [|reflexivity].
  apply rejectedb_spec in E. rewrite (rejected_operand_zero _ E). reflexivity.
Qed.

(** Below 19 bytes, the texts the conversion rejects are exactly those that
    are not numerals. *)
Lemma short_text_rejected (text : string) :
  len text < 19 -> numeral text = false -> rejected text.
Proof.
  unfold rejected, strconv.Atoi, numeral. intros Hlen Hnum.
  destruct text as [|c r]; [reflexivity|].
  replace ((0 <? len (String c r)) && (len (String c r) <? 19)) with true.
  2:{ symmetry. apply andb_true_iff. split; apply Z.ltb_lt; [|exact Hlen].
      unfold len. simpl String.length. lia. }
  destruct (Ascii.eqb c "-" || Ascii.eqb c "+") eqn:Es; cbn [andb].
  - destruct r as [|d r]; [reflexivity|].
    cbn [String.eqb negb andb] in Hnum.
    replace (len (String d r) <? 1) with false.
    2:{ symmetry. apply Z.ltb_ge. unfold len. simpl String.length. lia. }
    rewrite (atoiLoop_not_digits _ 0 Hnum). reflexivity.
  - rewrite (atoiLoop_not_digits _ 0 Hnum). reflexivity.
Qed.

(* ================================================================== *)
(** * Binary operations *)

(** C2. A Div or Mod node whose right operand counts as the integer 0
    panics instead of returning a text, and so does the statement it is
    an argument of: evaluation stops there, with the lines of the earlier
    statements only. *)
Theorem division_by_zero_is_fatal (op : Operator) (L R : Node) (lt rt : string) :
  op = Div \/ op = Mod ->
  Execute L = Ok lt ->
  Execute R = Ok rt ->
  operand rt = 0 ->
  Execute (BinaryOp op L R) = Panic IntegerDivideByZero
  /\ forall (pre post nodes rest : list Node) (texts lines stdout : list string),
      Forall2 (fun n t => Execute n = Ok t) pre texts ->
      Forall2 (fun n t => Execute n = Ok t) nodes lines ->
      Eval (nodes ++ ConsoleLogNode (pre ++ BinaryOp op L R :: post) :: rest) stdout
      = (stdout ++ lines, Some IntegerDivideByZero).
Proof.
  intros Hop HL HR Hz.
  assert (Hx : Execute (BinaryOp op L R) = Panic IntegerDivideByZero).
  { destruct Hop as [-> | ->]; simpl; rewrite HL, HR; simpl; rewrite Hz; reflexivity. }
  split; [exact Hx|].
  intros pre post nodes rest texts lines stdout Hpre Hnodes.
  apply Eval_stops_at_panic; [exact Hnodes|].
  eapply ConsoleLogNode_first_panic; eassumption.
Qed.

Lemma division_by_zero_is_fatal_witness :
  Execute (BinaryOp Div (IntNode "5") (IntNode "0")) = Panic IntegerDivideByZero
  /\ forall (pre post nodes rest : list Node) (texts lines stdout : list string),
      Forall2 (fun n t => Execute n = Ok t) pre texts ->
      Forall2 (fun n t => Execute n = Ok t) nodes lines ->
      Eval (nodes ++ ConsoleLogNode (pre ++ BinaryOp Div (IntNode "5") (IntNode "0") :: post)
              :: rest) stdout
      = (stdout ++ lines, Some IntegerDivideByZero).
Proof.
  apply (division_by_zero_is_fatal Div (IntNode "5") (IntNode "0") "5" "0");
    [left; reflexivity | reflexivity | reflexivity | reflexivity].
Defined.

(** The statement of the specification: the panic and no line. *)
Example Interpret_division_by_zero :
  Interpret "console.log(5/0);" = ([], Some IntegerDivideByZero)
  /\ Interpret "console.log(5%0);" = ([], Some IntegerDivideByZero).
Proof. split; vm_compute; reflexivity. Qed.

Lemma Execute_BinaryOp_operands (op : Operator) (L R L' R' : Node) (lt rt lt' rt' : string) :
  Execute L = Ok lt -> Execute R = Ok rt ->
  Execute L' = Ok lt' -> Execute R' = Ok rt' ->
  operand lt = operand lt' -> operand rt = operand rt' ->
  Execute (BinaryOp op L R) = Execute (BinaryOp op L' R').
Proof.
  intros HL HR HL' HR' El Er.
  destruct op; simpl; rewrite HL, HR, HL', HR'; simpl; rewrite El, Er; reflexivity.
Qed.

(** The claim of the specification fails as it stands: with a rejected
    right operand a division panics, and a text that is ill-formed only
    after digits that overflow counts as the largest integer, not as 0. *)
Lemma unparsable_operand_counterexample :
  rejected "x"
  /\ Execute (BinaryOp Div (IntNode "5") (IntNode "x")) = Panic IntegerDivideByZero
  /\ numeral "99999999999999999999x" = false
  /\ Execute (BinaryOp Add (IntNode "99999999999999999999x") (IntNode "0"))
     = Ok "9223372036854775807".
Proof. repeat split; vm_compute; reflexivity. Qed.

(** C3, amended. When the conversion rejects the text of an operand as
    ill-formed, the node computes as if the text were ["0"], the
    conversion raising no error of its own; the computation then ends
    without panic for Add, Sub, Mul and Pow, and for Div and Mod unless the
    right operand counts as 0. *)
Theorem rejected_operand_counts_as_zero (op : Operator) (L R : Node) (lt rt : string) :
  Execute L = Ok lt ->
  Execute R = Ok rt ->
  Execute (BinaryOp op L R)
  = Execute (BinaryOp op (IntNode (zeroed lt)) (IntNode (zeroed rt)))
  /\ ((rejected lt -> zeroed lt = "0" /\ operand lt = 0)
      /\ (rejected rt -> zeroed rt = "0" /\ operand rt = 0))
  /\ ((op <> Div /\ op <> Mod) \/ operand rt <> 0 ->
      exists text, Execute (BinaryOp op L R) = Ok text).
Proof.
  intros HL HR. split; [|split; [split|]].
  - apply (Execute_BinaryOp_operands op L R _ _ lt rt (zeroed lt) (zeroed rt));
      try assumption; try reflexivity; symmetry; apply operand_zeroed.
  - intros H. split; [|apply rejected_operand_zero, H].
    unfold zeroed. apply rejectedb_spec in H. rewrite H. reflexivity.
  - intros H. split; [|apply rejected_operand_zero, H].
    unfold zeroed. apply rejectedb_spec in H. rewrite H. reflexivity.
  - intros Hop. destruct op; simpl; rewrite HL, HR; simpl; try (eexists; reflexivity).
    + destruct Hop as [[Hd _]|Hnz]; [congruence|].
      apply Z.eqb_neq in Hnz. rewrite Hnz. eexists; reflexivity.
    + destruct Hop as [[_ Hm]|Hnz]; [congruence|].
      apply Z.eqb_neq in Hnz. rewrite Hnz. eexists; reflexivity.
Qed.

Lemma rejected_operand_counts_as_zero_witness :
  Execute (BinaryOp Add (IntNode "x") (IntNode "2"))
  = Execute (BinaryOp Add (IntNode (zeroed "x")) (IntNode (zeroed "2")))
  /\ ((rejected "x" -> zeroed "x" = "0" /\ operand "x" = 0)
      /\ (rejected "2" -> zeroed "2" = "0" /\ operand "2" = 0))
  /\ ((Add <> Div /\ Add <> Mod) \/ operand "2" <> 0 ->
      exists text, Execute (BinaryOp Add (IntNode "x") (IntNode "2")) = Ok text).
Proof.
  apply (rejected_operand_counts_as_zero Add (IntNode "x") (IntNode "2") "x" "2");
    reflexivity.
Defined.

(** The statement of the specification. *)
Example Interpret_non_numeric_operand :
  Interpret "console.log(x+2);" = (["2"], None).
Proof. vm_compute. reflexivity. Qed.

(* ================================================================== *)
(** * Strings *)

Lemma length_app (a b : string) :
  String.length (a ++ b) = (String.length a + String.length b)%nat.
Proof. induction a as [|x a IH]; simpl; [reflexivity | now rewrite IH]. Qed.

Lemma len_app (a b : string) : len (a ++ b) = len a + len b.
Proof. unfold len. rewrite length_app. lia. Qed.

Lemma len_nonneg (s : string) : 0 <= len s.
Proof. unfold len. lia. Qed.

Lemma len_String (c : ascii) (s : string) : len (String c s) = 1 + len s.
Proof. unfold len. simpl String.length. lia. Qed.

Lemma take_app (a b : string) : take (String.length a) (a ++ b) = a.
Proof. induction a as [|x a IH]; simpl; [now destruct b | now rewrite IH]. Qed.

Lemma take_all (a : string) : take (String.length a) a = a.
Proof. induction a as [|x a IH]; simpl; [reflexivity | now rewrite IH]. Qed.

Lemma drop_app (a b : string) : drop (String.length a) (a ++ b) = b.
Proof. induction a as [|x a IH]; simpl; [now destruct b | exact IH]. Qed.

Lemma chars_app (a b : string) :
  list_ascii_of_string (a ++ b) = list_ascii_of_string a ++ list_ascii_of_string b.
Proof. induction a as [|x a IH]; simpl; [reflexivity | now rewrite IH]. Qed.

Lemma free_String (c x : ascii) (s : string) :
  free c (String x s) <-> x <> c /\ free c s.
Proof. unfold free. simpl. tauto. Qed.

Lemma freeOf_String (chars : string) (x : ascii) (s : string) :
  freeOf chars (String x s) <-> strings.byteIn x chars = false /\ freeOf chars s.
Proof.
  unfold freeOf. simpl. split.
  - intros H. split; [apply H; now left | intros c Hc; apply H; now right].
  - intros [Hx Hs] c [<-|Hc]; [exact Hx | apply Hs, Hc].
Qed.

(** The slice [s[len(a) : len(a)+len(b)]] of [s = a ++ b ++ c] is [b]. *)
Lemma slice_middle (a b c : string) :
  slice (a ++ b ++ c) (len a) (len a + len b) = Ok b.
Proof.
  unfold slice.
  replace ((0 <=? len a) && (len a <=? len a + len b)
           && (len a + len b <=? len (a ++ b ++ c))) with true.
  - replace (Z.to_nat (len a + len b - len a)) with (String.length b) by (unfold len; lia).
    replace (Z.to_nat (len a)) with (String.length a) by (unfold len; lia).
    rewrite drop_app, take_app. reflexivity.
  - symmetry. rewrite !andb_true_iff, !Z.leb_le, !len_app.
    pose proof (len_nonneg a). pose proof (len_nonneg b). pose proof (len_nonneg c). lia.
Qed.

Lemma slice_prefix (a c : string) : slice (a ++ c) 0 (len a) = Ok a.
Proof. apply (slice_middle "" a c). Qed.

Lemma slice_suffix (a b : string) : slice (a ++ b) (len a) (len (a ++ b)) = Ok b.
Proof.
  rewrite len_app. pose proof (slice_middle a b "") as H.
  replace (b ++ "")%string with b in H; [exact H|].
  clear. induction b as [|x b IH]; simpl; [reflexivity | now rewrite <- IH].
Qed.

Lemma slice_panic (s : string) (lo hi : Z) (p : panic) :
  slice s lo hi = Panic p -> p = SliceBoundsOutOfRange.
Proof. unfold slice. destruct (_ && _); [discriminate | congruence]. Qed.

Lemma slice_backwards (s : string) (lo hi : Z) :
  hi < lo -> slice s lo hi = Panic SliceBoundsOutOfRange.
Proof.
  intros H. unfold slice. replace (lo <=? hi) with false by (symmetry; apply Z.leb_gt, H).
  rewrite andb_false_r. reflexivity.
Qed.

Lemma Index_lower (s : string) (c : ascii) : -1 <= strings.Index s c.
Proof.
  induction s as [|a r IH]; simpl; [lia|].
  destruct (Ascii.eqb a c); [lia|]. destruct (Z.ltb_spec (strings.Index r c) 0); lia.
Qed.

Lemma Index_free (s : string) (c : ascii) : free c s -> strings.Index s c = -1.
Proof.
  induction s as [|a r IH]; simpl; intros H; [reflexivity|].
  apply free_String in H. destruct H as [Hne Hr].
  apply Ascii.eqb_neq in Hne. rewrite Hne, (IH Hr). reflexivity.
Qed.

Lemma Index_first (pre post : string) (c : ascii) :
  free c pre -> strings.Index (pre ++ String c post) c = len pre.
Proof.
  induction pre as [|a r IH]; simpl; intros H.
  - rewrite Ascii.eqb_refl. reflexivity.
  - apply free_String in H. destruct H as [Hne Hr].
    apply Ascii.eqb_neq in Hne. rewrite Hne, (IH Hr), len_String.
    pose proof (len_nonneg r). destruct (Z.ltb_spec (len r) 0); lia.
Qed.

Lemma LastIndex_free (s : string) (c : ascii) : free c s -> strings.LastIndex s c = -1.
Proof.
  induction s as [|a r IH]; simpl; intros H; [reflexivity|].
  apply free_String in H. destruct H as [Hne Hr].
  apply Ascii.eqb_neq in Hne. rewrite Hne, (IH Hr). reflexivity.
Qed.

Lemma LastIndex_last (pre post : string) (c : ascii) :
  free c post -> strings.LastIndex (pre ++ String c post) c = len pre.
Proof.
  intros H. induction pre as [|a r IH]; simpl.
  - rewrite (LastIndex_free _ _ H), Ascii.eqb_refl. reflexivity.
  - rewrite IH, len_String. pose proof (len_nonneg r).
    destruct (Z.leb_spec 0 (len r)); lia.
Qed.

Lemma Split_free (s : string) (sep : ascii) : free sep s -> strings.Split s sep = [s].
Proof.
  induction s as [|a r IH]; simpl; intros H; [reflexivity|].
  apply free_String in H. destruct H as [Hne Hr].
  apply Ascii.eqb_neq in Hne. rewrite Hne, (IH Hr). reflexivity.
Qed.

Lemma Split_first (pre post : string) (sep : ascii) :
  free sep pre ->
  strings.Split (pre ++ String sep post) sep = pre :: strings.Split post sep.
Proof.
  induction pre as [|a r IH]; simpl; intros H.
  - rewrite Ascii.eqb_refl. reflexivity.
  - apply free_String in H. destruct H as [Hne Hr].
    apply Ascii.eqb_neq in Hne. rewrite Hne, (IH Hr). reflexivity.
Qed.

Lemma IndexAny_first (pre post chars : string) (c : ascii) :
  freeOf chars pre -> strings.byteIn c chars = true ->
  strings.IndexAny (pre ++ String c post) chars = len pre.
Proof.
  intros H Hc. induction pre as [|a r IH]; simpl.
  - rewrite Hc. reflexivity.
  - apply freeOf_String in H. destruct H as [Ha Hr].
    rewrite Ha, (IH Hr), len_String. pose proof (len_nonneg r).
    destruct (Z.ltb_spec (len r) 0); lia.
Qed.



Lemma operatorChar_in (op : Operator) : strings.byteIn (operatorChar op) operators = true.
Proof. destruct op; reflexivity. Qed.

(* ================================================================== *)
(** * The lexer, argument by argument *)

(** The argument splits at its first operator byte. *)
Lemma lexArgument_operator (tokens : list Token) (raw pre post : string) (op : Operator) :
  strings.TrimSpace raw = (pre ++ String (operatorChar op) post)%string ->
  quoted (strings.TrimSpace raw) = false ->
  freeOf operators pre ->
  lexArgument tokens raw
  = Ok (tokens ++ [mkToken TokenInt (strings.TrimSpace pre); operatorToken op;
                   mkToken TokenInt (strings.TrimSpace post)]).
Proof.
  intros Harg Hq Hfree. unfold lexArgument. unfold quoted in Hq. rewrite Hq.
  unfold strings.ContainsAny. rewrite Harg.
  rewrite (IndexAny_first pre post operators _ Hfree (operatorChar_in op)).
  replace (0 <=? len pre) with true by (symmetry; apply Z.leb_le, len_nonneg).
  rewrite slice_prefix. cbn [bind].
  change (pre ++ String (operatorChar op) post)%string
    with (pre ++ String (operatorChar op) "" ++ post)%string.
  replace (len pre + 1) with (len pre + len (String (operatorChar op) "")) by reflexivity.
  rewrite slice_middle. cbn [bind].
  replace (len pre + len (String (operatorChar op) ""))
    with (len (pre ++ String (operatorChar op) "")) by (rewrite len_app; reflexivity).
  rewrite <- (append_assoc pre (String (operatorChar op) "") post).
  rewrite slice_suffix. cbn [bind].
  assert (Hop : strings.TrimSpace (String (operatorChar op) "") = String (operatorChar op) "")
    by (destruct op; reflexivity).
  rewrite Hop.
  destruct op; cbn [operatorChar String.eqb Ascii.eqb Bool.eqb]; rewrite <- !app_assoc;
    reflexivity.
Qed.



(** The statement of the specification. *)
Example Lex_first_operator_only :
  Lex "console.log(1+2*3);"
  = Ok [mkToken TokenConsole "console"; mkToken TokenLog "log";
        mkToken TokenInt "1"; mkToken TokenPlus "+"; mkToken TokenInt "2*3"].
Proof. vm_compute. reflexivity. Qed.

(* ================================================================== *)
(** * The lexer, statement by statement *)

Lemma nonempty_eqb (s : string) : s <> "" -> String.eqb s "" = false.
Proof. intros H. apply String.eqb_neq, H. Qed.

(** A statement [head(inner)tail]: the words of [head], then the
    arguments of [inner]. *)
Lemma lexStatement_call (tokens : list Token) (segment head inner tail : string) :
  strings.TrimSpace segment = (head ++ String "(" (inner ++ String ")" tail))%string ->
  free "(" head ->
  free ")" tail ->
  lexStatement tokens segment
  = tokens' <- forRange lexWord tokens (strings.FieldsFunc head isSeparator) ;;
    forRange lexArgument tokens' (strings.Split inner ",").
Proof.
  intros Hstmt Hhead Htail. unfold lexStatement. rewrite Hstmt.
  rewrite nonempty_eqb by (destruct head; discriminate).
  rewrite (Index_first head _ "(" Hhead).
  change (head ++ String "(" (inner ++ String ")" tail))%string
    with (head ++ (String "(" inner ++ String ")" tail))%string.
  rewrite <- append_assoc.
  rewrite (LastIndex_last (head ++ String "(" inner) tail ")" Htail).
  rewrite append_assoc.
  rewrite slice_prefix. cbn [bind].
  rewrite <- append_assoc.
  change (String "(" inner) with ("(" ++ inner)%string.
  rewrite <- (append_assoc head "(" inner).
  replace (len head + 1) with (len (head ++ "(")) by (rewrite len_app; reflexivity).
  replace (len ((head ++ "(") ++ inner)) with (len (head ++ "(") + len inner)
    by (rewrite (len_app (head ++ "(") inner); reflexivity).
  rewrite append_assoc. rewrite slice_middle. cbn [bind]. reflexivity.
Qed.

(* ================================================================== *)
(** * Faults of the lexer *)

Lemma lexWord_ok (tokens : list Token) (word : string) :
  exists tokens', lexWord tokens word = Ok tokens'.
Proof.
  unfold lexWord. destruct (String.eqb word "console"); [eexists; reflexivity|].
  destruct (String.eqb word "log"); eexists; reflexivity.
Qed.

Lemma bind_panic {A B : Type} (r : result A) (k : A -> result B) (q : panic) :
  bind r k = Panic q -> r = Panic q \/ exists a, r = Ok a /\ k a = Panic q.
Proof. destruct r as [a|p]; simpl; intros H; [right; eauto | left; congruence]. Qed.

(** The lexer can only panic in a slice expression. *)
Lemma lexArgument_panic (tokens : list Token) (arg : string) (q : panic) :
  lexArgument tokens arg = Panic q -> q = SliceBoundsOutOfRange.
Proof.
  unfold lexArgument.
  destruct (strings.HasPrefix _ dquote && strings.HasSuffix _ dquote).
  - intros H. apply bind_panic in H. destruct H as [H|[a [_ H]]]; [|discriminate].
    eapply slice_panic, H.
  - destruct (strings.ContainsAny _ operators); [|discriminate].
    intros H.
    repeat (apply bind_panic in H;
            destruct H as [H|[? [_ H]]]; [eapply slice_panic, H|]).
    discriminate.
Qed.

Lemma lexStatement_panic (tokens : list Token) (stmt : string) (q : panic) :
  lexStatement tokens stmt = Panic q -> q = SliceBoundsOutOfRange.
Proof.
  unfold lexStatement. destruct (String.eqb _ ""); [discriminate|].
  intros H.
  apply bind_panic in H. destruct H as [H|[head [_ H]]]; [eapply slice_panic, H|].
  apply bind_panic in H. destruct H as [H|[inner [_ H]]]; [eapply slice_panic, H|].
  apply bind_panic in H. destruct H as [H|[tokens' [_ H]]].
  - eapply (forRange_only lexWord); [|exact H].
    intros st y q' Hq'. destruct (lexWord_ok st y) as [t Ht]. congruence.
  - eapply (forRange_only lexArgument); [|exact H].
    intros st y q'. apply lexArgument_panic.
Qed.

(** A panic in a statement is a panic of [Lex]. *)
Lemma Lex_panics (input stmt : string) :
  In stmt (strings.Split input ";") ->
  (forall tokens, lexStatement tokens stmt = Panic SliceBoundsOutOfRange) ->
  Lex input = Panic SliceBoundsOutOfRange.
Proof.
  intros Hin Hstmt. unfold Lex.
  apply (forRange_panics lexStatement SliceBoundsOutOfRange _ stmt Hin Hstmt).
  intros st y q. apply lexStatement_panic.
Qed.

Lemma lexStatement_no_paren (tokens : list Token) (segment : string) :
  strings.TrimSpace segment <> "" ->
  free "(" (strings.TrimSpace segment) \/ free ")" (strings.TrimSpace segment) ->
  lexStatement tokens segment = Panic SliceBoundsOutOfRange.
Proof.
  intros Hne Hfree. unfold lexStatement. rewrite (nonempty_eqb _ Hne).
  destruct Hfree as [Hopen|Hclose].
  - rewrite (Index_free _ _ Hopen). reflexivity.
  - rewrite (LastIndex_free _ _ Hclose).
    destruct (slice _ 0 _) as [head|p] eqn:Eh; cbn [bind].
    + rewrite slice_backwards; [reflexivity|].
      pose proof (Index_lower (strings.TrimSpace segment) "("). lia.
    + f_equal. eapply slice_panic, Eh.
Qed.

(** C9. A statement segment that is not empty once trimmed and has no
    opening parenthesis, or no closing one, makes the lexer panic in a
    slice expression, out of bounds: [Lex] returns no tokens. *)
Theorem missing_parenthesis_faults (input segment : string) :
  In segment (strings.Split input ";") ->
  strings.TrimSpace segment <> "" ->
  free "(" (strings.TrimSpace segment) \/ free ")" (strings.TrimSpace segment) ->
  Lex input = Panic SliceBoundsOutOfRange.
Proof.
  intros Hin Hne Hfree. apply (Lex_panics input segment Hin).
  intros tokens. apply lexStatement_no_paren; assumption.
Qed.

Lemma missing_parenthesis_faults_witness :
  Lex "console.log(1); console.log 2" = Panic SliceBoundsOutOfRange.
Proof.
  apply (missing_parenthesis_faults "console.log(1); console.log 2" " console.log 2").
  - simpl. tauto.
  - vm_compute. discriminate.
  - left. vm_compute. intuition discriminate.
Defined.

Example Lex_missing_parenthesis :
  Lex "console.log 1" = Panic SliceBoundsOutOfRange
  /\ Lex "console.log(1" = Panic SliceBoundsOutOfRange
  /\ Lex "console.log 1)" = Panic SliceBoundsOutOfRange.
Proof. repeat split; vm_compute; reflexivity. Qed.

Lemma lexArgument_lone_quote (tokens : list Token) (raw : string) :
  strings.TrimSpace raw = dquote ->
  lexArgument tokens raw = Panic SliceBoundsOutOfRange.
Proof. intros H. unfold lexArgument. rewrite H. reflexivity. Qed.

Lemma forRange_lexWord_ok (words : list string) (tokens : list Token) :
  exists tokens', forRange lexWord tokens words = Ok tokens'.
Proof.
  revert tokens. induction words as [|w words IH]; intros tokens; simpl.
  - eexists; reflexivity.
  - destruct (lexWord_ok tokens w) as [t ->]. simpl. apply IH.
Qed.

(** C10. An argument that is exactly the one byte of a double quote both
    starts and ends with a quote; the slice of its interior, from 1 to 0,
    is out of bounds, and [Lex] panics on a text with such an argument
    instead of returning tokens. *)
Theorem lone_quote_faults (input segment head inner tail raw : string) :
  In segment (strings.Split input ";") ->
  strings.TrimSpace segment = (head ++ String "(" (inner ++ String ")" tail))%string ->
  free "(" head ->
  free ")" tail ->
  In raw (strings.Split inner ",") ->
  strings.TrimSpace raw = dquote ->
  Lex input = Panic SliceBoundsOutOfRange.
Proof.
  intros Hin Hstmt Hhead Htail Hraw Hq. apply (Lex_panics input segment Hin).
  intros tokens. rewrite (lexStatement_call tokens segment head inner tail Hstmt Hhead Htail).
  destruct (forRange_lexWord_ok (strings.FieldsFunc head isSeparator) tokens) as [t ->].
  cbn [bind].
  apply (forRange_panics lexArgument SliceBoundsOutOfRange _ raw Hraw).
  - intros st. apply lexArgument_lone_quote, Hq.
  - intros st y q. apply lexArgument_panic.
Qed.

Lemma lone_quote_faults_witness :
  Lex ("console.log(" ++ dquote ++ ");")%string = Panic SliceBoundsOutOfRange.
Proof.
  apply (lone_quote_faults ("console.log(" ++ dquote ++ ");")%string
           ("console.log(" ++ dquote ++ ")")%string "console.log" dquote "" dquote).
  - simpl. tauto.
  - reflexivity.
  - vm_compute. intuition discriminate.
  - intros [].
  - simpl. tauto.
  - reflexivity.
Defined.

(* ================================================================== *)
(** * The parser *)

Lemma index_Some (tokens : list Token) (i : nat) (t : Token) :
  nth_error tokens i = Some t -> index tokens i = Ok t.
Proof. unfold index. intros ->. reflexivity. Qed.

Lemma operatorType_not_String_Int (op : Operator) :
  String.eqb (operatorType op) TokenString = false
  /\ String.eqb (operatorType op) TokenInt = false.
Proof. destruct op; split; reflexivity. Qed.

(** An Int token, an operator token and an Int token become one BinaryOp
    node; the cursor skips the two tokens after the first. *)
Lemma parseArgument_binary (tokens : list Token) (i : nat) (args : list Node)
  (t t1 t2 : Token) (op : Operator) :
  nth_error tokens i = Some t ->
  nth_error tokens (i + 1) = Some t1 ->
  nth_error tokens (i + 2) = Some t2 ->
  Type_ t = TokenInt -> Type_ t1 = operatorType op -> Type_ t2 = TokenInt ->
  parseArgument tokens i args
  = Ok (args ++ [BinaryOp op (IntNode (Literal t)) (IntNode (Literal t2))], (i + 2)%nat).
Proof.
  intros H0 H1 H2 E0 E1 E2. unfold parseArgument.
  rewrite (index_Some _ _ _ H0), (index_Some _ _ _ H1), (index_Some _ _ _ H2).
  cbn [bind]. rewrite E0, E1, E2. cbn [String.eqb TokenInt TokenString Ascii.eqb Bool.eqb].
  replace (i + 2 <? List.length tokens)%nat with true.
  2:{ symmetry. apply Nat.ltb_lt. apply nth_error_Some. congruence. }
  destruct op; reflexivity.
Qed.

Lemma index_guarded (tokens : list Token) (i : nat) :
  (i <? List.length tokens)%nat = true -> exists t, index tokens i = Ok t.
Proof.
  intros H. apply Nat.ltb_lt in H. unfold index.
  destruct (nth_error tokens i) as [t|] eqn:E; [eexists; reflexivity|].
  apply nth_error_None in E. lia.
Qed.

(** An Int token without an Int token two places further becomes a bare
    IntLiteral node. *)
Lemma parseArgument_bare (tokens : list Token) (i : nat) (args : list Node) (t : Token) :
  nth_error tokens i = Some t ->
  Type_ t = TokenInt ->
  (forall t2, nth_error tokens (i + 2) = Some t2 -> Type_ t2 <> TokenInt) ->
  parseArgument tokens i args = Ok (args ++ [IntNode (Literal t)], i).
Proof.
  intros H0 E0 H2. unfold parseArgument.
  rewrite (index_Some _ _ _ H0). cbn [bind]. rewrite E0.
  cbn [String.eqb TokenInt TokenString Ascii.eqb Bool.eqb].
  destruct (i + 2 <? List.length tokens)%nat eqn:G; [|reflexivity].
  destruct (index_guarded _ _ G) as [t2 E2]. rewrite E2. cbn [bind].
  assert (Hn : nth_error tokens (i + 2) = Some t2).
  { unfold index in E2. destruct (nth_error tokens (i + 2)); congruence. }
  specialize (H2 t2 Hn). apply String.eqb_neq in H2. rewrite H2. reflexivity.
Qed.

(** Two Int tokens around a token that is no operator: all three are
    passed over and no node is made. *)
Lemma parseArgument_dropped (tokens : list Token) (i : nat) (args : list Node)
  (t t1 t2 : Token) :
  nth_error tokens i = Some t ->
  nth_error tokens (i + 1) = Some t1 ->
  nth_error tokens (i + 2) = Some t2 ->
  Type_ t = TokenInt -> Type_ t2 = TokenInt ->
  (forall op, Type_ t1 <> operatorType op) ->
  parseArgument tokens i args = Ok (args, (i + 2)%nat).
Proof.
  intros H0 H1 H2 E0 E2 Hop. unfold parseArgument.
  rewrite (index_Some _ _ _ H0), (index_Some _ _ _ H1), (index_Some _ _ _ H2).
  cbn [bind]. rewrite E0, E2. cbn [String.eqb TokenInt TokenString Ascii.eqb Bool.eqb].
  replace (i + 2 <? List.length tokens)%nat with true.
  2:{ symmetry. apply Nat.ltb_lt. apply nth_error_Some. congruence. }
  pose proof (Hop Add) as HA. pose proof (Hop Sub) as HS. pose proof (Hop Mul) as HM.
  pose proof (Hop Div) as HD. pose proof (Hop Mod) as HR. pose proof (Hop Pow) as HP.
  apply String.eqb_neq in HA, HS, HM, HD, HR, HP. cbn [operatorType] in *.
  rewrite HA, HS, HM, HD, HR, HP. reflexivity.
Qed.

(** Within the tokens, the body of the inner loop never panics, and it
    leaves the cursor in place or two tokens further, still within. *)
Lemma parseArgument_ok (tokens : list Token) (i : nat) (args : list Node) :
  (i < List.length tokens)%nat ->
  exists args' i', parseArgument tokens i args = Ok (args', i')
                   /\ (i <= i' < List.length tokens)%nat.
Proof.
  intros Hi. unfold parseArgument.
  assert (G : (i <? List.length tokens)%nat = true) by (apply Nat.ltb_lt, Hi).
  destruct (index_guarded _ _ G) as [t ->]. cbn [bind].
  destruct (String.eqb (Type_ t) TokenString); [do 2 eexists; split; [reflexivity | lia]|].
  destruct (String.eqb (Type_ t) TokenInt); [|do 2 eexists; split; [reflexivity | lia]].
  destruct (i + 2 <? List.length tokens)%nat eqn:G2;
    [|do 2 eexists; split; [reflexivity | lia]].
  destruct (index_guarded _ _ G2) as [t2 ->]. cbn [bind].
  destruct (String.eqb (Type_ t2) TokenInt); [|do 2 eexists; split; [reflexivity | lia]].
  assert (G1 : (i + 1 <? List.length tokens)%nat = true).
  { apply Nat.ltb_lt. apply Nat.ltb_lt in G2. lia. }
  destruct (index_guarded _ _ G1) as [t1 ->]. cbn [bind].
  apply Nat.ltb_lt in G2. do 2 eexists; split; [reflexivity | lia].
Qed.

(** The inner loop never panics and never runs out of turns: with at least
    [len(tokens) - i] turns allowed the result does not depend on the
    allowance, and the cursor only moves forward. *)
Lemma parseArguments_total (tokens : list Token) (fuel : nat) :
  forall (i : nat) (args : list Node),
    (List.length tokens - i <= fuel)%nat ->
    exists args' i',
      (i <= i')%nat
      /\ forall fuel', (List.length tokens - i <= fuel')%nat ->
                       parseArguments fuel' tokens i args = Ok (args', i').
Proof.
  induction fuel as [|fuel IH]; intros i args Hf.
  - exists args, i. split; [lia|]. intros fuel' _.
    destruct fuel'; cbn [parseArguments]; [reflexivity|].
    replace (i <? List.length tokens)%nat with false; [reflexivity|].
    symmetry. apply Nat.ltb_ge. lia.
  - destruct (i <? List.length tokens)%nat eqn:G.
    + destruct (index_guarded _ _ G) as [t Et].
      destruct (negb (String.eqb (Type_ t) TokenConsole)) eqn:Ec.
      * apply Nat.ltb_lt in G.
        destruct (parseArgument_ok tokens i args G) as [args1 [i1 [E1 Hi1]]].
        destruct (IH (i1 + 1)%nat args1) as [args' [i' [Hle Hall]]]; [lia|].
        exists args', i'. split; [lia|]. intros fuel' Hf'.
        destruct fuel' as [|fuel']; [lia|]. cbn [parseArguments].
        replace (i <? List.length tokens)%nat with true by (symmetry; apply Nat.ltb_lt, G).
        rewrite Et. cbn [bind]. rewrite Ec, E1. cbn [bind].
        apply Hall. lia.
      * exists args, i. split; [lia|]. intros fuel' Hf'.
        destruct fuel' as [|fuel']; [reflexivity|]. cbn [parseArguments].
        rewrite G, Et. cbn [bind]. rewrite Ec. reflexivity.
    + exists args, i. split; [lia|]. intros fuel' _.
      destruct fuel'; cbn [parseArguments]; [reflexivity|]. rewrite G. reflexivity.
Qed.

(** The outer loop never runs out of turns either: [Parse] is what the
    loops compute however many turns above [len(tokens) - i] they are
    allowed. *)
Lemma parseStatements_total (tokens : list Token) (fuel : nat) :
  forall (i : nat) (nodes : list Node),
    (List.length tokens - i <= fuel)%nat ->
    forall fuel', (List.length tokens - i <= fuel')%nat ->
                  parseStatements fuel' tokens i nodes = parseStatements fuel tokens i nodes.
Proof.
  induction fuel as [|fuel IH]; intros i nodes Hf fuel' Hf'.
  - destruct fuel'; cbn [parseStatements]; [reflexivity|].
    replace (i <? List.length tokens)%nat with false; [reflexivity|].
    symmetry. apply Nat.ltb_ge. lia.
  - destruct fuel' as [|fuel'].
    + cbn [parseStatements].
      replace (i <? List.length tokens)%nat with false; [reflexivity|].
      symmetry. apply Nat.ltb_ge. lia.
    + cbn [parseStatements]. destruct (i <? List.length tokens)%nat eqn:G; [|reflexivity].
      destruct (index tokens i) as [t|p]; cbn [bind]; [|reflexivity].
      destruct (String.eqb (Type_ t) TokenConsole); [|reflexivity].
      destruct (index tokens (i + 1)) as [t1|p]; cbn [bind]; [|reflexivity].
      destruct (String.eqb (Type_ t1) TokenLog); [|reflexivity].
      destruct (parseArguments_total tokens (List.length tokens) (i + 2) [])
        as [args [i' [Hle Hall]]]; [lia|].
      rewrite (Hall (List.length tokens)) by lia. cbn [bind].
      apply Nat.ltb_lt in G. rewrite (IH i' (nodes ++ [ConsoleLogNode args])) by lia.
      reflexivity.
Qed.

Lemma Parse_total (tokens : list Token) (fuel : nat) :
  (List.length tokens <= fuel)%nat ->
  parseStatements fuel tokens 0 [] = Parse tokens.
Proof.
  intros H. unfold Parse. apply (parseStatements_total tokens (List.length tokens)); lia.
Qed.

(** A statement must start with Console and Log: otherwise the parser
    panics with its own message. *)
Lemma Parse_not_Console (t : Token) (tokens : list Token) :
  Type_ t <> TokenConsole -> Parse (t :: tokens) = Panic InvalidSyntax.
Proof.
  intros H. apply String.eqb_neq in H. unfold Parse. cbn. rewrite H. reflexivity.
Qed.

Lemma Parse_Console_not_Log (t t1 : Token) (tokens : list Token) :
  Type_ t = TokenConsole -> Type_ t1 <> TokenLog ->
  Parse (t :: t1 :: tokens) = Panic InvalidSyntax.
Proof.
  intros H0 H1. apply String.eqb_neq in H1. unfold Parse. cbn. rewrite H0, H1. reflexivity.
Qed.

(** C1. The claim fails on the code at three Int tokens in a row, which
    the lexer emits for [console.log(1,2,3);]: the token two places after
    the first is an Int, the token in between is no operator, the switch
    has no case for it, and the parser passes over all three tokens without
    a node. The statement prints an empty line. *)
Theorem Int_tokens_dropped :
  let tokens := [mkToken TokenConsole "console"; mkToken TokenLog "log";
                 mkToken TokenInt "1"; mkToken TokenInt "2"; mkToken TokenInt "3"] in
  Lex "console.log(1,2,3);" = Ok tokens
  /\ parseArgument tokens 2 [] = Ok ([], 4%nat)
  /\ Parse tokens = Ok [ConsoleLogNode []]
  /\ Interpret "console.log(1,2,3);" = ([""], None).
Proof. repeat split; vm_compute; reflexivity. Qed.

(** C5. The claim fails on the code in two ways. A Console token between
    two Int tokens is passed over as if it were an operator, so that
    [console.log(1); console(2);], whose second Console is followed by no
    Log, parses without failure; and a Console token at the very end makes
    [tokens[i+1]] an index out of range, a runtime fault and not the
    parser's own panic. *)
Theorem Console_without_Log_not_refused :
  let tokens := [mkToken TokenConsole "console"; mkToken TokenLog "log";
                 mkToken TokenInt "1"; mkToken TokenConsole "console";
                 mkToken TokenInt "2"] in
  Lex "console.log(1); console(2);" = Ok tokens
  /\ Parse tokens = Ok [ConsoleLogNode []]
  /\ Interpret "console.log(1); console(2);" = ([""], None)
  /\ Parse [mkToken TokenConsole "console"] = Panic IndexOutOfRange.
Proof. repeat split; vm_compute; reflexivity. Qed.

(* ================================================================== *)
(** * Integers and literals *)

Lemma wrap64_small (z : Z) : MinInt64 <= z <= MaxInt64 -> wrap64 z = z.
Proof.
  unfold MinInt64, MaxInt64, wrap64. intros H.
  rewrite Z.mod_small; lia.
Qed.

Lemma isDigit_byte (c : ascii) : strconv.isDigit c = true -> 0 <= byte c - 48 <= 9.
Proof. unfold strconv.isDigit. rewrite andb_true_iff, !Z.leb_le. lia. Qed.

Lemma allDigits_String (c : ascii) (s : string) :
  allDigits (String c s) = true <-> strconv.isDigit c = true /\ allDigits s = true.
Proof. unfold allDigits. simpl. apply andb_true_iff. Qed.

Lemma valueFrom_lower (s : string) :
  allDigits s = true -> forall n, 0 <= n -> n <= valueFrom s n.
Proof.
  induction s as [|c s IH]; intros Hd n Hn; [simpl; lia|].
  apply allDigits_String in Hd. destruct Hd as [Hc Hs].
  apply isDigit_byte in Hc. cbn [valueFrom].
  specialize (IH Hs (10 * n + (byte c - 48)) ltac:(lia)). lia.
Qed.

Lemma value_bounds (s : string) : literal s -> 0 <= value s <= MaxInt64.
Proof.
  intros [_ [Hd Hl]]. split; [|exact Hl].
  apply (valueFrom_lower s Hd 0). lia.
Qed.

Lemma atoiLoop_digits (s : string) (n : Z) :
  allDigits s = true -> strconv.atoiLoop s n = (valueFrom s n, None).
Proof.
  revert n. induction s as [|c s IH]; intros n Hd; [reflexivity|].
  apply allDigits_String in Hd. destruct Hd as [Hc Hs].
  cbn [strconv.atoiLoop valueFrom]. rewrite Hc.
  rewrite (IH _ Hs). f_equal. f_equal. lia.
Qed.

(** The digits of a number that 64 bits can hold pass the overflow tests
    of [ParseUint]. *)
Lemma parseUintLoop_digits (s : string) :
  allDigits s = true ->
  forall n, 0 <= n -> valueFrom s n <= strconv.maxUint64 ->
    strconv.parseUintLoop s n = (valueFrom s n, None).
Proof.
  induction s as [|c s IH]; intros Hd n Hn Hv; [reflexivity|].
  apply allDigits_String in Hd. destruct Hd as [Hc Hs].
  pose proof (isDigit_byte c Hc) as Hb.
  cbn [strconv.parseUintLoop valueFrom] in *. rewrite Hc.
  pose proof (valueFrom_lower s Hs (10 * n + (byte c - 48)) ltac:(lia)) as Hlow.
  change (strconv.maxUint64 / 10 + 1) with 1844674407370955162.
  change strconv.maxUint64 with 18446744073709551615 in *.
  replace (1844674407370955162 <=? n) with false by (symmetry; apply Z.leb_gt; lia).
  replace (n * 10 + (byte c - 48)) with (10 * n + (byte c - 48)) by lia.
  replace (18446744073709551615 <? 10 * n + (byte c - 48)) with false
    by (symmetry; apply Z.ltb_ge; lia).
  apply IH; [exact Hs | lia | exact Hv].
Qed.

Lemma digit_not_sign (c : ascii) :
  strconv.isDigit c = true -> Ascii.eqb c "-" = false /\ Ascii.eqb c "+" = false.
Proof.
  intros H. split; apply Ascii.eqb_neq; intros ->; discriminate.
Qed.

(** [Atoi] converts a literal exactly and without error, on the fast path
    as on the slow one. *)
Lemma Atoi_literal (s : string) : literal s -> strconv.Atoi s = (value s, None).
Proof.
  intros [Hne [Hd Hl]]. unfold strconv.Atoi.
  destruct s as [|c r]; [congruence|].
  pose proof Hd as Hd'. apply allDigits_String in Hd'. destruct Hd' as [Hc _].
  destruct (digit_not_sign c Hc) as [Hm Hp].
  destruct ((0 <? len (String c r)) && (len (String c r) <? 19)).
  - rewrite Hm, Hp. cbn [orb andb].
    rewrite (atoiLoop_digits _ 0 Hd). reflexivity.
  - unfold strconv.ParseInt, strconv.ParseUint. rewrite Hm, Hp. cbn [orb].
    assert (Hmax : MaxInt64 = 9223372036854775807) by reflexivity.
    rewrite (parseUintLoop_digits _ Hd 0 ltac:(lia))
      by (change strconv.maxUint64 with 18446744073709551615;
          unfold value in Hl; lia).
    change (2 ^ 63) with 9223372036854775808. cbn [negb andb].
    replace (9223372036854775808 <=? valueFrom (String c r) 0) with false
      by (symmetry; apply Z.leb_gt; unfold value in Hl; lia).
    reflexivity.
Qed.

Lemma operand_literal (s : string) : literal s -> operand s = value s.
Proof. intros H. unfold operand. rewrite (Atoi_literal s H). reflexivity. Qed.

(* ================================================================== *)
(** * binary64: the numbers that are exact *)

Lemma digits2_pos_size (p : positive) : digits2_pos p = Pos.size p.
Proof. induction p as [p IH|p IH|]; simpl; [rewrite IH .. |]; reflexivity. Qed.

Lemma Zdigits2_log2 (p : positive) : Z.pos (digits2_pos p) = Z.log2 (Z.pos p) + 1.
Proof.
  rewrite digits2_pos_size. destruct p as [p|p|]; simpl; try reflexivity;
    rewrite Pos2Z.inj_succ; lia.
Qed.

Lemma normal_digits (q : positive) :
  normal q -> Z.pos (digits2_pos q) = 53.
Proof.
  intros [H1 H2]. rewrite Zdigits2_log2.
  rewrite (Z.log2_unique (Z.pos q) 52); [reflexivity | lia | split; assumption].
Qed.

Lemma shr_1_even (k : Z) :
  0 < k ->
  shr_1 {| shr_m := 2 * k; shr_r := false; shr_s := false |}
  = {| shr_m := k; shr_r := false; shr_s := false |}.
Proof. destruct k as [|p|p]; intros H; [lia | reflexivity | lia]. Qed.

Lemma pow2_xO (n : positive) : 2 ^ Z.pos n~0 = 2 ^ Z.pos n * 2 ^ Z.pos n.
Proof. rewrite <- Z.pow_add_r by lia. f_equal. lia. Qed.

Lemma pow2_xI (n : positive) : 2 ^ Z.pos n~1 = 2 * (2 ^ Z.pos n * 2 ^ Z.pos n).
Proof.
  rewrite <- Z.pow_add_r by lia. rewrite <- Z.pow_succ_r by lia. f_equal. lia.
Qed.

(** Shifting out zeros is exact. *)
Lemma iter_shr_1_exact (n : positive) :
  forall k : Z, 0 < k ->
  iter_pos shr_1 n {| shr_m := k * 2 ^ Z.pos n; shr_r := false; shr_s := false |}
  = {| shr_m := k; shr_r := false; shr_s := false |}.
Proof.
  induction n as [n IH|n IH|]; intros k Hk; cbn [iter_pos].
  - assert (Hp : 0 < 2 ^ Z.pos n) by (apply Z.pow_pos_nonneg; lia).
    replace (k * 2 ^ Z.pos n~1) with (2 * ((k * 2 ^ Z.pos n) * 2 ^ Z.pos n))
      by (rewrite pow2_xI; ring).
    rewrite shr_1_even by nia. rewrite IH by nia. apply IH, Hk.
  - assert (Hp : 0 < 2 ^ Z.pos n) by (apply Z.pow_pos_nonneg; lia).
    replace (k * 2 ^ Z.pos n~0) with ((k * 2 ^ Z.pos n) * 2 ^ Z.pos n)
      by (rewrite pow2_xO; ring).
    rewrite IH by nia. apply IH, Hk.
  - replace (k * 2 ^ 1) with (2 * k) by lia. apply shr_1_even, Hk.
Qed.

Lemma fexp_normal (e : Z) : -1074 <= e -> fexp prec emax (53 + e) = e.
Proof. intros H. unfold fexp, SpecFloat.emin, prec, emax. lia. Qed.

(** A mantissa that is a normal one followed by zeros is rounded to the
    normal one, exactly. *)
Lemma binary_round_aux_exact (q : positive) (n e : Z) :
  normal q -> 0 <= n -> -1074 <= e + n <= 971 ->
  binary_round_aux prec emax false (Z.pos q * 2 ^ n) e loc_Exact
  = S754_finite false q (e + n).
Proof.
  intros Hq Hn He.
  assert (Hpow : 0 < 2 ^ n) by (apply Z.pow_pos_nonneg; lia).
  assert (Hd : Zdigits2 (Z.pos q * 2 ^ n) = 53 + n).
  { destruct (Z.pos q * 2 ^ n) as [|p|p] eqn:E; [lia | | lia].
    cbn [Zdigits2]. rewrite Zdigits2_log2, <- E.
    rewrite Z.log2_mul_pow2 by lia.
    pose proof (normal_digits q Hq) as H53. rewrite Zdigits2_log2 in H53. lia. }
  unfold binary_round_aux, shr_fexp. rewrite Hd.
  replace (53 + n + e) with (53 + (e + n)) by lia. rewrite fexp_normal by lia.
  replace (e + n - e) with n by lia.
  assert (Hshr : shr (shr_record_of_loc (Z.pos q * 2 ^ n) loc_Exact) e n
                 = ({| shr_m := Z.pos q; shr_r := false; shr_s := false |}, e + n)).
  { unfold shr. cbn [shr_record_of_loc]. destruct n as [|p|p]; [| |lia].
    - rewrite Z.pow_0_r, Z.mul_1_r, Z.add_0_r. reflexivity.
    - rewrite iter_shr_1_exact by lia. reflexivity. }
  rewrite Hshr. cbn [shr_m loc_of_shr_record round_nearest_even Zdigits2].
  rewrite (normal_digits q Hq), fexp_normal by lia.
  rewrite Z.sub_diag. cbn [shr shr_record_of_loc shr_m].
  replace (e + n <=? emax - prec) with true; [reflexivity|].
  symmetry. apply Z.leb_le. unfold emax, prec. lia.
Qed.

(** Every positive integer below 2^53 has its normal mantissa. *)
Lemma normal_exists (k : Z) :
  0 < k < 2 ^ 53 ->
  exists (q : positive) (j : Z), normal q /\ 0 <= j <= 52 /\ Z.pos q = k * 2 ^ j.
Proof.
  intros Hk.
  pose proof (Z.log2_spec k ltac:(lia)) as [Hlo Hhi].
  pose proof (Z.log2_nonneg k) as Hnn.
  assert (Hlt : Z.log2 k < 53).
  { apply Z.log2_lt_pow2; lia. }
  set (j := 52 - Z.log2 k).
  assert (Hpow : 0 < 2 ^ j) by (apply Z.pow_pos_nonneg; lia).
  exists (Z.to_pos (k * 2 ^ j)), j.
  rewrite Z2Pos.id by nia.
  split; [|split; [lia | reflexivity]].
  unfold normal. rewrite Z2Pos.id by nia.
  replace (2 ^ 52) with (2 ^ Z.log2 k * 2 ^ j)
    by (rewrite <- Z.pow_add_r by lia; f_equal; lia).
  replace (2 ^ 53) with (2 ^ Z.succ (Z.log2 k) * 2 ^ j)
    by (rewrite <- Z.pow_add_r by lia; f_equal; lia).
  split; nia.
Qed.

Lemma represents_pos (f : spec_float) (k s : Z) : represents f k s -> 0 < k.
Proof.
  intros [q [j [_ [_ [Hj Hq]]]]].
  assert (0 < 2 ^ j) by (apply Z.pow_pos_nonneg; lia). nia.
Qed.

(** The product of two exact numbers is exact when it has at most 53
    binary digits. *)
Lemma SFmul_exact (f g : spec_float) (k1 s1 k2 s2 : Z) :
  represents f k1 s1 -> represents g k2 s2 ->
  k1 * k2 < 2 ^ 53 -> -1000 <= s1 + s2 <= 900 ->
  represents (SFmul prec emax f g) (k1 * k2) (s1 + s2).
Proof.
  intros Hf Hg Hk Hs.
  pose proof (represents_pos f k1 s1 Hf) as P1.
  pose proof (represents_pos g k2 s2 Hg) as P2.
  destruct Hf as [q1 [j1 [-> [N1 [J1 Q1]]]]].
  destruct Hg as [q2 [j2 [-> [N2 [J2 Q2]]]]].
  destruct (normal_exists (k1 * k2) ltac:(nia)) as [q [j [N [J Q]]]].
  cbn [SFmul xorb].
  assert (Hp1 : 0 < 2 ^ j1) by (apply Z.pow_pos_nonneg; lia).
  assert (Hp2 : 0 < 2 ^ j2) by (apply Z.pow_pos_nonneg; lia).
  assert (Hp : 0 < 2 ^ j) by (apply Z.pow_pos_nonneg; lia).
  assert (Hn : j <= j1 + j2).
  { destruct (Z.le_gt_cases j (j1 + j2)) as [H|H]; [exact H|exfalso].
    assert (E : Z.pos q1 * Z.pos q2 * 2 ^ (j - (j1 + j2)) = Z.pos q).
    { rewrite Q1, Q2, Q.
      replace (2 ^ j) with (2 ^ (j1 + j2) * 2 ^ (j - (j1 + j2)))
        by (rewrite <- Z.pow_add_r by lia; f_equal; lia).
      rewrite Z.pow_add_r by lia. ring. }
    assert (0 < 2 ^ (j - (j1 + j2))) by (apply Z.pow_pos_nonneg; lia).
    destruct N1 as [L1 _]. destruct N2 as [L2 _]. destruct N as [_ U].
    assert (2 ^ 52 * 2 ^ 52 <= Z.pos q1 * Z.pos q2) by nia.
    assert (2 ^ 53 < 2 ^ 52 * 2 ^ 52) by reflexivity.
    nia. }
  assert (E : Z.pos (q1 * q2) = Z.pos q * 2 ^ (j1 + j2 - j)).
  { rewrite Pos2Z.inj_mul, Q1, Q2, Q.
    replace (k1 * 2 ^ j1 * (k2 * 2 ^ j2)) with (k1 * k2 * (2 ^ j1 * 2 ^ j2)) by ring.
    rewrite <- Z.pow_add_r by lia.
    replace (j1 + j2) with (j + (j1 + j2 - j)) at 1 by lia.
    rewrite Z.pow_add_r by lia. ring. }
  rewrite E, binary_round_aux_exact by (try assumption; lia).
  exists q, j. split; [f_equal; lia|]. split; [exact N|]. split; [lia | exact Q].
Qed.

Lemma binary_round_normal (q : positive) (e : Z) :
  normal q -> -1074 <= e <= 971 ->
  binary_round prec emax false q e = S754_finite false q e.
Proof.
  intros Hq He. unfold binary_round.
  rewrite (normal_digits q Hq), fexp_normal by lia.
  unfold shl_align. rewrite Z.sub_diag.
  replace (Z.pos q) with (Z.pos q * 2 ^ 0) by (rewrite Z.pow_0_r; lia).
  rewrite binary_round_aux_exact by (try assumption; lia).
  f_equal. lia.
Qed.

Lemma shl_align_spec (p : positive) (e e' : Z) :
  e' <= e ->
  exists m, shl_align p e e' = (m, e') /\ Z.pos m = Z.pos p * 2 ^ (e - e').
Proof.
  intros H. unfold shl_align. destruct (e' - e) as [|d|d] eqn:E; [| lia |].
  - exists p. replace e' with e by lia. rewrite Z.sub_diag, Z.pow_0_r. split; [reflexivity | lia].
  - exists (Pos.iter xO p d). split; [reflexivity|].
    change (Pos.iter xO p d) with (shift_pos d p). rewrite shift_pos_correct.
    replace (e - e') with (Z.pos d) by lia. rewrite Z.mul_comm. reflexivity.
Qed.

(** [float64(x)] is exact for a positive [x] below 2^53. *)
Lemma float64_of_int_exact (x : Z) :
  0 < x < 2 ^ 53 -> represents (Prim2SF (float64_of_int x)) x 0.
Proof.
  intros Hx. destruct (normal_exists x Hx) as [q [j [N [J Q]]]].
  assert (E : binary_normalize prec emax x 0 false = S754_finite false q (- j)).
  { destruct x as [|p|p]; [lia | | lia]. cbn [binary_normalize]. unfold binary_round.
    assert (Hd : Z.pos (digits2_pos p) = 53 - j).
    { pose proof (normal_digits q N) as H53. rewrite Zdigits2_log2 in H53 |- *.
      rewrite Q, Z.log2_mul_pow2 in H53 by lia. lia. }
    rewrite Hd.
    assert (Hf : fexp prec emax (53 - j + 0) = - j)
      by (unfold fexp, SpecFloat.emin, prec, emax; lia).
    rewrite Hf.
    destruct (shl_align_spec p 0 (- j) ltac:(lia)) as [m [-> Hm]].
    replace (0 - - j) with j in Hm by lia.
    assert (m = q) by (apply Pos2Z.inj; lia). subst m.
    replace (Z.pos q) with (Z.pos q * 2 ^ 0) by (rewrite Z.pow_0_r; lia).
    rewrite binary_round_aux_exact by (try assumption; lia).
    f_equal. lia. }
  unfold float64_of_int. rewrite E.
  rewrite Prim2SF_SF2Prim.
  - exists q, j. split; [reflexivity|]. split; [exact N|]. split; [lia | exact Q].
  - cbn [SpecFloat.valid_binary]. unfold bounded, canonical_mantissa.
    rewrite (normal_digits q N), fexp_normal by lia.
    rewrite Z.eqb_refl. cbn [andb]. apply Z.leb_le. unfold emax, prec. lia.
Qed.

(** [Frexp] of a normal number: the mantissa with the exponent -53. *)
Lemma Frexp_normal (f : float) (q : positive) (e : Z) :
  Prim2SF f = S754_finite false q e -> normal q ->
  exists m, math.Frexp f = (m, e + 53) /\ Prim2SF m = S754_finite false q (- 53).
Proof.
  intros Hf Hq. pose proof (Z_frexp_spec f) as H. unfold math.Frexp.
  destruct (Z.frexp f) as [m e']. rewrite Hf in H. cbn [SFfrexp] in H.
  rewrite (normal_digits q Hq) in H. change (prec <=? 53) with true in H. cbv iota in H.
  injection H as H1 H2. exists m. split; [f_equal; exact H2 | exact H1].
Qed.

Lemma Ldexp_normal (f : float) (q : positive) (e n : Z) :
  Prim2SF f = S754_finite false q e -> normal q -> -1074 <= e + n <= 971 ->
  Prim2SF (math.Ldexp f n) = S754_finite false q (e + n).
Proof.
  intros Hf Hq He. unfold math.Ldexp. rewrite Z_ldexp_spec, Hf. cbn [SFldexp].
  apply binary_round_normal; assumption.
Qed.

(** [f + f] only changes the exponent. *)
Lemma SFadd_double (q : positive) (e : Z) :
  normal q -> -1075 <= e <= 970 ->
  SFadd prec emax (S754_finite false q e) (S754_finite false q e)
  = S754_finite false q (e + 1).
Proof.
  intros Hq He. cbn [SFadd]. rewrite Z.min_id.
  unfold shl_align at 1 2. rewrite Z.sub_diag. cbn [fst cond_Zopp Z.add binary_normalize].
  unfold binary_round.
  assert (Hd : Z.pos (digits2_pos (q + q)) = 54).
  { rewrite Zdigits2_log2. replace (Z.pos (q + q)) with (Z.pos q * 2 ^ 1) by lia.
    rewrite Z.log2_mul_pow2 by lia.
    pose proof (normal_digits q Hq) as H53. rewrite Zdigits2_log2 in H53. lia. }
  rewrite Hd.
  assert (Hf : fexp prec emax (54 + e) = e + 1)
    by (unfold fexp, SpecFloat.emin, prec, emax; lia).
  rewrite Hf. unfold shl_align. replace (e + 1 - e) with 1 by lia. cbv iota.
  replace (Z.pos (q + q)) with (Z.pos q * 2 ^ 1) by lia.
  apply binary_round_aux_exact; [exact Hq | lia | lia].
Qed.

(** The integer part of an exact number. *)
Lemma truncate_exact (f : float) (k : Z) :
  represents (Prim2SF f) k 0 -> truncate f = Some k.
Proof.
  intros [q [j [Hf [_ [Hj Hq]]]]]. unfold truncate. rewrite Hf.
  assert (Hp : 0 < 2 ^ j) by (apply Z.pow_pos_nonneg; lia).
  destruct (Z.leb_spec 0 (0 - j)) as [H|H].
  - replace j with 0 in * by lia. rewrite Z.pow_0_r in *. f_equal. cbn. lia.
  - f_equal. replace (- (0 - j)) with j by lia. rewrite Hq. apply Z.div_mul. lia.
Qed.

Lemma int_of_float64_exact (f : float) (k : Z) :
  represents (Prim2SF f) k 0 -> k < 2 ^ 53 -> int_of_float64 f = k.
Proof.
  intros Hf Hk. pose proof (represents_pos _ _ _ Hf) as Hpos.
  unfold int_of_float64. rewrite (truncate_exact f k Hf).
  assert (Hmax : MaxInt64 = 9223372036854775807) by reflexivity.
  assert (Hmin : MinInt64 = -9223372036854775808) by reflexivity.
  assert (H53 : 2 ^ 53 = 9007199254740992) by reflexivity.
  replace (MinInt64 <=? k) with true by (symmetry; apply Z.leb_le; lia).
  replace (k <=? MaxInt64) with true by (symmetry; apply Z.leb_le; lia).
  reflexivity.
Qed.

Lemma mantissa_represents (f : float) (X xe : Z) :
  mantissa f X xe -> represents (Prim2SF f) X (- xe).
Proof.
  intros [q [j [Hf [N [J [Q E]]]]]]. exists q, j.
  split; [rewrite Hf; f_equal; lia|]. auto.
Qed.

Lemma mantissa_bounds (f : float) (X xe : Z) :
  mantissa f X xe -> 1 <= xe <= 53 /\ 2 ^ (xe - 1) <= X < 2 ^ xe.
Proof.
  intros [q [j [_ [[L U] [J [Q E]]]]]].
  assert (Hp : 0 < 2 ^ j) by (apply Z.pow_pos_nonneg; lia).
  assert (Hj : j <= 52).
  { destruct (Z.le_gt_cases j 52) as [H|H]; [exact H|exfalso].
    assert (2 ^ 53 <= 2 ^ j) by (apply Z.pow_le_mono_r; lia).
    assert (1 <= X) by nia. nia. }
  split; [lia|]. subst xe.
  replace (53 - j - 1) with (52 - j) by lia.
  assert (E52 : 2 ^ 52 = 2 ^ (52 - j) * 2 ^ j)
    by (rewrite <- Z.pow_add_r by lia; f_equal; lia).
  assert (E53 : 2 ^ 53 = 2 ^ (53 - j) * 2 ^ j)
    by (rewrite <- Z.pow_add_r by lia; f_equal; lia).
  split; nia.
Qed.

Lemma Prim2SF_half : Prim2SF 0.5 = S754_finite false 4503599627370496 (- 53).
Proof. vm_compute. reflexivity. Qed.

(** The squaring turn of the loop of [Pow], with its normalisation: it
    is exact as long as the square has at most 53 binary digits. *)
Lemma square_step (x1 : float) (X xe : Z) :
  mantissa x1 X xe -> X * X < 2 ^ 53 ->
  exists x1' xe',
    (if (x1 * x1 <? 0.5)%float
     then ((x1 * x1 + x1 * x1)%float, 2 * xe - 1)
     else ((x1 * x1)%float, 2 * xe)) = (x1', xe')
    /\ mantissa x1' (X * X) xe'.
Proof.
  intros Hm Hsq. pose proof (mantissa_bounds x1 X xe Hm) as [Hxe HX].
  pose proof (mantissa_represents x1 X xe Hm) as Hr.
  pose proof (SFmul_exact _ _ X (- xe) X (- xe) Hr Hr Hsq ltac:(lia)) as Hmul.
  rewrite <- mul_spec in Hmul.
  destruct Hmul as [q' [j' [Hf' [N' [J' Q']]]]].
  destruct Hm as [q [j [Hf [N [J [Q E]]]]]].
  (* the exponent of the square is -53 or -54 *)
  assert (Hcase : 2 * j - j' = 52 \/ 2 * j - j' = 53).
  { assert (Hq2 : Z.pos q * Z.pos q * 2 ^ j' = Z.pos q' * (2 ^ j * 2 ^ j))
      by (rewrite Q, Q'; ring).
    destruct N as [L U]. destruct N' as [L' U'].
    assert (Hp : 0 < 2 ^ j) by (apply Z.pow_pos_nonneg; lia).
    assert (Hp' : 0 < 2 ^ j') by (apply Z.pow_pos_nonneg; lia).
    rewrite <- Z.pow_add_r in Hq2 by lia.
    assert (H104 : 2 ^ 52 * 2 ^ 52 = 2 ^ 104) by reflexivity.
    assert (H106 : 2 ^ 53 * 2 ^ 53 = 2 ^ 106) by reflexivity.
    assert (Hlo : 2 ^ 104 <= Z.pos q * Z.pos q) by nia.
    assert (Hhi : Z.pos q * Z.pos q < 2 ^ 106) by nia.
    assert (A1 : 2 ^ (104 + j') < 2 ^ (53 + (j + j))).
    { rewrite !Z.pow_add_r by lia. nia. }
    assert (A2 : 2 ^ (52 + (j + j)) < 2 ^ (106 + j')).
    { rewrite !Z.pow_add_r by lia. nia. }
    apply Z.pow_lt_mono_r_iff in A1; [|lia|lia].
    apply Z.pow_lt_mono_r_iff in A2; [|lia|lia]. lia. }
  rewrite ltb_spec, Hf', Prim2SF_half. unfold SFltb. cbn [SFcompare].
  destruct Hcase as [Hc|Hc].
  - (* below one half: doubled *)
    replace (- xe + - xe - j') with (- 54) by lia. cbn [Z.compare].
    eexists _, _. split; [reflexivity|].
    exists q', j'. rewrite add_spec, Hf'.
    replace (- xe + - xe - j') with (- 54) by lia.
    unfold SF64add. rewrite (SFadd_double q' (- 54) N') by lia.
    repeat split; try assumption; try lia. apply N'. apply N'.
  - replace (- xe + - xe - j') with (- 53) by lia.
    change (- 53 ?= - 53) with Eq. cbv iota.
    rewrite Pos.compare_cont_spec. cbn [Pos.switch_Eq].
    destruct (Pos.compare_spec q' 4503599627370496) as [H|H|H].
    + eexists _, _. split; [reflexivity|]. exists q', j'.
      rewrite Hf'. replace (- xe + - xe - j') with (- 53) by lia.
      repeat split; try assumption; try lia; apply N'.
    + exfalso. destruct N' as [L' _]. change (2 ^ 52) with 4503599627370496 in L'.
      apply Pos2Z.pos_lt_pos in H. lia.
    + eexists _, _. split; [reflexivity|]. exists q', j'.
      rewrite Hf'. replace (- xe + - xe - j') with (- 53) by lia.
      repeat split; try assumption; try lia; apply N'.
Qed.

Lemma pow_ge_1 (X n : Z) : 1 <= X -> 0 <= n -> 1 <= X ^ n.
Proof. intros HX Hn. pose proof (Z.pow_pos_nonneg X n ltac:(lia) Hn). lia. Qed.

Lemma pow_ge_square (X : Z) (i : positive) : 2 <= X -> X * X <= X ^ Z.pos i~0.
Proof.
  intros HX. replace (Z.pos i~0) with (2 + (Z.pos i~0 - 2)) by lia.
  rewrite Z.pow_add_r by lia. rewrite Z.pow_2_r.
  assert (1 <= X ^ (Z.pos i~0 - 2)) by (apply pow_ge_1; lia).
  nia.
Qed.

Lemma exponent_step (A X ae xe : Z) :
  0 < A -> 2 <= X -> 1 <= xe -> 2 ^ (xe - 1) <= X -> 0 <= ae -> 2 ^ ae <= A * A ->
  2 ^ (ae + xe) <= A * X * (A * X).
Proof.
  intros HA HX Hxe HXe Hae H. rewrite Z.pow_add_r by lia.
  assert (2 ^ xe <= X * X).
  { replace xe with (1 + (xe - 1)) by lia. rewrite Z.pow_add_r, Z.pow_1_r by lia. nia. }
  assert (0 < 2 ^ ae) by (apply Z.pow_pos_nonneg; lia).
  assert (0 < 2 ^ xe) by (apply Z.pow_pos_nonneg; lia).
  replace (A * X * (A * X)) with ((A * A) * (X * X)) by ring.
  apply Z.mul_le_mono_nonneg; lia.
Qed.

(** The loop of [Pow] is exact as long as the power it computes has at
    most 53 binary digits: the answer [a1 * 2^ae] is [A] before and
    [A * X^i] after. *)
Lemma powLoop_exact (i : positive) :
  forall (a1 : float) (ae : Z) (x1 : float) (xe A X : Z),
    2 <= X -> A * X ^ Z.pos i < 2 ^ 53 ->
    represents (Prim2SF a1) A (- ae) -> 0 <= ae -> 2 ^ ae <= A * A ->
    mantissa x1 X xe ->
    exists a' ae',
      math.powLoop i a1 ae x1 xe = (a', ae')
      /\ represents (Prim2SF a') (A * X ^ Z.pos i) (- ae') /\ 0 <= ae' <= 106.
Proof.
  assert (Hae : forall ae A, 0 < A < 2 ^ 53 -> 0 <= ae -> 2 ^ ae <= A * A -> ae <= 106).
  { intros ae A HA H0 H. destruct (Z.le_gt_cases ae 106) as [Hle|Hgt]; [exact Hle|exfalso].
    assert (2 ^ 106 <= 2 ^ ae) by (apply Z.pow_le_mono_r; lia).
    assert (2 ^ 53 * 2 ^ 53 = 2 ^ 106) by reflexivity. nia. }
  induction i as [i IH|i IH|]; intros a1 ae x1 xe A X HX Hlt Ha Hae0 Hae2 Hm;
    pose proof (represents_pos _ _ _ Ha) as HA;
    pose proof (mantissa_bounds x1 X xe Hm) as [Hxe HXe];
    pose proof (mantissa_represents x1 X xe Hm) as Hx;
    cbn [math.powLoop];
    replace (xe <? - 4096) with false by (symmetry; apply Z.ltb_ge; lia);
    replace (4096 <? xe) with false by (symmetry; apply Z.ltb_ge; lia);
    cbn [orb].
  - (* i~1: multiply, square, go on *)
    assert (Epow : X ^ Z.pos i~1 = X * (X * X) ^ Z.pos i).
    { rewrite Pos2Z.inj_xI, Z.pow_add_r, Z.pow_mul_r, Z.pow_1_r, Z.pow_2_r by lia. ring. }
    rewrite Epow in Hlt |- *.
    assert (HXXi : 1 <= (X * X) ^ Z.pos i) by (apply pow_ge_1; nia).
    assert (HXX : X * X <= (X * X) ^ Z.pos i).
    { replace (Z.pos i) with (1 + (Z.pos i - 1)) by lia.
      rewrite Z.pow_add_r, Z.pow_1_r by lia.
      assert (1 <= (X * X) ^ (Z.pos i - 1)) by (apply pow_ge_1; nia).
      nia. }
    assert (HAX : A * X < 2 ^ 53) by nia.
    pose proof (Hae ae A ltac:(nia) Hae0 Hae2) as Hae106.
    pose proof (SFmul_exact _ _ A (- ae) X (- xe) Ha Hx HAX ltac:(lia)) as Hmul.
    rewrite <- mul_spec in Hmul.
    destruct (square_step x1 X xe Hm ltac:(nia)) as [x1' [xe' [-> Hm']]].
    replace (A * (X * (X * X) ^ Z.pos i)) with ((A * X) * (X * X) ^ Z.pos i) in * by ring.
    cbv beta iota.
    apply (IH _ (ae + xe) x1' xe' (A * X) (X * X)); try assumption; try nia.
    + replace (- (ae + xe)) with (- ae + - xe) by lia. exact Hmul.
    + apply exponent_step; lia.
  - (* i~0: square, go on *)
    assert (Epow : X ^ Z.pos i~0 = (X * X) ^ Z.pos i).
    { rewrite Pos2Z.inj_xO, Z.pow_mul_r, Z.pow_2_r by lia. reflexivity. }
    pose proof (pow_ge_square X i HX) as Hsq.
    destruct (square_step x1 X xe Hm ltac:(nia)) as [x1' [xe' [-> Hm']]].
    rewrite Epow in *. cbv beta iota.
    apply (IH _ ae x1' xe' A (X * X)); try assumption; nia.
  - (* 1: multiply, and the loop ends *)
    rewrite Z.pow_1_r in *.
    pose proof (Hae ae A ltac:(nia) Hae0 Hae2) as Hae106.
    pose proof (SFmul_exact _ _ A (- ae) X (- xe) Ha Hx Hlt ltac:(lia)) as Hmul.
    rewrite <- mul_spec in Hmul.
    exists (a1 * x1)%float, (ae + xe).
    split; [destruct (x1 * x1 <? 0.5)%float; reflexivity|].
    split; [replace (- (ae + xe)) with (- ae + - xe) by lia; exact Hmul|].
    split; [lia|]. apply (Hae _ (A * X)); [nia | lia | apply exponent_step; lia].
Qed.

Lemma represents_exponent (f : spec_float) (k s : Z) :
  represents f k s ->
  exists (q : positive) (j : Z),
    f = S754_finite false q (s - j) /\ normal q /\ 0 <= j <= 52 /\ Z.pos q = k * 2 ^ j
    /\ (2 <= k -> j <= 51).
Proof.
  intros H. pose proof (represents_pos f k s H) as Hk.
  destruct H as [q [j [Hf [[L U] [J Q]]]]]. exists q, j.
  assert (Hp : 0 < 2 ^ j) by (apply Z.pow_pos_nonneg; lia).
  assert (H52 : j <= 52).
  { destruct (Z.le_gt_cases j 52) as [H|H]; [exact H|exfalso].
    assert (2 ^ 53 <= 2 ^ j) by (apply Z.pow_le_mono_r; lia). nia. }
  repeat split; try assumption; try lia.
  intros H2. destruct (Z.le_gt_cases j 51) as [H|H]; [exact H|exfalso].
  assert (2 ^ 52 <= 2 ^ j) by (apply Z.pow_le_mono_r; lia).
  assert (2 ^ 53 = 2 * 2 ^ 52) by reflexivity. nia.
Qed.

Lemma Prim2SF_zero : Prim2SF 0 = S754_zero false.
Proof. vm_compute. reflexivity. Qed.

Lemma Prim2SF_one : Prim2SF 1 = S754_finite false 4503599627370496 (- 52).
Proof. vm_compute. reflexivity. Qed.

Lemma Prim2SF_2p63 : Prim2SF 0x1p63 = S754_finite false 4503599627370496 11.
Proof. vm_compute. reflexivity. Qed.

(** A positive finite number is neither 0 nor below 0. *)
Lemma positive_not_zero (f : float) (q : positive) (e : Z) :
  Prim2SF f = S754_finite false q e ->
  (f =? 0)%float = false /\ (f <? 0)%float = false.
Proof.
  intros H. rewrite eqb_spec, ltb_spec, H, Prim2SF_zero. split; reflexivity.
Qed.

(** The image of an integer from 2 on is not 1, and is below 2^63 when
    it is exact. *)
Lemma exact_not_one (f : float) (k : Z) :
  represents (Prim2SF f) k 0 -> 2 <= k ->
  (f =? 1)%float = false /\ (0x1p63 <=? abs f)%float = false.
Proof.
  intros H Hk. destruct (represents_exponent _ _ _ H) as [q [j [Hf [_ [J [_ J51]]]]]].
  specialize (J51 Hk).
  rewrite eqb_spec, leb_spec, abs_spec, Hf, Prim2SF_one, Prim2SF_2p63.
  unfold SFeqb, SFleb. cbn [SFabs SFcompare].
  replace (0 - j ?= - 52) with Gt by (symmetry; apply Z.compare_gt_iff; lia).
  replace (11 ?= 0 - j) with Gt by (symmetry; apply Z.compare_gt_iff; lia).
  split; reflexivity.
Qed.

(** [Pow] on the images of two integers from 2 on is the exact power
    when that is below 2^53. *)
Lemma Pow_exact (x y : Z) :
  2 <= x -> 2 <= y -> x ^ y < 2 ^ 53 ->
  represents (Prim2SF (math.Pow (float64_of_int x) (float64_of_int y))) (x ^ y) 0.
Proof.
  intros Hx Hy Hp.
  assert (Hy53 : y < 53).
  { destruct (Z.lt_ge_cases y 53) as [H|H]; [exact H|exfalso].
    assert (2 ^ 53 <= 2 ^ y) by (apply Z.pow_le_mono_r; lia).
    assert (2 ^ y <= x ^ y) by (apply Z.pow_le_mono_l; lia). lia. }
  assert (Hx53 : x < 2 ^ 53).
  { assert (x ^ 1 <= x ^ y) by (apply Z.pow_le_mono_r; lia).
    rewrite Z.pow_1_r in *. lia. }
  assert (H53 : 2 ^ 53 = 9007199254740992) by reflexivity.
  pose proof (float64_of_int_exact x ltac:(lia)) as Fx.
  pose proof (float64_of_int_exact y ltac:(lia)) as Fy.
  set (fx := float64_of_int x) in *. set (fy := float64_of_int y) in *.
  destruct (represents_exponent _ _ _ Fx) as [qx [jx [Ex [Nx [Jx [Qx _]]]]]].
  destruct (represents_exponent _ _ _ Fy) as [qy [jy [Ey [Ny [Jy [Qy _]]]]]].
  destruct (positive_not_zero fx _ _ Ex) as [Zx _].
  destruct (positive_not_zero fy _ _ Ey) as [Zy Ly].
  destruct (exact_not_one fx x Fx Hx) as [Ox _].
  destruct (exact_not_one fy y Fy Hy) as [Oy By].
  unfold math.Pow. rewrite Zy, Ox, Oy, Zx, By, Ly. cbn [orb].
  destruct (Frexp_normal fx qx (0 - jx) Ex Nx) as [m [-> Hm]].
  assert (Mx : mantissa m x (0 - jx + 53)).
  { exists qx, jx. repeat split; try assumption; try lia; apply Nx. }
  assert (Ay : represents (Prim2SF (abs fy)) y 0).
  { rewrite abs_spec, Ey. exists qy, jy. repeat split; try lia; try assumption; apply Ny. }
  rewrite (int_of_float64_exact (abs fy) y Ay ltac:(lia)).
  destruct y as [|i|i]; [lia | | lia].
  assert (One : represents (Prim2SF 1) 1 (- 0)).
  { rewrite Prim2SF_one. exists 4503599627370496%positive, 52.
    repeat split; try reflexivity; try lia; discriminate. }
  destruct (powLoop_exact i 1%float 0 m (0 - jx + 53) 1 x Hx ltac:(lia) One ltac:(lia)
              ltac:(simpl; lia) Mx) as [a' [ae' [-> [Ha' Hae']]]].
  rewrite Z.mul_1_l in Ha'.
  destruct (represents_exponent _ _ _ Ha') as [qa [ja [Ea [Na [Ja [Qa _]]]]]].
  rewrite (Ldexp_normal a' qa (- ae' - ja) ae' Ea Na) by lia.
  exists qa, ja. split; [f_equal; lia|]. repeat split; try assumption; try lia; apply Na.
Qed.

(* ================================================================== *)
(** * binary64: the numbers that are rounded *)

Lemma shr_1_m (mrs : shr_record) :
  0 <= shr_m mrs -> shr_m (shr_1 mrs) = shr_m mrs / 2.
Proof.
  destruct mrs as [m r s]. cbn [shr_m]. intros H.
  destruct m as [|[p|p|]|p]; cbn [shr_1 shr_m]; try reflexivity; try lia.
  - apply (Z.div_unique _ _ _ 1); lia.
  - apply (Z.div_unique _ _ _ 0); lia.
Qed.

(** Shifting by [n] digits divides the mantissa by 2^n. *)
Lemma iter_shr_1_m (n : positive) :
  forall mrs : shr_record, 0 <= shr_m mrs ->
  shr_m (iter_pos shr_1 n mrs) = shr_m mrs / 2 ^ Z.pos n.
Proof.
  induction n as [n IH|n IH|]; intros mrs H; cbn [iter_pos];
    try (assert (Hp : 0 < 2 ^ Z.pos n) by (apply Z.pow_pos_nonneg; lia)).
  - assert (H1 : 0 <= shr_m (shr_1 mrs)) by (rewrite shr_1_m by lia; apply Z.div_pos; lia).
    assert (H2 : 0 <= shr_m (iter_pos shr_1 n (shr_1 mrs)))
      by (rewrite IH by lia; apply Z.div_pos; lia).
    rewrite IH, IH, shr_1_m by assumption.
    rewrite pow2_xI, !Z.div_div by lia. f_equal.
  - assert (H2 : 0 <= shr_m (iter_pos shr_1 n mrs))
      by (rewrite IH by lia; apply Z.div_pos; lia).
    rewrite IH, IH by assumption. rewrite pow2_xO, Z.div_div by lia. reflexivity.
  - rewrite shr_1_m by lia. reflexivity.
Qed.

Lemma round_nearest_even_bounds (m : Z) (l : location) :
  m <= round_nearest_even m l <= m + 1.
Proof. destruct l as [|[]]; cbn; try destruct (Z.even m); lia. Qed.

(** [float64(y)] is a positive finite number for every positive [y] an
    int can hold, also when it is rounded. *)
Lemma float64_of_int_rounded (y : Z) :
  2 ^ 53 <= y < 2 ^ 64 ->
  exists (q : positive) (e : Z), Prim2SF (float64_of_int y) = S754_finite false q e.
Proof.
  intros Hy.
  assert (H53 : 2 ^ 53 = 9007199254740992) by reflexivity.
  destruct y as [|p|p]; [lia | | lia].
  pose proof (Z.log2_spec (Z.pos p) ltac:(lia)) as [Hlo Hhi].
  assert (Hl1 : 53 <= Z.log2 (Z.pos p)).
  { change 53 with (Z.log2 (2 ^ 53)). apply Z.log2_le_mono. lia. }
  assert (Hl2 : Z.log2 (Z.pos p) < 64) by (apply Z.log2_lt_pow2; lia).
  set (n := Z.log2 (Z.pos p) - 52) in *.
  assert (Hn : 1 <= n <= 11) by (unfold n; lia).
  assert (Hpn : 0 < 2 ^ n) by (apply Z.pow_pos_nonneg; lia).
  assert (Elo : 2 ^ Z.log2 (Z.pos p) = 2 ^ n * 2 ^ 52)
    by (rewrite <- Z.pow_add_r by lia; f_equal; unfold n; lia).
  assert (Ehi : 2 ^ Z.succ (Z.log2 (Z.pos p)) = 2 ^ n * 2 ^ 53)
    by (rewrite <- Z.pow_add_r by lia; f_equal; unfold n; lia).
  assert (Hf : fexp prec emax (Z.pos (digits2_pos p) + 0) = n).
  { rewrite Zdigits2_log2. unfold fexp, SpecFloat.emin, prec, emax, n. lia. }
  assert (E : exists (q : positive) (e : Z),
             binary_normalize prec emax (Z.pos p) 0 false = S754_finite false q e
             /\ normal q /\ 1 <= e <= 12).
  { cbn [binary_normalize]. unfold binary_round. rewrite Hf.
    unfold shl_align. rewrite Z.sub_0_r.
    destruct n as [|np|np] eqn:En; [lia | | lia]. cbv iota.
    unfold binary_round_aux, shr_fexp. cbn [Zdigits2]. rewrite Hf, Z.sub_0_r.
    cbn [shr]. rewrite Z.add_0_l.
    set (mrs := iter_pos shr_1 np (shr_record_of_loc (Z.pos p) loc_Exact)).
    assert (Hm1 : shr_m mrs = Z.pos p / 2 ^ Z.pos np).
    { unfold mrs. rewrite iter_shr_1_m; [reflexivity | cbn; lia]. }
    assert (B1 : 2 ^ 52 <= shr_m mrs < 2 ^ 53).
    { rewrite Hm1. split.
      - apply Z.div_le_lower_bound; lia.
      - apply Z.div_lt_upper_bound; lia. }
    pose proof (round_nearest_even_bounds (shr_m mrs) (loc_of_shr_record mrs)) as B2.
    set (m2 := round_nearest_even (shr_m mrs) (loc_of_shr_record mrs)) in *.
    destruct m2 as [|q2|q2] eqn:E2; [lia | | lia].
    destruct (Z.lt_ge_cases (Z.pos q2) (2 ^ 53)) as [Hlt|Hge].
    - assert (N2 : normal q2) by (unfold normal; lia).
      cbn [Zdigits2]. rewrite (normal_digits q2 N2), fexp_normal by lia.
      rewrite Z.sub_diag. cbn [shr shr_record_of_loc shr_m].
      replace (Z.pos np <=? emax - prec) with true
        by (symmetry; apply Z.leb_le; unfold emax, prec; lia).
      exists q2, (Z.pos np). repeat split; try lia; apply N2.
    - assert (Eq2 : Z.pos q2 = 2 ^ 53) by lia.
      assert (q2 = 9007199254740992%positive) by (apply Pos2Z.inj; rewrite Eq2; reflexivity).
      subst q2. cbn [Zdigits2 digits2_pos Pos.succ].
      assert (Hf2 : fexp prec emax (54 + Z.pos np) = Z.pos np + 1)
        by (unfold fexp, SpecFloat.emin, prec, emax; lia).
      rewrite Hf2. replace (Z.pos np + 1 - Z.pos np) with 1 by lia.
      cbn [shr shr_record_of_loc iter_pos shr_1 shr_m].
      replace (Z.pos np + 1 <=? emax - prec) with true
        by (symmetry; apply Z.leb_le; unfold emax, prec; lia).
      exists 4503599627370496%positive, (Z.pos np + 1).
      repeat split; try lia; try reflexivity; discriminate. }
  destruct E as [q [e [E [N He]]]]. exists q, e.
  unfold float64_of_int. rewrite E. apply Prim2SF_SF2Prim.
  cbn [SpecFloat.valid_binary]. unfold bounded, canonical_mantissa.
  rewrite (normal_digits q N), fexp_normal by lia.
  rewrite Z.eqb_refl. cbn [andb]. apply Z.leb_le. unfold emax, prec. lia.
Qed.

Lemma float64_of_int_positive (y : Z) :
  0 < y < 2 ^ 64 ->
  exists (q : positive) (e : Z), Prim2SF (float64_of_int y) = S754_finite false q e.
Proof.
  intros Hy. destruct (Z.lt_ge_cases y (2 ^ 53)) as [H|H].
  - destruct (float64_of_int_exact y ltac:(lia)) as [q [j [E _]]]. eauto.
  - apply float64_of_int_rounded. lia.
Qed.

(* ================================================================== *)
(** * The power in binary64 *)

(** The power that [PowerNode.Execute] computes in binary64 and converts
    to an int is the exact power whenever that is below 2^53, for all
    operands an int can hold that are not negative. *)
Lemma powInt_exact (x y : Z) :
  0 <= x -> 0 <= y <= MaxInt64 -> x ^ y < 2 ^ 53 -> powInt x y = x ^ y.
Proof.
  intros Hx Hy Hp.
  assert (Hmax : MaxInt64 = 9223372036854775807) by reflexivity.
  assert (H53 : 2 ^ 53 = 9007199254740992) by reflexivity.
  assert (H64 : 2 ^ 64 = 18446744073709551616) by reflexivity.
  unfold powInt.
  destruct (Z.eq_dec y 0) as [->|Hy0].
  { unfold math.Pow. change (float64_of_int 0 =? 0)%float with true. reflexivity. }
  destruct (Z.eq_dec x 0) as [->|Hx0].
  { rewrite Z.pow_0_l by lia.
    destruct (float64_of_int_positive y ltac:(lia)) as [q [e E]].
    destruct (positive_not_zero _ _ _ E) as [Zy Ly].
    unfold math.Pow. rewrite Zy, Ly.
    change (float64_of_int 0 =? 1)%float with false.
    change (float64_of_int 0 =? 0)%float with true. cbn [orb].
    destruct (float64_of_int y =? 1)%float; reflexivity. }
  destruct (Z.eq_dec x 1) as [->|Hx1].
  { rewrite Z.pow_1_l by lia. unfold math.Pow.
    change (float64_of_int 1 =? 1)%float with true. rewrite orb_true_r. reflexivity. }
  destruct (Z.eq_dec y 1) as [->|Hy1].
  { rewrite Z.pow_1_r in *.
    pose proof (float64_of_int_exact x ltac:(lia)) as Fx.
    destruct (exact_not_one _ x Fx ltac:(lia)) as [Ox _].
    unfold math.Pow. rewrite Ox.
    change (float64_of_int 1 =? 0)%float with false.
    change (float64_of_int 1 =? 1)%float with true. cbn [orb].
    apply int_of_float64_exact; assumption. }
  apply int_of_float64_exact; [|exact Hp].
  apply Pow_exact; lia.
Qed.

(* ================================================================== *)
(** * Trimming *)

Lemma get_last (s : string) (c : ascii) :
  lastByte s = Some c -> String.get (String.length s - 1) s = Some c.
Proof.
  induction s as [|a r IH]; [discriminate|].
  destruct r as [|b r'].
  - simpl. congruence.
  - intros H. change (lastByte (String a (String b r'))) with (lastByte (String b r')) in H.
    specialize (IH H).
    replace (String.length (String a (String b r')) - 1)%nat
      with (S (String.length (String b r') - 1)) by (simpl String.length; lia).
    exact IH.
Qed.

Lemma byteAt_last (s : string) (c : ascii) :
  lastByte s = Some c -> utf8.byteAt s (len s - 1) = byte c.
Proof.
  intros H. unfold utf8.byteAt.
  replace (Z.to_nat (len s - 1)) with (String.length s - 1)%nat by (unfold len; lia).
  rewrite (get_last s c H). reflexivity.
Qed.

(** A string that starts and ends with plain bytes is its own trimming. *)
Lemma TrimSpace_plain (s : string) (c0 cl : ascii) :
  firstByte s = Some c0 -> lastByte s = Some cl -> plain c0 -> plain cl ->
  strings.TrimSpace s = s.
Proof.
  intros Hf Hl [H0 S0] [Hl1 Sl]. destruct s as [|a r]; [discriminate|].
  injection Hf as ->.
  assert (Eleft : strings.trimLeft (String.length (String c0 r)) (String c0 r) = String c0 r).
  { cbn [String.length strings.trimLeft utf8.DecodeRuneInString].
    unfold utf8.RuneSelf. replace (byte c0 <? 128) with true by (symmetry; apply Z.ltb_lt, H0).
    rewrite S0. reflexivity. }
  unfold strings.TrimSpace. rewrite Eleft.
  cbn [String.length strings.trimRight]. unfold utf8.DecodeLastRuneInString.
  replace (len (String c0 r) =? 0) with false.
  2:{ symmetry. apply Z.eqb_neq. rewrite len_String. pose proof (len_nonneg r). lia. }
  rewrite (byteAt_last _ _ Hl). unfold utf8.RuneSelf.
  replace (byte cl <? 128) with true by (symmetry; apply Z.ltb_lt, Hl1).
  rewrite Sl. reflexivity.
Qed.

Lemma lastByte_app (a : string) (c : ascii) (b : string) :
  lastByte (a ++ String c b) = lastByte (String c b).
Proof.
  induction a as [|x a IH]; [reflexivity|].
  simpl append. change (lastByte (String x (a ++ String c b)))
    with (match (a ++ String c b)%string with
          | "" => Some x
          | _ => lastByte (a ++ String c b)
          end).
  destruct (a ++ String c b)%string eqn:E; [destruct a; discriminate|].
  exact IH.
Qed.

Lemma digit_plain (c : ascii) : strconv.isDigit c = true -> plain c.
Proof.
  intros H. pose proof (isDigit_byte c H) as Hb. split; [lia|].
  unfold unicode.IsSpace.
  replace (byte c <=? 255) with true by (symmetry; apply Z.leb_le; lia).
  repeat (rewrite orb_false_iff; split); apply Z.eqb_neq; lia.
Qed.

Lemma lastByte_digits (s : string) :
  s <> "" -> allDigits s = true ->
  exists c, lastByte s = Some c /\ strconv.isDigit c = true.
Proof.
  induction s as [|a r IH]; intros Hne Hd; [congruence|].
  apply allDigits_String in Hd. destruct Hd as [Ha Hr].
  destruct r as [|b r'].
  - exists a. split; [reflexivity | exact Ha].
  - destruct IH as [c [Hc Hd]]; [discriminate | exact Hr |].
    exists c. split; [exact Hc | exact Hd].
Qed.

Lemma TrimSpace_literal (s : string) : literal s -> strings.TrimSpace s = s.
Proof.
  intros [Hne [Hd _]]. destruct s as [|a r] eqn:E; [congruence|].
  destruct (lastByte_digits _ Hne Hd) as [c [Hc Hcd]].
  pose proof Hd as Hd'. apply allDigits_String in Hd'. destruct Hd' as [Ha _].
  apply (TrimSpace_plain _ a c); [reflexivity | exact Hc | |]; apply digit_plain; assumption.
Qed.

(* ================================================================== *)
(** * The loops of the library run to their end *)

Lemma DecodeRuneInString_size (s : string) :
  s <> "" -> (1 <= snd (utf8.DecodeRuneInString s))%nat.
Proof.
  intros Hne. unfold utf8.DecodeRuneInString.
  repeat match goal with
         | |- context [match ?x with _ => _ end] => destruct x
         end; simpl; try lia; congruence.
Qed.

Lemma length_drop (n : nat) (s : string) :
  String.length (drop n s) = (String.length s - n)%nat.
Proof.
  revert s. induction n as [|n IH]; intros s; simpl.
  - destruct s; simpl; lia.
  - destruct s as [|c s]; [reflexivity|]. simpl. apply IH.
Qed.

Lemma length_take (n : nat) (s : string) :
  String.length (take n s) = Nat.min n (String.length s).
Proof.
  revert s. induction n as [|n IH]; intros s; simpl; [reflexivity|].
  destruct s as [|c s]; [reflexivity|]. simpl. rewrite IH. reflexivity.
Qed.

(** [trimLeft] does not depend on the turns it is allowed, from
    [length s] on. *)
Lemma trimLeft_total (fuel : nat) :
  forall s fuel', (String.length s <= fuel)%nat -> (String.length s <= fuel')%nat ->
    strings.trimLeft fuel' s = strings.trimLeft fuel s.
Proof.
  induction fuel as [|fuel IH]; intros s fuel' Hf Hf'.
  - destruct s; [|simpl in Hf; lia]. destruct fuel'; reflexivity.
  - destruct s as [|c r]; [destruct fuel'; reflexivity|].
    destruct fuel' as [|fuel']; [simpl in Hf'; lia|].
    cbn [strings.trimLeft].
    pose proof (DecodeRuneInString_size (String c r) ltac:(discriminate)) as Hsize.
    destruct (utf8.DecodeRuneInString (String c r)) as [rune size].
    destruct (unicode.IsSpace rune); [|reflexivity].
    cbn [snd] in Hsize.
    change (String.length (String c r)) with (S (String.length r)) in Hf, Hf'.
    apply IH; rewrite length_drop;
      change (String.length (String c r)) with (S (String.length r)); lia.
Qed.

Lemma scanBack_le (fuel : nat) (s : string) (start lim : Z) :
  utf8.scanBack fuel s start lim <= start.
Proof.
  revert start. induction fuel as [|fuel IH]; intros start; simpl; [lia|].
  destruct (start <? lim); [lia|].
  destruct (utf8.RuneStart _); [lia|]. specialize (IH (start - 1)). lia.
Qed.

Lemma DecodeLastRuneInString_size (s : string) :
  s <> "" -> (1 <= snd (utf8.DecodeLastRuneInString s))%nat.
Proof.
  intros Hne. unfold utf8.DecodeLastRuneInString.
  assert (Hlen : 1 <= len s).
  { destruct s; [congruence|]. rewrite len_String. pose proof (len_nonneg s). lia. }
  cbv zeta.
  replace (len s =? 0) with false by (symmetry; apply Z.eqb_neq; lia).
  destruct (_ <? utf8.RuneSelf); [simpl; lia|].
  pose proof (scanBack_le 3 s (len s - 2) (Z.max 0 (len s - utf8.UTFMax))) as Hs.
  destruct (utf8.DecodeRuneInString _) as [rune size].
  match goal with
  | |- context [if ?x =? ?y then _ else _] => destruct (Z.eqb_spec x y) as [E|_]
  end; simpl; lia.
Qed.

(** [trimRight] does not depend on the turns it is allowed, from
    [length s] on. *)
Lemma trimRight_total (fuel : nat) :
  forall s fuel', (String.length s <= fuel)%nat -> (String.length s <= fuel')%nat ->
    strings.trimRight fuel' s = strings.trimRight fuel s.
Proof.
  induction fuel as [|fuel IH]; intros s fuel' Hf Hf'.
  - destruct s; [|simpl in Hf; lia]. destruct fuel'; reflexivity.
  - destruct s as [|c r]; [destruct fuel'; reflexivity|].
    destruct fuel' as [|fuel']; [simpl in Hf'; lia|].
    cbn [strings.trimRight].
    pose proof (DecodeLastRuneInString_size (String c r) ltac:(discriminate)) as Hsize.
    destruct (utf8.DecodeLastRuneInString (String c r)) as [rune size].
    destruct (unicode.IsSpace rune); [|reflexivity].
    cbn [snd] in Hsize.
    change (String.length (String c r)) with (S (String.length r)) in Hf, Hf'.
    apply IH; rewrite length_take;
      change (String.length (String c r)) with (S (String.length r)); lia.
Qed.

(* ================================================================== *)
(** * The decimal text of an integer *)

Lemma valueFrom_app (a b : string) (n : Z) :
  valueFrom (a ++ b) n = valueFrom b (valueFrom a n).
Proof. revert n. induction a as [|c a IH]; intros n; simpl; [reflexivity | apply IH]. Qed.

Lemma allDigits_app (a b : string) :
  allDigits (a ++ b) = allDigits a && allDigits b.
Proof. unfold allDigits. rewrite chars_app, forallb_app. reflexivity. Qed.

Lemma digitChar_digit (d : Z) :
  0 <= d <= 9 ->
  strconv.isDigit (strconv.digitChar d) = true /\ byte (strconv.digitChar d) - 48 = d.
Proof.
  intros H.
  assert (E : d = 0 \/ d = 1 \/ d = 2 \/ d = 3 \/ d = 4 \/ d = 5 \/ d = 6 \/ d = 7
              \/ d = 8 \/ d = 9) by lia.
  repeat destruct E as [->|E]; try subst d; split; reflexivity.
Qed.

(** [formatBits] writes the decimal digits of [u] before [acc]. *)
Lemma formatBits_digits (fuel : nat) :
  forall u acc, 0 <= u < 10 ^ Z.of_nat (S fuel) ->
    exists ds,
      strconv.formatBits (S fuel) u acc = (ds ++ acc)%string
      /\ ds <> "" /\ allDigits ds = true
      /\ forall n, valueFrom ds n = n * 10 ^ len ds + u.
Proof.
  induction fuel as [|fuel IH]; intros u acc Hu.
  - change (10 ^ Z.of_nat 1) with 10 in Hu.
    exists (String (strconv.digitChar u) "").
    destruct (digitChar_digit u ltac:(lia)) as [Hd Hv].
    cbn [strconv.formatBits]. rewrite Z.mod_small by lia.
    replace (u <? 10) with true by (symmetry; apply Z.ltb_lt; lia).
    repeat split; [discriminate | unfold allDigits; simpl; rewrite Hd; reflexivity |].
    intros n. cbn [valueFrom]. rewrite Hv. change (len (String _ "")) with 1. lia.
  - remember (S fuel) as k eqn:Ek. cbn [strconv.formatBits].
    pose proof (Z.mod_pos_bound u 10 ltac:(lia)) as Hm.
    destruct (digitChar_digit (u mod 10) ltac:(lia)) as [Hd Hv].
    destruct (Z.ltb_spec u 10) as [Hlt|Hge].
    + exists (String (strconv.digitChar (u mod 10)) "").
      repeat split; [discriminate | unfold allDigits; simpl; rewrite Hd; reflexivity |].
      intros n. cbn [valueFrom]. rewrite Hv, Z.mod_small by lia.
      change (len (String _ "")) with 1. lia.
    + destruct (IH (u / 10) (String (strconv.digitChar (u mod 10)) acc))
        as [ds [E [Hne [Hds Hval]]]].
      { split; [apply Z.div_pos; lia|].
        apply Z.div_lt_upper_bound; [lia|].
        replace (Z.of_nat (S k)) with (Z.of_nat k + 1) in Hu by lia.
        rewrite Z.pow_add_r, Z.pow_1_r in Hu by lia. lia. }
      exists (ds ++ String (strconv.digitChar (u mod 10)) "")%string.
      rewrite E, append_assoc. repeat split.
      * destruct ds; [congruence | discriminate].
      * rewrite allDigits_app, Hds. unfold allDigits. simpl. rewrite Hd. reflexivity.
      * intros n. rewrite valueFrom_app, Hval. cbn [valueFrom]. rewrite Hv.
        rewrite len_app. change (len (String _ "")) with 1.
        pose proof (len_nonneg ds).
        rewrite Z.pow_add_r, Z.pow_1_r by lia.
        pose proof (Z.div_mod u 10 ltac:(lia)). lia.
Qed.

(** [Itoa] prints a non-negative int as its decimal digits, and a negative
    one as a minus sign before the digits of its opposite. *)
Lemma Itoa_decimal (i : Z) :
  MinInt64 <= i <= MaxInt64 ->
  exists ds,
    allDigits ds = true /\ ds <> "" /\ value ds = Z.abs i
    /\ strconv.Itoa i = if i <? 0 then String "-" ds else ds.
Proof.
  intros Hi.
  assert (Hmax : MaxInt64 = 9223372036854775807) by reflexivity.
  assert (Hmin : MinInt64 = -9223372036854775808) by reflexivity.
  assert (H20 : 10 ^ Z.of_nat 20 = 100000000000000000000) by reflexivity.
  destruct (formatBits_digits 19 (Z.abs i) "" ltac:(lia)) as [ds [E [Hne [Hds Hval]]]].
  assert (Eds : (ds ++ "")%string = ds).
  { clear. induction ds as [|c ds IH]; simpl; [reflexivity | now rewrite IH]. }
  rewrite Eds in E.
  exists ds. repeat split; try assumption.
  - unfold value. rewrite Hval. lia.
  - unfold strconv.Itoa. destruct (Z.ltb_spec i 0) as [Hneg|Hpos].
    + replace (- i) with (Z.abs i) by lia. rewrite E. reflexivity.
    + replace i with (Z.abs i) at 1 by lia. exact E.
Qed.

(* ================================================================== *)
(** * A statement with one operator, through the pipeline *)

Lemma free_app (c : ascii) (a b : string) : free c (a ++ b) <-> free c a /\ free c b.
Proof. unfold free. rewrite chars_app, in_app_iff. tauto. Qed.

Lemma digits_free (c : ascii) (s : string) :
  allDigits s = true -> strconv.isDigit c = false -> free c s.
Proof.
  intros Hd Hc. induction s as [|a r IH]; [intros []|].
  apply allDigits_String in Hd. destruct Hd as [Ha Hr].
  apply free_String. split; [intros ->; congruence | apply IH, Hr].
Qed.

Lemma digit_not_operator (c : ascii) :
  strconv.isDigit c = true -> strings.byteIn c operators = false.
Proof.
  intros H. unfold operators. cbn [strings.byteIn].
  repeat (rewrite orb_false_iff; split); try reflexivity;
    apply Ascii.eqb_neq; intros ->; discriminate.
Qed.

Lemma digits_freeOf_operators (s : string) : allDigits s = true -> freeOf operators s.
Proof.
  intros Hd. induction s as [|a r IH]; [intros c []|].
  apply allDigits_String in Hd. destruct Hd as [Ha Hr].
  apply freeOf_String. split; [apply digit_not_operator, Ha | apply IH, Hr].
Qed.

Lemma operatorChar_free (c : ascii) (op : Operator) :
  c = ";"%char \/ c = ","%char \/ c = "("%char \/ c = ")"%char ->
  operatorChar op <> c.
Proof. intros [->|[->|[->| ->]]]; destruct op; discriminate. Qed.

Lemma operand_text_free (c : ascii) (a b : string) (op : Operator) :
  c = ";"%char \/ c = ","%char \/ c = "("%char \/ c = ")"%char ->
  literal a -> literal b ->
  free c (a ++ String (operatorChar op) b).
Proof.
  intros Hc [_ [Ha _]] [_ [Hb _]].
  assert (Hd : strconv.isDigit c = false)
    by (destruct Hc as [->|[->|[->| ->]]]; reflexivity).
  apply free_app. split; [apply digits_free; assumption|].
  apply free_String. split; [apply operatorChar_free, Hc | apply digits_free; assumption].
Qed.

Lemma operatorChar_plain (op : Operator) : plain (operatorChar op).
Proof. destruct op; split; reflexivity. Qed.

Lemma firstByte_app (a b : string) : a <> "" -> firstByte (a ++ b) = firstByte a.
Proof. destruct a; [congruence | reflexivity]. Qed.

Lemma firstByte_digits (s : string) :
  s <> "" -> allDigits s = true ->
  exists c, firstByte s = Some c /\ strconv.isDigit c = true.
Proof.
  destruct s as [|a r]; intros Hne Hd; [congruence|].
  apply allDigits_String in Hd. exists a. split; [reflexivity | tauto].
Qed.

(** The argument [a op b] of two literals is its own trimming and is
    not quoted. *)
Lemma operand_text_trim (a b : string) (op : Operator) :
  literal a -> literal b ->
  strings.TrimSpace (a ++ String (operatorChar op) b) = (a ++ String (operatorChar op) b)%string
  /\ quoted (a ++ String (operatorChar op) b) = false.
Proof.
  intros [Hna [Hda _]] [Hnb [Hdb _]].
  destruct (firstByte_digits a Hna Hda) as [c0 [Hc0 Hd0]].
  destruct (lastByte_digits b Hnb Hdb) as [cl [Hcl Hdl]].
  split.
  - apply (TrimSpace_plain _ c0 cl); try (apply digit_plain; assumption).
    + rewrite firstByte_app by assumption. exact Hc0.
    + rewrite lastByte_app. destruct b as [|x b']; [congruence|]. exact Hcl.
  - unfold quoted, strings.HasPrefix. destruct a as [|x a']; [congruence|].
    injection Hc0 as ->. simpl append. unfold dquote. cbn [String.prefix].
    destruct (ascii_dec "034" c0) as [<-|_]; [discriminate | reflexivity].
Qed.

Lemma free_semicolon_call (a b : string) (op : Operator) :
  literal a -> literal b -> free ";" (call a op b).
Proof.
  intros Ha Hb. unfold call. apply free_app. split; [vm_compute; intuition discriminate|].
  apply free_String. split; [discriminate|].
  apply free_app. split; [apply operand_text_free; auto|].
  vm_compute; intuition discriminate.
Qed.

(** The lexer on the call [console.log(a op b)], after any tokens. *)
Lemma lexStatement_statement (tokens : list Token) (a b : string) (op : Operator) :
  literal a -> literal b ->
  lexStatement tokens (call a op b)
  = Ok (tokens ++ [mkToken TokenConsole "console"; mkToken TokenLog "log";
                   mkToken TokenInt a; operatorToken op; mkToken TokenInt b]).
Proof.
  intros Ha Hb.
  assert (Hcall : strings.TrimSpace (call a op b) = call a op b).
  { apply (TrimSpace_plain _ "c" ")"); [reflexivity | | split; reflexivity | split; reflexivity].
    unfold call.
    change ("console.log" ++ String "(" ((a ++ String (operatorChar op) b) ++ String ")" ""))%string
      with ("console.log" ++ (String "(" (a ++ String (operatorChar op) b) ++ String ")" ""))%string.
    rewrite <- append_assoc, lastByte_app. reflexivity. }
  rewrite (lexStatement_call tokens (call a op b) "console.log"
             (a ++ String (operatorChar op) b) "").
  - change (forRange lexWord tokens (strings.FieldsFunc "console.log" isSeparator))
      with (Ok ((tokens ++ [mkToken TokenConsole "console"]) ++ [mkToken TokenLog "log"])).
    cbn [bind].
    rewrite (Split_free _ "," (operand_text_free "," a b op ltac:(auto) Ha Hb)).
    cbn [forRange].
    destruct (operand_text_trim a b op Ha Hb) as [Htrim Hq].
    rewrite (lexArgument_operator _ _ a b op Htrim).
    + cbn [bind]. rewrite (TrimSpace_literal a Ha), (TrimSpace_literal b Hb).
      rewrite <- !app_assoc. reflexivity.
    + rewrite Htrim. exact Hq.
    + apply digits_freeOf_operators. apply Ha.
  - exact Hcall.
  - vm_compute; intuition discriminate.
  - intros [].
Qed.

(** The lexer on the statement [console.log(a op b);]. *)
Lemma Lex_statement (a b : string) (op : Operator) :
  literal a -> literal b ->
  Lex (statement a op b)
  = Ok [mkToken TokenConsole "console"; mkToken TokenLog "log";
        mkToken TokenInt a; operatorToken op; mkToken TokenInt b].
Proof.
  intros Ha Hb. unfold Lex, statement.
  rewrite (Split_first (call a op b) "" ";" (free_semicolon_call a b op Ha Hb)).
  cbn [strings.Split forRange].
  rewrite (lexStatement_statement [] a b op Ha Hb). reflexivity.
Qed.

(** The lexer on two such statements in a row. *)
Lemma Lex_two_statements (a b c d : string) (op op' : Operator) :
  literal a -> literal b -> literal c -> literal d ->
  Lex (statement a op b ++ statement c op' d)
  = Ok [mkToken TokenConsole "console"; mkToken TokenLog "log";
        mkToken TokenInt a; operatorToken op; mkToken TokenInt b;
        mkToken TokenConsole "console"; mkToken TokenLog "log";
        mkToken TokenInt c; operatorToken op'; mkToken TokenInt d].
Proof.
  intros Ha Hb Hc Hd. unfold Lex, statement.
  rewrite append_assoc.
  change (String ";" "" ++ call c op' d ++ String ";" "")%string
    with (String ";" (call c op' d ++ String ";" ""))%string.
  rewrite (Split_first (call a op b) _ ";" (free_semicolon_call a b op Ha Hb)).
  rewrite (Split_first (call c op' d) "" ";" (free_semicolon_call c d op' Hc Hd)).
  cbn [strings.Split forRange].
  rewrite (lexStatement_statement [] a b op Ha Hb). cbn [bind].
  rewrite (lexStatement_statement _ c d op' Hc Hd). reflexivity.
Qed.

Lemma Parse_two_statements (a b c d : string) (op op' : Operator) :
  Parse [mkToken TokenConsole "console"; mkToken TokenLog "log";
         mkToken TokenInt a; operatorToken op; mkToken TokenInt b;
         mkToken TokenConsole "console"; mkToken TokenLog "log";
         mkToken TokenInt c; operatorToken op'; mkToken TokenInt d]
  = Ok [ConsoleLogNode [BinaryOp op (IntNode a) (IntNode b)];
        ConsoleLogNode [BinaryOp op' (IntNode c) (IntNode d)]].
Proof. destruct op, op'; reflexivity. Qed.

Lemma Parse_statement (a b : string) (op : Operator) :
  Parse [mkToken TokenConsole "console"; mkToken TokenLog "log";
         mkToken TokenInt a; operatorToken op; mkToken TokenInt b]
  = Ok [ConsoleLogNode [BinaryOp op (IntNode a) (IntNode b)]].
Proof. destruct op; reflexivity. Qed.

(** A BinaryOp node on two literals computes the exact result. *)
Lemma Execute_literals (a b : string) (op : Operator) :
  literal a -> literal b -> computable op (value a) (value b) ->
  Execute (BinaryOp op (IntNode a) (IntNode b))
  = Ok (strconv.Itoa (exact op (value a) (value b))).
Proof.
  intros Ha Hb Hc.
  pose proof (value_bounds a Ha) as Ba. pose proof (value_bounds b Hb) as Bb.
  assert (Hmax : MaxInt64 = 9223372036854775807) by reflexivity.
  assert (Hmin : MinInt64 = -9223372036854775808) by reflexivity.
  destruct op; cbn [BinaryOp Execute bind exact computable] in *;
    rewrite (operand_literal a Ha), (operand_literal b Hb).
  - rewrite wrap64_small by lia. reflexivity.
  - rewrite wrap64_small by lia. reflexivity.
  - rewrite wrap64_small by nia. reflexivity.
  - replace (value b =? 0) with false by (symmetry; apply Z.eqb_neq, Hc).
    rewrite wrap64_small; [reflexivity|].
    rewrite Z.quot_div_nonneg by lia.
    pose proof (Z.div_pos (value a) (value b) ltac:(lia) ltac:(lia)).
    pose proof (Z.div_le_upper_bound (value a) (value b) (value a) ltac:(lia) ltac:(nia)).
    lia.
  - replace (value b =? 0) with false by (symmetry; apply Z.eqb_neq, Hc).
    rewrite wrap64_small; [reflexivity|].
    pose proof (Z.rem_bound_pos (value a) (value b) ltac:(lia) ltac:(lia)). lia.
  - change (int_of_float64 (math.Pow (float64_of_int (value a)) (float64_of_int (value b))))
      with (powInt (value a) (value b)).
    rewrite powInt_exact by (try exact Hc; lia). reflexivity.
Qed.

(** The claim of the specification fails as it stands: the statement
    below is well formed, its operands are literals that convert exactly,
    and the program prints 0 where the exact product is 2^64. Nor is the
    power exact beyond the 53 bits of binary64: 3^39 is not printed. *)
Lemma single_operator_counterexample :
  literal "4294967296"
  /\ Interpret (statement "4294967296" Mul "4294967296") = (["0"], None)
  /\ statement "4294967296" Mul "4294967296" = "console.log(4294967296*4294967296);"
  /\ exact Mul (value "4294967296") (value "4294967296") = 18446744073709551616
  /\ Interpret (statement "3" Pow "39")
     <> ([strconv.Itoa (exact Pow (value "3") (value "39"))], None).
Proof.
  split; [|repeat split; vm_compute; (reflexivity || discriminate)].
  split; [discriminate|]. split; [reflexivity|]. vm_compute. discriminate.
Qed.

(** A division of a literal by a literal of value 0, through the
    pipeline: the panic, and no line. *)
Lemma statement_division_by_zero (a b : string) (op : Operator) :
  literal a -> literal b -> value b = 0 -> op = Div \/ op = Mod ->
  Interpret (statement a op b) = ([], Some IntegerDivideByZero).
Proof.
  intros Ha Hb Hz Hop. unfold Interpret.
  rewrite (Lex_statement a b op Ha Hb), Parse_statement.
  cbn [Eval]. rewrite Execute_ConsoleLogNode. cbn [executeAll].
  destruct Hop as [-> | ->]; cbn [BinaryOp Execute bind];
    rewrite (operand_literal b Hb), Hz; reflexivity.
Qed.

(** Two statements in a row print their two lines in the order of the
    program. *)
Lemma two_statements_in_order (a b c d : string) (op op' : Operator) :
  literal a -> literal b -> literal c -> literal d ->
  computable op (value a) (value b) ->
  computable op' (value c) (value d) ->
  Interpret (statement a op b ++ statement c op' d)
  = ([strconv.Itoa (exact op (value a) (value b));
      strconv.Itoa (exact op' (value c) (value d))], None).
Proof.
  intros Ha Hb Hc Hd H1 H2. unfold Interpret.
  rewrite (Lex_two_statements a b c d op op' Ha Hb Hc Hd), Parse_two_statements.
  cbn [Eval]. rewrite !Execute_ConsoleLogNode. cbn [executeAll].
  rewrite (Execute_literals a b op Ha Hb H1). cbn [bind strings.Join app].
  rewrite (Execute_literals c d op' Hc Hd H2). reflexivity.
Qed.

(** The truncation is toward zero: 2^-1 is 0.5 in binary64 and prints as
    0 (the sign belongs to the right operand, the first operator being the
    power). *)
Example Interpret_power_truncates :
  Interpret "console.log(2^-1);" = (["0"], None).
Proof. vm_compute. reflexivity. Qed.

(** The four statements of the specification. *)
Example Interpret_examples :
  Interpret "console.log(3+4);" = (["7"], None)
  /\ Interpret "console.log(10%3);" = (["1"], None)
  /\ Interpret "console.log(2^5);" = (["32"], None)
  /\ Interpret "console.log(7/2);" = (["3"], None).
Proof. repeat split; vm_compute; reflexivity. Qed.

(* ================================================================== *)
(** * What execution can and cannot do *)

Lemma executeAll_panic_kind (args : list Node) (p : panic) :
  Forall (fun n => forall q, Execute n = Panic q -> q = IntegerDivideByZero) args ->
  executeAll args = Panic p -> p = IntegerDivideByZero.
Proof.
  induction 1 as [|a args Ha _ IH]; simpl; [discriminate|].
  destruct (Execute a) as [s|q] eqn:E; simpl.
  - destruct (executeAll args) as [ss|q]; simpl; [discriminate|].
    intros [= <-]. apply IH. reflexivity.
  - intros [= <-]. apply Ha. reflexivity.
Qed.

Lemma Execute_panic_kind (n : Node) (p : panic) :
  Execute n = Panic p -> p = IntegerDivideByZero.
Proof.
  revert p. induction n as [args IH| v | v | op l r IHl IHr] using Node_induction; intros p.
  - rewrite Execute_ConsoleLogNode. destruct (executeAll args) as [ss|q] eqn:E; simpl.
    + discriminate.
    + intros [= <-]. eapply executeAll_panic_kind; eassumption.
  - discriminate.
  - discriminate.
  - destruct op; simpl;
      (destruct (Execute l) as [lt|q] eqn:El; simpl; [|intros [= <-]; apply IHl; reflexivity]);
      (destruct (Execute r) as [rt|q] eqn:Er; simpl; [|intros [= <-]; apply IHr; reflexivity]);
      try discriminate;
      destruct (operand rt =? 0); congruence.
Qed.

(** X1. Whatever the tree, executing a node either yields a text or
    panics with the integer division by zero: no other runtime fault is
    within reach of the Execute methods. *)
Theorem Execute_yields_text_or_divides_by_zero (n : Node) :
  (exists text, Execute n = Ok text) \/ Execute n = Panic IntegerDivideByZero.
Proof.
  destruct (Execute n) as [text|p] eqn:E; [left; eauto|].
  right. f_equal. eapply Execute_panic_kind, E.
Qed.

(* ================================================================== *)
(** * The texts of the arithmetic nodes *)

Lemma wrap64_range (z : Z) : MinInt64 <= wrap64 z <= MaxInt64.
Proof.
  unfold wrap64, MinInt64, MaxInt64.
  pose proof (Z.mod_pos_bound (z + 2 ^ 63) (2 ^ 64) ltac:(lia)). lia.
Qed.

Lemma int_of_float64_range (f : float) : MinInt64 <= int_of_float64 f <= MaxInt64.
Proof.
  unfold int_of_float64.
  assert (H : MinInt64 <= MinInt64 <= MaxInt64) by (unfold MinInt64, MaxInt64; lia).
  destruct (truncate f) as [z|]; [|exact H].
  destruct ((MinInt64 <=? z) && (z <=? MaxInt64)) eqn:E; [|exact H].
  apply andb_true_iff in E. rewrite !Z.leb_le in E. exact E.
Qed.

(** [Atoi] reads a minus sign and digits as the opposite of their value,
    down to the most negative int. *)
Lemma Atoi_negative (ds : string) :
  ds <> "" -> allDigits ds = true -> value ds <= 2 ^ 63 ->
  strconv.Atoi (String "-" ds) = (- value ds, None).
Proof.
  intros Hne Hd Hv. unfold strconv.Atoi.
  assert (Hlen : 1 <= len ds).
  { destruct ds; [congruence|]. rewrite len_String. pose proof (len_nonneg ds). lia. }
  destruct ((0 <? len (String "-" ds)) && (len (String "-" ds) <? 19)).
  - cbn [Ascii.eqb Bool.eqb orb andb].
    replace (len ds <? 1) with false by (symmetry; apply Z.ltb_ge; lia).
    rewrite (atoiLoop_digits _ 0 Hd). reflexivity.
  - unfold strconv.ParseInt, strconv.ParseUint. cbn [Ascii.eqb Bool.eqb orb negb andb].
    destruct ds as [|c r]; [congruence|].
    rewrite (parseUintLoop_digits _ Hd 0 ltac:(lia))
      by (change strconv.maxUint64 with 18446744073709551615;
          change (2 ^ 63) with 9223372036854775808 in Hv; unfold value in Hv; lia).
    change (2 ^ 63) with 9223372036854775808 in *.
    replace (9223372036854775808 <? valueFrom (String c r) 0) with false
      by (symmetry; apply Z.ltb_ge; unfold value in Hv; lia).
    reflexivity.
Qed.

(** The text [Itoa] prints for an int is read back by [Atoi] as the same
    int, without error. *)
Lemma Atoi_Itoa (i : Z) :
  MinInt64 <= i <= MaxInt64 -> strconv.Atoi (strconv.Itoa i) = (i, None).
Proof.
  intros Hi. destruct (Itoa_decimal i Hi) as [ds [Hd [Hne [Hv E]]]].
  assert (Hmax : MaxInt64 = 9223372036854775807) by reflexivity.
  assert (Hmin : MinInt64 = -9223372036854775808) by reflexivity.
  rewrite E. destruct (Z.ltb_spec i 0) as [Hneg|Hpos].
  - rewrite Atoi_negative; try assumption.
    + f_equal. lia.
    + change (2 ^ 63) with 9223372036854775808. lia.
  - rewrite Atoi_literal; [f_equal; lia|].
    repeat split; try assumption. lia.
Qed.

(** X2. The text of an arithmetic node is always the decimal notation of
    an int, which [Atoi] reads back exactly and without error: an
    arithmetic node can be the operand of another without loss. *)
Theorem BinaryOp_text_reads_back (op : Operator) (L R : Node) (text : string) :
  Execute (BinaryOp op L R) = Ok text ->
  exists i, MinInt64 <= i <= MaxInt64
            /\ text = strconv.Itoa i
            /\ strconv.Atoi text = (i, None).
Proof.
  intros H.
  assert (exists i, MinInt64 <= i <= MaxInt64 /\ text = strconv.Itoa i) as [i [Hi ->]].
  { destruct op; simpl in H;
      destruct (Execute L) as [lt|]; simpl in H; try discriminate;
      destruct (Execute R) as [rt|]; simpl in H; try discriminate;
      try (destruct (operand rt =? 0); try discriminate);
      injection H as <-; eexists; (split; [|reflexivity]);
      first [apply wrap64_range | apply int_of_float64_range]. }
  exists i. repeat split; try apply Hi. apply Atoi_Itoa, Hi.
Qed.

Lemma BinaryOp_text_reads_back_witness :
  exists i, MinInt64 <= i <= MaxInt64
            /\ "-9223372036854775808" = strconv.Itoa i
            /\ strconv.Atoi "-9223372036854775808" = (i, None).
Proof.
  apply (BinaryOp_text_reads_back Sub (IntNode "-9223372036854775807") (IntNode "1")).
  vm_compute. reflexivity.
Defined.

(** Nested arithmetic: the sum of a product and a literal. *)
Example Execute_nested :
  Execute (PlusNode (MultiplyNode (IntNode "6") (IntNode "-7")) (IntNode "2")) = Ok "-40".
Proof. vm_compute. reflexivity. Qed.

(* ================================================================== *)
(** * What evaluation does to the output *)

(** X3. Evaluating two sequences of nodes in a row is evaluating the
    first and then, unless it panicked, the second on the output it left;
    after a panic nothing more is printed. *)
Theorem Eval_app (nodes nodes' : list Node) (stdout : list string) :
  Eval (nodes ++ nodes') stdout
  = match Eval nodes stdout with
    | (stdout', None) => Eval nodes' stdout'
    | (stdout', Some p) => (stdout', Some p)
    end.
Proof.
  revert stdout. induction nodes as [|n nodes IH]; intros stdout; simpl; [reflexivity|].
  destruct (Execute n) as [line|p]; [apply IH | reflexivity].
Qed.

(** X4. [Eval] only ever appends to the output: what was printed before
    stays as it is, and at most one line per node comes after it, exactly
    one per node when there is no panic; the only panic is the division by
    zero, and it leaves the node that raised it without a line. *)
Theorem Eval_appends_a_line_per_node (nodes : list Node) (stdout : list string) :
  exists lines,
    fst (Eval nodes stdout) = stdout ++ lines
    /\ match snd (Eval nodes stdout) with
       | None => List.length lines = List.length nodes
       | Some p => p = IntegerDivideByZero /\ (List.length lines < List.length nodes)%nat
       end.
Proof.
  revert stdout. induction nodes as [|n nodes IH]; intros stdout; simpl.
  - exists []. rewrite app_nil_r. split; reflexivity.
  - destruct (Execute n) as [line|p] eqn:E.
    + destruct (IH (stdout ++ [line])) as [lines [H1 H2]].
      exists (line :: lines). rewrite H1, <- app_assoc. split; [reflexivity|].
      destruct (snd (Eval nodes (stdout ++ [line]))); simpl; [|lia].
      destruct H2 as [-> H2]. split; [reflexivity | lia].
    + exists []. simpl. rewrite app_nil_r. split; [reflexivity|].
      split; [|lia]. eapply Execute_panic_kind, E.
Qed.

(* ================================================================== *)
(** * What the lexer can and cannot do *)

Lemma Lex_panic_kind (input : string) (p : panic) :
  Lex input = Panic p -> p = SliceBoundsOutOfRange.
Proof.
  unfold Lex. apply (forRange_only lexStatement).
  intros st y q. apply lexStatement_panic.
Qed.

(** X5. The lexer either returns tokens or panics in a slice expression,
    out of bounds: it has no other failure, and none of its own. *)
Theorem Lex_returns_or_slices_out_of_bounds (input : string) :
  (exists tokens, Lex input = Ok tokens) \/ Lex input = Panic SliceBoundsOutOfRange.
Proof.
  destruct (Lex input) as [tokens|p] eqn:E; [left; eauto|].
  right. f_equal. eapply Lex_panic_kind, E.
Qed.

Lemma forRange_invariant {A S : Type} (body : S -> A -> result S) (P : S -> Prop) :
  (forall st x st', P st -> body st x = Ok st' -> P st') ->
  forall l st st', P st -> forRange body st l = Ok st' -> P st'.
Proof.
  intros Hbody l. induction l as [|x l IH]; intros st st' Hst; simpl.
  - intros [= <-]. exact Hst.
  - destruct (body st x) as [st1|p] eqn:E; simpl; [|discriminate].
    apply IH. eapply Hbody; eassumption.
Qed.

Lemma lexWord_tokens (tokens : list Token) (word : string) :
  lexWord tokens word = Ok (tokens ++ wordTokens word).
Proof.
  unfold lexWord, wordTokens. destruct (String.eqb word "console"); [reflexivity|].
  destruct (String.eqb word "log"); [reflexivity|]. rewrite app_nil_r. reflexivity.
Qed.

Lemma wordTokens_lexed (word : string) : Forall lexed (wordTokens word).
Proof.
  unfold wordTokens. destruct (String.eqb word "console") eqn:E.
  - apply String.eqb_eq in E. subst. repeat constructor.
  - destruct (String.eqb word "log") eqn:E'; [|constructor].
    apply String.eqb_eq in E'. subst. constructor; [|constructor]. right. left. reflexivity.
Qed.

Lemma bind_ok {A B : Type} (r : result A) (k : A -> result B) (b : B) :
  bind r k = Ok b -> exists a, r = Ok a /\ k a = Ok b.
Proof. destruct r as [a|p]; simpl; intros H; [eauto | discriminate]. Qed.

(** The tokens an argument adds: they are of the lexer's kinds and the
    last of them is a String or an Int. *)
Lemma lexArgument_adds (tokens tokens' : list Token) (arg : string) :
  lexArgument tokens arg = Ok tokens' ->
  exists added t,
    tokens' = tokens ++ added ++ [t]
    /\ Forall lexed (added ++ [t])
    /\ (Type_ t = TokenString \/ Type_ t = TokenInt).
Proof.
  unfold lexArgument.
  destruct (strings.HasPrefix _ dquote && strings.HasSuffix _ dquote).
  - intros H. apply bind_ok in H. destruct H as [lit [_ [= <-]]].
    exists [], (mkToken TokenString lit). split; [reflexivity|]. split.
    + constructor; [|constructor]. right. right. right. left. reflexivity.
    + left. reflexivity.
  - destruct (strings.ContainsAny _ operators).
    + intros H.
      apply bind_ok in H. destruct H as [a [_ H]].
      apply bind_ok in H. destruct H as [b [_ H]].
      apply bind_ok in H. destruct H as [c [_ H]].
      injection H as <-.
      remember (strings.TrimSpace b) as operator eqn:Eoperator. clear Eoperator.
      set (num1 := mkToken TokenInt (strings.TrimSpace a)).
      set (num2 := mkToken TokenInt (strings.TrimSpace c)).
      assert (Hint : forall s, lexed (mkToken TokenInt s))
        by (intros s; right; right; right; right; reflexivity).
      assert (Hop : forall op, lexed (operatorToken op))
        by (intros op; right; right; left; exists op; reflexivity).
      destruct (String.eqb operator "+") eqn:E1;
        [apply String.eqb_eq in E1; rewrite E1;
         exists [num1; operatorToken Add], num2; rewrite <- !app_assoc;
         split; [reflexivity|]; split; [repeat (apply Forall_cons; [first [apply Hint | apply Hop]|]); apply Forall_nil
               | right; reflexivity]|].
      destruct (String.eqb operator "-") eqn:E2;
        [apply String.eqb_eq in E2; rewrite E2;
         exists [num1; operatorToken Sub], num2; rewrite <- !app_assoc;
         split; [reflexivity|]; split; [repeat (apply Forall_cons; [first [apply Hint | apply Hop]|]); apply Forall_nil
               | right; reflexivity]|].
      destruct (String.eqb operator "*") eqn:E3;
        [apply String.eqb_eq in E3; rewrite E3;
         exists [num1; operatorToken Mul], num2; rewrite <- !app_assoc;
         split; [reflexivity|]; split; [repeat (apply Forall_cons; [first [apply Hint | apply Hop]|]); apply Forall_nil
               | right; reflexivity]|].
      destruct (String.eqb operator "/") eqn:E4;
        [apply String.eqb_eq in E4; rewrite E4;
         exists [num1; operatorToken Div], num2; rewrite <- !app_assoc;
         split; [reflexivity|]; split; [repeat (apply Forall_cons; [first [apply Hint | apply Hop]|]); apply Forall_nil
               | right; reflexivity]|].
      destruct (String.eqb operator "%") eqn:E5;
        [apply String.eqb_eq in E5; rewrite E5;
         exists [num1; operatorToken Mod], num2; rewrite <- !app_assoc;
         split; [reflexivity|]; split; [repeat (apply Forall_cons; [first [apply Hint | apply Hop]|]); apply Forall_nil
               | right; reflexivity]|].
      destruct (String.eqb operator "^") eqn:E6;
        [apply String.eqb_eq in E6; rewrite E6;
         exists [num1; operatorToken Pow], num2; rewrite <- !app_assoc;
         split; [reflexivity|]; split; [repeat (apply Forall_cons; [first [apply Hint | apply Hop]|]); apply Forall_nil
               | right; reflexivity]|].
      exists [num1], num2. rewrite <- !app_assoc.
      split; [reflexivity|]; split; [repeat (apply Forall_cons; [first [apply Hint | apply Hop]|]); apply Forall_nil
               | right; reflexivity].
    + intros [= <-]. exists [], (mkToken TokenInt (strings.TrimSpace arg)).
      split; [reflexivity|]. split.
      * constructor; [|constructor]. right. right. right. right. reflexivity.
      * right. reflexivity.
Qed.

Lemma forRange_lexWord_tokens (words : list string) (tokens : list Token) :
  forRange lexWord tokens words = Ok (tokens ++ flat_map wordTokens words).
Proof.
  revert tokens. induction words as [|w words IH]; intros tokens; simpl.
  - rewrite app_nil_r. reflexivity.
  - rewrite lexWord_tokens. simpl. rewrite IH, <- app_assoc. reflexivity.
Qed.

Lemma Split_nonempty (s : string) (sep : ascii) : strings.Split s sep <> [].
Proof.
  induction s as [|a r IH]; simpl; [discriminate|].
  destruct (Ascii.eqb a sep); [discriminate|].
  destruct (strings.Split r sep); [congruence | discriminate].
Qed.

Lemma forRange_lexArgument_ends (arguments : list string) :
  arguments <> [] ->
  forall tokens tokens',
    forRange lexArgument tokens arguments = Ok tokens' ->
    endsInArgument tokens'.
Proof.
  induction arguments as [|a l IH]; intros Hne tokens tokens'; [congruence|].
  simpl. intros H. apply bind_ok in H. destruct H as [t1 [Ha H]].
  destruct l as [|b l].
  - simpl in H. injection H as <-.
    destruct (lexArgument_adds _ _ _ Ha) as [added [t [-> [_ Ht]]]].
    right. exists (tokens ++ added), t. rewrite <- app_assoc. split; [reflexivity | exact Ht].
  - eapply IH; [discriminate | exact H].
Qed.

Lemma lexStatement_invariants (tokens tokens' : list Token) (stmt : string) :
  lexStatement tokens stmt = Ok tokens' ->
  (Forall lexed tokens -> Forall lexed tokens')
  /\ (endsInArgument tokens -> endsInArgument tokens').
Proof.
  unfold lexStatement. destruct (String.eqb _ ""); [intros [= <-]; tauto|].
  intros H.
  apply bind_ok in H. destruct H as [head [_ H]].
  apply bind_ok in H. destruct H as [inner [_ H]].
  rewrite forRange_lexWord_tokens in H. cbn [bind] in H.
  split.
  - intros Hall.
    apply (forRange_invariant lexArgument (Forall lexed)) in H; [exact H | |].
    + intros st x st' Hst Hx. destruct (lexArgument_adds _ _ _ Hx) as [added [t [-> [Hl _]]]].
      apply Forall_app. split; assumption.
    + apply Forall_app. split; [exact Hall|].
      apply Forall_flat_map. apply Forall_forall. intros w _. apply wordTokens_lexed.
  - intros _. eapply forRange_lexArgument_ends; [apply Split_nonempty | exact H].
Qed.

Lemma Lex_ends_in_argument (input : string) (tokens : list Token) :
  Lex input = Ok tokens -> endsInArgument tokens.
Proof.
  unfold Lex. apply (forRange_invariant lexStatement endsInArgument).
  - intros st x st' Hst Hx. apply (lexStatement_invariants _ _ _ Hx), Hst.
  - left. reflexivity.
Qed.

(** X6. The tokens the lexer returns are of its own kinds only, Console
    and Log with their words, the operators with their characters, String
    and Int; and the last of them, if there is any, is a String or an Int,
    never a keyword or an operator. *)
Theorem Lex_tokens_well_formed (input : string) (tokens : list Token) :
  Lex input = Ok tokens ->
  Forall lexed tokens /\ endsInArgument tokens.
Proof.
  intros H. split; [|eapply Lex_ends_in_argument, H].
  revert H. unfold Lex. apply (forRange_invariant lexStatement (Forall lexed)).
  - intros st x st' Hst Hx. apply (lexStatement_invariants _ _ _ Hx), Hst.
  - constructor.
Qed.

Lemma Lex_tokens_well_formed_witness :
  Forall lexed [mkToken TokenConsole "console"; mkToken TokenLog "log";
                mkToken TokenInt "1"; mkToken TokenPlus "+"; mkToken TokenInt "2*3"]
  /\ endsInArgument [mkToken TokenConsole "console"; mkToken TokenLog "log";
                     mkToken TokenInt "1"; mkToken TokenPlus "+"; mkToken TokenInt "2*3"].
Proof.
  apply (Lex_tokens_well_formed "console.log(1+2*3);"). vm_compute. reflexivity.
Defined.

(* ================================================================== *)
(** * How the lexer composes *)

Lemma Split_app (a b : string) (sep : ascii) :
  strings.Split (a ++ String sep b) sep = strings.Split a sep ++ strings.Split b sep.
Proof.
  induction a as [|c a IH]; simpl.
  - rewrite Ascii.eqb_refl. reflexivity.
  - destruct (Ascii.eqb c sep); [rewrite IH; reflexivity|].
    rewrite IH. pose proof (Split_nonempty a sep) as Hne.
    destruct (strings.Split a sep); [congruence | reflexivity].
Qed.

(** A loop whose turns only append to the state appends what it would
    append to the empty state. *)
Lemma forRange_appends {A B : Type} (body : list B -> A -> result (list B)) :
  (forall st x, body st x = d <- body [] x ;; Ok (st ++ d)) ->
  forall l st, forRange body st l = d <- forRange body [] l ;; Ok (st ++ d).
Proof.
  intros Hbody l. induction l as [|x l IH]; intros st; simpl.
  - rewrite app_nil_r. reflexivity.
  - rewrite (Hbody st x). destruct (body [] x) as [d|p]; simpl; [|reflexivity].
    rewrite (IH (st ++ d)), (IH d).
    destruct (forRange body [] l) as [d'|p]; simpl; [|reflexivity].
    rewrite app_assoc. reflexivity.
Qed.

Lemma lexArgument_appends (tokens : list Token) (arg : string) :
  lexArgument tokens arg = d <- lexArgument [] arg ;; Ok (tokens ++ d).
Proof.
  unfold lexArgument.
  destruct (strings.HasPrefix _ dquote && strings.HasSuffix _ dquote).
  - destruct (slice _ 1 _); reflexivity.
  - destruct (strings.ContainsAny _ operators); [|reflexivity].
    destruct (slice _ 0 _) as [a|]; cbn [bind]; [|reflexivity].
    destruct (slice _ _ (_ + 1)) as [b|]; cbn [bind]; [|reflexivity].
    destruct (slice _ (_ + 1) _) as [c|]; cbn [bind]; [|reflexivity].
    cbn [app].
    repeat match goal with
           | |- context [if String.eqb ?x ?y then _ else _] => destruct (String.eqb x y)
           end; cbn [app]; rewrite <- ?app_assoc; reflexivity.
Qed.

Lemma lexStatement_appends (tokens : list Token) (stmt : string) :
  lexStatement tokens stmt = d <- lexStatement [] stmt ;; Ok (tokens ++ d).
Proof.
  unfold lexStatement. destruct (String.eqb _ ""); [cbn [bind]; rewrite app_nil_r; reflexivity|].
  destruct (slice _ 0 _) as [head|]; cbn [bind]; [|reflexivity].
  destruct (slice _ _ _) as [inner|]; cbn [bind]; [|reflexivity].
  rewrite !forRange_lexWord_tokens. cbn [bind app].
  rewrite (forRange_appends lexArgument lexArgument_appends _ (tokens ++ _)).
  rewrite (forRange_appends lexArgument lexArgument_appends _ (flat_map _ _)).
  destruct (forRange lexArgument [] _) as [d|]; cbn [bind]; [|reflexivity].
  rewrite app_assoc. reflexivity.
Qed.

Lemma Lex_app_aux (a b : string) :
  Lex (a ++ String ";" b)
  = ta <- Lex a ;; tb <- Lex b ;; Ok (ta ++ tb).
Proof.
  unfold Lex. rewrite Split_app, forRange_app.
  destruct (forRange lexStatement [] (strings.Split a ";")) as [ta|p]; cbn [bind]; [|reflexivity].
  apply (forRange_appends lexStatement lexStatement_appends).
Qed.

(** X7. The lexer works statement by statement: the tokens of two texts
    joined by a semicolon are the tokens of the first followed by the
    tokens of the second, and the first panic of the two is the panic of
    the whole; a semicolon after the last statement changes nothing. *)
Theorem Lex_app (a b : string) :
  Lex (a ++ String ";" b) = (ta <- Lex a ;; tb <- Lex b ;; Ok (ta ++ tb))
  /\ Lex (a ++ String ";" "") = Lex a.
Proof.
  split; [apply Lex_app_aux|].
  rewrite Lex_app_aux. destruct (Lex a) as [ta|p]; [|reflexivity].
  change (Lex "") with (@Ok (list Token) []). cbn [bind]. rewrite app_nil_r. reflexivity.
Qed.

Lemma forRange_blank (segments : list string) (tokens : list Token) :
  (forall s, In s segments -> strings.TrimSpace s = "") ->
  forRange lexStatement tokens segments = Ok tokens.
Proof.
  induction segments as [|s l IH]; intros H; simpl; [reflexivity|].
  unfold lexStatement at 1. rewrite (H s (or_introl eq_refl)). cbn [String.eqb bind].
  apply IH. intros s' Hs'. apply H. right. exact Hs'.
Qed.

(** X8. A text all of whose statements are blank, the empty text among
    them, has no tokens: the lexer skips empty statements, nothing is
    parsed and nothing is printed. *)
Theorem blank_program_prints_nothing (input : string) :
  (forall s, In s (strings.Split input ";") -> strings.TrimSpace s = "") ->
  Lex input = Ok [] /\ Interpret input = ([], None).
Proof.
  intros H. assert (E : Lex input = Ok []) by (apply forRange_blank, H).
  split; [exact E|]. unfold Interpret. rewrite E. reflexivity.
Qed.

Lemma blank_program_prints_nothing_witness :
  Lex " ; ;; " = Ok [] /\ Interpret " ; ;; " = ([], None).
Proof.
  apply (blank_program_prints_nothing " ; ;; ").
  intros s H. simpl in H.
  repeat (destruct H as [<-|H]; [reflexivity|]). contradiction.
Defined.


(* ================================================================== *)
(** * What the parser builds *)

Lemma index_In (tokens : list Token) (i : nat) (t : Token) :
  index tokens i = Ok t -> In t tokens.
Proof.
  unfold index. destruct (nth_error tokens i) as [t'|] eqn:E; [|discriminate].
  intros [= <-]. eapply nth_error_In, E.
Qed.

Lemma parseArgument_parsed (tokens : list Token) (i i' : nat) (args args' : list Node) :
  parseArgument tokens i args = Ok (args', i') ->
  Forall (parsedArgument tokens) args -> Forall (parsedArgument tokens) args'.
Proof.
  unfold parseArgument. intros H Hargs.
  apply bind_ok in H. destruct H as [t [Ht H]]. pose proof (index_In _ _ _ Ht) as Hin.
  destruct (String.eqb (Type_ t) TokenString) eqn:Es.
  { injection H as <- <-. apply String.eqb_eq in Es.
    apply Forall_app. split; [exact Hargs|]. constructor; [|constructor].
    left. exists t. auto. }
  destruct (String.eqb (Type_ t) TokenInt) eqn:Ei; [|injection H as <- <-; exact Hargs].
  apply String.eqb_eq in Ei.
  assert (Hbare : Forall (parsedArgument tokens) (args ++ [IntNode (Literal t)])).
  { apply Forall_app. split; [exact Hargs|]. constructor; [|constructor].
    right. left. exists t. auto. }
  destruct (i + 2 <? List.length tokens)%nat; [|injection H as <- <-; exact Hbare].
  apply bind_ok in H. destruct H as [t2 [Ht2 H]]. pose proof (index_In _ _ _ Ht2) as Hin2.
  destruct (String.eqb (Type_ t2) TokenInt) eqn:Ei2; [|injection H as <- <-; exact Hbare].
  apply String.eqb_eq in Ei2.
  apply bind_ok in H. destruct H as [t1 [_ H]]. injection H as <- <-.
  assert (Hbin : forall op, Forall (parsedArgument tokens)
                              (args ++ [BinaryOp op (IntNode (Literal t)) (IntNode (Literal t2))])).
  { intros op. apply Forall_app. split; [exact Hargs|]. constructor; [|constructor].
    right. right. exists op, t, t2. auto 6. }
  destruct (String.eqb (Type_ t1) TokenPlus); [apply (Hbin Add)|].
  destruct (String.eqb (Type_ t1) TokenMinus); [apply (Hbin Sub)|].
  destruct (String.eqb (Type_ t1) TokenMultiply); [apply (Hbin Mul)|].
  destruct (String.eqb (Type_ t1) TokenDivide); [apply (Hbin Div)|].
  destruct (String.eqb (Type_ t1) TokenModulo); [apply (Hbin Mod)|].
  destruct (String.eqb (Type_ t1) TokenPower); [apply (Hbin Pow)|].
  exact Hargs.
Qed.

Lemma parseArguments_parsed (tokens : list Token) (fuel : nat) :
  forall i i' args args',
    parseArguments fuel tokens i args = Ok (args', i') ->
    Forall (parsedArgument tokens) args -> Forall (parsedArgument tokens) args'.
Proof.
  induction fuel as [|fuel IH]; intros i i' args args'; cbn [parseArguments].
  - intros [= <- <-]. auto.
  - destruct (i <? List.length tokens)%nat; [|intros [= <- <-]; auto].
    intros H. apply bind_ok in H. destruct H as [t [_ H]].
    destruct (negb (String.eqb (Type_ t) TokenConsole)); [|injection H as <- <-; auto].
    apply bind_ok in H. destruct H as [[args1 i1] [H1 H]].
    intros Hargs. eapply IH; [exact H|]. eapply parseArgument_parsed; eassumption.
Qed.

Lemma parseStatements_parsed (tokens : list Token) (fuel : nat) :
  forall i nodes nodes',
    parseStatements fuel tokens i nodes = Ok nodes' ->
    Forall (parsedStatement tokens) nodes -> Forall (parsedStatement tokens) nodes'.
Proof.
  induction fuel as [|fuel IH]; intros i nodes nodes'; cbn [parseStatements].
  - intros [= <-]. auto.
  - destruct (i <? List.length tokens)%nat; [|intros [= <-]; auto].
    intros H. apply bind_ok in H. destruct H as [t [_ H]].
    destruct (String.eqb (Type_ t) TokenConsole); [|discriminate].
    apply bind_ok in H. destruct H as [t1 [_ H]].
    destruct (String.eqb (Type_ t1) TokenLog); [|discriminate].
    apply bind_ok in H. destruct H as [[args i1] [H1 H]].
    intros Hnodes. eapply IH; [exact H|].
    apply Forall_app. split; [exact Hnodes|]. constructor; [|constructor].
    exists args. split; [reflexivity|].
    eapply parseArguments_parsed; [exact H1 | constructor].
Qed.

Lemma Parse_parsed (tokens : list Token) (nodes : list Node) :
  Parse tokens = Ok nodes -> Forall (parsedStatement tokens) nodes.
Proof. intros H. eapply parseStatements_parsed; [exact H | constructor]. Qed.

(** X9. The parser makes flat trees from the tokens it is given and
    nothing else: every node it returns is a LogCall, and every argument
    of it is the literal of a String token, the literal of an Int token,
    or one operator on the literals of two Int tokens; no
    operation is nested and no text is invented. *)
Theorem Parse_builds_flat_statements (tokens : list Token) (nodes : list Node) :
  Parse tokens = Ok nodes -> Forall (parsedStatement tokens) nodes.
Proof. apply Parse_parsed. Qed.

Lemma Parse_builds_flat_statements_witness :
  Forall (parsedStatement [mkToken TokenConsole "console"; mkToken TokenLog "log";
                           mkToken TokenString "sum:"; mkToken TokenInt "2";
                           mkToken TokenPlus "+"; mkToken TokenInt "3"])
    [ConsoleLogNode [StringNode "sum:"; PlusNode (IntNode "2") (IntNode "3")]].
Proof.
  apply (Parse_builds_flat_statements
           [mkToken TokenConsole "console"; mkToken TokenLog "log";
            mkToken TokenString "sum:"; mkToken TokenInt "2";
            mkToken TokenPlus "+"; mkToken TokenInt "3"]).
  vm_compute. reflexivity.
Defined.

(* ================================================================== *)
(** * How the parser fails *)

Lemma nth_error_last (tokens : list Token) (i : nat) (t : Token) :
  nth_error tokens i = Some t -> (List.length tokens <= i + 1)%nat ->
  exists pre, tokens = pre ++ [t].
Proof.
  revert i. induction tokens as [|a l IH]; intros i H Hlen; [destruct i; discriminate|].
  destruct i as [|i]; simpl in H.
  - injection H as <-. destruct l; [|simpl in Hlen; lia]. exists []. reflexivity.
  - destruct (IH i H) as [pre ->]; [simpl in Hlen; lia|].
    exists (a :: pre). reflexivity.
Qed.

Lemma parseStatements_panic (tokens : list Token) (fuel : nat) :
  forall i nodes p,
    parseStatements fuel tokens i nodes = Panic p ->
    p = InvalidSyntax
    \/ (p = IndexOutOfRange
        /\ exists pre t, tokens = pre ++ [t] /\ Type_ t = TokenConsole).
Proof.
  induction fuel as [|fuel IH]; intros i nodes p; cbn [parseStatements]; [discriminate|].
  destruct (i <? List.length tokens)%nat eqn:G; [|discriminate].
  destruct (index_guarded _ _ G) as [t Et]. rewrite Et. cbn [bind].
  destruct (String.eqb (Type_ t) TokenConsole) eqn:Ec; [|intros [= <-]; left; reflexivity].
  apply String.eqb_eq in Ec.
  unfold index at 1. destruct (nth_error tokens (i + 1)) as [t1|] eqn:E1; cbn [bind].
  - destruct (String.eqb (Type_ t1) TokenLog); [|intros [= <-]; left; reflexivity].
    destruct (parseArguments_total tokens (List.length tokens) (i + 2) [])
      as [args [i' [_ Hall]]]; [lia|].
    rewrite (Hall (List.length tokens)) by lia. cbn [bind]. apply IH.
  - intros [= <-]. right. split; [reflexivity|].
    apply nth_error_None in E1.
    assert (Hn : nth_error tokens i = Some t).
    { unfold index in Et. destruct (nth_error tokens i); congruence. }
    destruct (nth_error_last tokens i t Hn ltac:(lia)) as [pre ->].
    exists pre, t. split; [reflexivity | exact Ec].
Qed.

(** X10. The parser has two failures and no other: its own panic,
    Invalid syntax, and the index out of range, which it only meets when
    the very last token is a Console; the collection of the arguments
    never fails. *)
Theorem Parse_fails_in_two_ways (tokens : list Token) (p : panic) :
  Parse tokens = Panic p ->
  p = InvalidSyntax
  \/ (p = IndexOutOfRange
      /\ exists pre t, tokens = pre ++ [t] /\ Type_ t = TokenConsole).
Proof. apply parseStatements_panic. Qed.

Lemma Parse_fails_in_two_ways_witness :
  IndexOutOfRange = InvalidSyntax
  \/ (IndexOutOfRange = IndexOutOfRange
      /\ exists pre t,
          [mkToken TokenConsole "console"; mkToken TokenLog "log";
           mkToken TokenConsole "console"] = pre ++ [t]
          /\ Type_ t = TokenConsole).
Proof.
  apply (Parse_fails_in_two_ways
           [mkToken TokenConsole "console"; mkToken TokenLog "log";
            mkToken TokenConsole "console"]).
  vm_compute. reflexivity.
Defined.

(* ================================================================== *)
(** * How the pipeline fails *)

Lemma Eval_panic_kind (nodes : list Node) (stdout stdout' : list string) (p : panic) :
  Eval nodes stdout = (stdout', Some p) -> p = IntegerDivideByZero.
Proof.
  revert stdout. induction nodes as [|n nodes IH]; intros stdout; simpl; [discriminate|].
  destruct (Execute n) as [line|q] eqn:E; [apply IH|].
  intros [= _ <-]. eapply Execute_panic_kind, E.
Qed.

Lemma Console_not_argument (t : Token) :
  Type_ t = TokenConsole -> ~ (Type_ t = TokenString \/ Type_ t = TokenInt).
Proof. intros -> [H|H]; discriminate. Qed.

(** X11. On any source text the pipeline ends in one of four ways: it
    prints its lines, or the lexer slices out of bounds, or the parser
    panics with Invalid syntax, or a division by zero stops the
    evaluation. The index out of range of the parser is out of reach of
    any text, since the lexer never ends the tokens with a Console; and
    only the division by zero leaves lines behind. *)
Theorem Interpret_failures (input : string) (stdout : list string) (p : panic) :
  Interpret input = (stdout, Some p) ->
  (p = SliceBoundsOutOfRange /\ stdout = [] /\ Lex input = Panic p)
  \/ (p = InvalidSyntax /\ stdout = []
      /\ exists tokens, Lex input = Ok tokens /\ Parse tokens = Panic p)
  \/ p = IntegerDivideByZero.
Proof.
  unfold Interpret. destruct (Lex input) as [tokens|q] eqn:EL.
  - destruct (Parse tokens) as [nodes|q] eqn:EP.
    + intros H. right. right. eapply Eval_panic_kind, H.
    + intros [= <- <-]. right. left.
      destruct (parseStatements_panic _ _ _ _ _ EP) as [->|[-> [pre [t [E Ht]]]]].
      * repeat split. exists tokens. split; [reflexivity | exact EP].
      * exfalso. destruct (Lex_ends_in_argument _ _ EL) as [Hnil|[pre' [t' [E' Ht']]]].
        -- subst tokens. destruct pre; discriminate.
        -- rewrite E in E'. apply app_inj_tail in E'. destruct E' as [_ <-].
           exact (Console_not_argument t Ht Ht').
  - intros [= <- <-]. left. repeat split. f_equal. eapply Lex_panic_kind, EL.
Qed.

Lemma Interpret_failures_witness :
  (InvalidSyntax = SliceBoundsOutOfRange /\ @nil string = []
   /\ Lex "log.console(1)" = Panic InvalidSyntax)
  \/ (InvalidSyntax = InvalidSyntax /\ @nil string = []
      /\ exists tokens, Lex "log.console(1)" = Ok tokens
                        /\ Parse tokens = Panic InvalidSyntax)
  \/ InvalidSyntax = IntegerDivideByZero.
Proof.
  apply (Interpret_failures "log.console(1)" [] InvalidSyntax).
  vm_compute. reflexivity.
Defined.

(* ================================================================== *)
(** * Statements of strings and of bare arguments, through the pipeline *)

Lemma append_empty (s : string) : (s ++ "")%string = s.
Proof. induction s as [|c s IH]; simpl; [reflexivity | now rewrite IH]. Qed.

Lemma IndexAny_free (s chars : string) :
  freeOf chars s -> strings.IndexAny s chars = -1.
Proof.
  induction s as [|a r IH]; simpl; intros H; [reflexivity|].
  apply freeOf_String in H. destruct H as [Ha Hr]. rewrite Ha, (IH Hr). reflexivity.
Qed.

(** An argument without quotes around it and without operator is one Int
    token, whatever its text. *)
Lemma lexArgument_bare (tokens : list Token) (raw : string) :
  quoted (strings.TrimSpace raw) = false ->
  freeOf operators (strings.TrimSpace raw) ->
  lexArgument tokens raw = Ok (tokens ++ [mkToken TokenInt (strings.TrimSpace raw)]).
Proof.
  intros Hq Hfree. unfold lexArgument. unfold quoted in Hq. rewrite Hq.
  unfold strings.ContainsAny. rewrite (IndexAny_free _ _ Hfree). reflexivity.
Qed.

Lemma quoteArg_quoted (text : string) : quoted (quoteArg text) = true.
Proof.
  unfold quoted, quoteArg, strings.HasPrefix, strings.HasSuffix, dquote.
  cbn [append String.prefix].
  destruct (ascii_dec "034" "034") as [_|H]; [|congruence].
  assert (Hp : String.prefix "" (text ++ String "034" "") = true) by (destruct (text ++ _)%string; reflexivity).
  rewrite Hp. cbn [andb].
  change (String "034" (text ++ String "034" ""))%string
    with (String "034" text ++ String "034" "")%string.
  rewrite length_app. cbn [String.length]. apply andb_true_iff. split.
  - apply Nat.leb_le. lia.
  - replace (S (String.length text) + 1 - 1)%nat with (String.length (String "034" text))
      by (cbn [String.length]; lia).
    rewrite drop_app. apply String.eqb_refl.
Qed.

(** An argument in double quotes is one String token with the text
    between the quotes, taken as it is. *)
Lemma lexArgument_quoted (tokens : list Token) (raw text : string) :
  strings.TrimSpace raw = quoteArg text ->
  lexArgument tokens raw = Ok (tokens ++ [stringToken text]).
Proof.
  intros H. unfold lexArgument. rewrite H.
  pose proof (quoteArg_quoted text) as Hq. unfold quoted in Hq. rewrite Hq.
  unfold quoteArg.
  replace (len (dquote ++ text ++ dquote) - 1) with (len dquote + len text)
    by (rewrite !len_app; change (len dquote) with 1; lia).
  change 1 with (len dquote) at 1. rewrite slice_middle. reflexivity.
Qed.

Lemma quote_plain : plain "034".
Proof. split; reflexivity. Qed.

Lemma TrimSpace_quoteArg (text : string) : strings.TrimSpace (quoteArg text) = quoteArg text.
Proof.
  apply (TrimSpace_plain _ "034" "034"); try apply quote_plain; [reflexivity|].
  unfold quoteArg. rewrite <- append_assoc. unfold dquote at 2. apply lastByte_app.
Qed.

Lemma free_logCall (inner : string) : free ";" inner -> free ";" (logCall inner).
Proof.
  intros H. unfold logCall. apply free_app. split; [vm_compute; intuition discriminate|].
  apply free_String. split; [discriminate|].
  apply free_app. split; [exact H | vm_compute; intuition discriminate].
Qed.

Lemma TrimSpace_logCall (inner : string) : strings.TrimSpace (logCall inner) = logCall inner.
Proof.
  apply (TrimSpace_plain _ "c" ")"); [reflexivity | | split; reflexivity | split; reflexivity].
  unfold logCall.
  change ("console.log" ++ String "(" (inner ++ String ")" ""))%string
    with ("console.log" ++ (String "(" inner ++ String ")" ""))%string.
  rewrite <- append_assoc, lastByte_app. reflexivity.
Qed.

(** The lexer on [console.log(inner);]: the two keywords, then the
    arguments of [inner]. *)
Lemma Lex_logStatement (inner : string) :
  free ";" inner ->
  Lex (logStatement inner)
  = forRange lexArgument [mkToken TokenConsole "console"; mkToken TokenLog "log"]
      (strings.Split inner ",").
Proof.
  intros H. unfold Lex, logStatement.
  rewrite (Split_first (logCall inner) "" ";" (free_logCall inner H)).
  cbn [strings.Split forRange].
  rewrite (lexStatement_call [] (logCall inner) "console.log" inner "").
  - change (forRange lexWord [] (strings.FieldsFunc "console.log" isSeparator))
      with (Ok [mkToken TokenConsole "console"; mkToken TokenLog "log"]).
    cbn [bind].
    destruct (forRange lexArgument _ _) as [tokens|p]; cbn [bind]; reflexivity.
  - apply TrimSpace_logCall.
  - vm_compute; intuition discriminate.
  - intros [].
Qed.

(** X12. A statement whose one argument has no quotes around it, no
    operator, no comma and no semicolon prints that argument, trimmed and
    otherwise as it is written: the text of an Int token is never checked
    to be a number. *)
Theorem bare_argument_printed_verbatim (text : string) :
  free ";" text ->
  free "," text ->
  quoted (strings.TrimSpace text) = false ->
  freeOf operators (strings.TrimSpace text) ->
  Lex (logStatement text)
  = Ok [mkToken TokenConsole "console"; mkToken TokenLog "log";
        mkToken TokenInt (strings.TrimSpace text)]
  /\ Interpret (logStatement text) = ([strings.TrimSpace text], None).
Proof.
  intros Hsemi Hcomma Hq Hops.
  assert (E : Lex (logStatement text)
              = Ok [mkToken TokenConsole "console"; mkToken TokenLog "log";
                    mkToken TokenInt (strings.TrimSpace text)]).
  { rewrite (Lex_logStatement text Hsemi), (Split_free _ _ Hcomma). cbn [forRange].
    rewrite (lexArgument_bare _ _ Hq Hops). reflexivity. }
  split; [exact E|]. unfold Interpret. rewrite E. reflexivity.
Qed.

Lemma bare_argument_printed_verbatim_witness :
  Lex (logStatement " hello world ")
  = Ok [mkToken TokenConsole "console"; mkToken TokenLog "log";
        mkToken TokenInt (strings.TrimSpace " hello world ")]
  /\ Interpret (logStatement " hello world ")
     = ([strings.TrimSpace " hello world "], None).
Proof.
  apply (bare_argument_printed_verbatim " hello world ").
  - vm_compute. intuition discriminate.
  - vm_compute. intuition discriminate.
  - reflexivity.
  - intros c H. vm_compute in H.
    repeat (destruct H as [<-|H]; [reflexivity|]). contradiction.
Defined.

Example Interpret_bare_arguments :
  Interpret "console.log(42);" = (["42"], None)
  /\ Interpret "console.log( hello world );" = (["hello world"], None)
  /\ Interpret "console.log();" = ([""], None)
  /\ Interpret "console.log(1, 2);" = (["1 2"], None).
Proof. repeat split; vm_compute; reflexivity. Qed.

Lemma free_quoteArg (c : ascii) (text : string) :
  c <> "034"%char -> free c text -> free c (quoteArg text).
Proof.
  intros Hc H. unfold quoteArg, dquote. apply free_app. split.
  - apply free_String. split; [congruence | intros []].
  - apply free_app. split; [exact H|]. apply free_String. split; [congruence | intros []].
Qed.

Lemma concat_cons (sep x : string) (l : list string) :
  l <> [] -> String.concat sep (x :: l) = (x ++ sep ++ String.concat sep l)%string.
Proof. destruct l; [congruence | reflexivity]. Qed.

Lemma free_concat (c sep : ascii) (pieces : list string) :
  c <> sep -> Forall (free c) pieces -> free c (String.concat (String sep "") pieces).
Proof.
  intros Hc H. induction H as [|x l Hx Hl IH]; [intros []|].
  destruct l as [|y l]; [exact Hx|].
  rewrite concat_cons by discriminate.
  apply free_app. split; [exact Hx|]. apply free_String. split; [congruence | exact IH].
Qed.

(** Pieces without the separator, joined by it, split into the pieces. *)
Lemma Split_concat (sep : ascii) (pieces : list string) :
  pieces <> [] -> Forall (free sep) pieces ->
  strings.Split (String.concat (String sep "") pieces) sep = pieces.
Proof.
  intros Hne H. induction H as [|x l Hx Hl IH]; [congruence|].
  destruct l as [|y l]; [apply Split_free, Hx|].
  rewrite concat_cons by discriminate.
  change (x ++ String sep "" ++ String.concat (String sep "") (y :: l))%string
    with (x ++ String sep (String.concat (String sep "") (y :: l)))%string.
  rewrite (Split_first _ _ _ Hx), IH by discriminate. reflexivity.
Qed.

Lemma forRange_lexArgument_quoted (texts : list string) (tokens : list Token) :
  forRange lexArgument tokens (map quoteArg texts) = Ok (tokens ++ map stringToken texts).
Proof.
  revert tokens. induction texts as [|t l IH]; intros tokens; simpl.
  - rewrite app_nil_r. reflexivity.
  - rewrite (lexArgument_quoted tokens _ t (TrimSpace_quoteArg t)). cbn [bind].
    rewrite IH, <- app_assoc. reflexivity.
Qed.

(** The inner loop of the parser over String tokens up to the end. *)
Lemma parseArguments_strings (texts : list string) :
  forall (pre : list Token) (args : list Node) (fuel : nat),
    (List.length texts <= fuel)%nat ->
    parseArguments fuel (pre ++ map stringToken texts) (List.length pre) args
    = Ok (args ++ map StringNode texts, List.length (pre ++ map stringToken texts)).
Proof.
  induction texts as [|t l IH]; intros pre args fuel Hf.
  - simpl map. rewrite !app_nil_r.
    destruct fuel; cbn [parseArguments]; [reflexivity|].
    rewrite Nat.ltb_irrefl. reflexivity.
  - destruct fuel as [|fuel]; [simpl in Hf; lia|]. cbn [parseArguments].
    assert (Hn : nth_error (pre ++ map stringToken (t :: l)) (List.length pre)
                 = Some (stringToken t)).
    { rewrite nth_error_app2 by lia. rewrite Nat.sub_diag. reflexivity. }
    replace (List.length pre <? List.length (pre ++ map stringToken (t :: l)))%nat with true.
    2:{ symmetry. apply Nat.ltb_lt. rewrite List.length_app. simpl. lia. }
    rewrite (index_Some _ _ _ Hn). cbn [bind].
    change (negb (String.eqb (Type_ (stringToken t)) TokenConsole)) with true. cbv iota.
    unfold parseArgument. rewrite (index_Some _ _ _ Hn). cbn [bind].
    change (String.eqb (Type_ (stringToken t)) TokenString) with true. cbv iota.
    cbn [bind].
    specialize (IH (pre ++ [stringToken t]) (args ++ [StringNode t]) fuel ltac:(simpl in Hf; lia)).
    rewrite <- !app_assoc in IH. cbn [app] in IH. rewrite List.length_app in IH.
    cbn [List.length] in IH. simpl map. cbn [Literal stringToken].
    rewrite IH. rewrite List.length_app. reflexivity.
Qed.

Lemma Parse_strings (texts : list string) :
  Parse ([mkToken TokenConsole "console"; mkToken TokenLog "log"] ++ map stringToken texts)
  = Ok [ConsoleLogNode (map StringNode texts)].
Proof.
  remember ([mkToken TokenConsole "console"; mkToken TokenLog "log"]
            ++ map stringToken texts) as tokens eqn:Et.
  assert (Hlen : List.length tokens = S (S (List.length texts)))
    by (subst tokens; simpl; rewrite List.length_map; reflexivity).
  assert (I0 : index tokens 0 = Ok (mkToken TokenConsole "console"))
    by (subst tokens; reflexivity).
  assert (I1 : index tokens 1 = Ok (mkToken TokenLog "log"))
    by (subst tokens; reflexivity).
  assert (H : parseArguments (List.length tokens) tokens 2 []
              = Ok (map StringNode texts, List.length tokens)).
  { rewrite Hlen at 1. subst tokens.
    apply (parseArguments_strings texts
             [mkToken TokenConsole "console"; mkToken TokenLog "log"] []). lia. }
  unfold Parse. rewrite Hlen at 1. cbn [parseStatements].
  replace (0 <? List.length tokens)%nat with true by (symmetry; apply Nat.ltb_lt; lia).
  change (0 + 1)%nat with 1%nat. change (0 + 2)%nat with 2%nat.
  rewrite I0, I1. cbn [bind Type_].
  change (String.eqb TokenConsole TokenConsole) with true.
  change (String.eqb TokenLog TokenLog) with true. cbv iota.
  rewrite H. cbn [bind app].
  cbn [parseStatements]. rewrite Nat.ltb_irrefl. reflexivity.
Qed.

Lemma executeAll_strings (texts : list string) :
  executeAll (map StringNode texts) = Ok texts.
Proof. induction texts as [|t l IH]; simpl; [reflexivity | rewrite IH; reflexivity]. Qed.

(** X13. A statement of one or more string literals prints the texts
    between the quotes, as they are written and in their order, with one
    space between them; the texts may hold anything but a comma or a
    semicolon, operators and parentheses included. *)
Theorem string_literals_printed_with_spaces (texts : list string) :
  texts <> [] ->
  Forall (fun t => free ";" t /\ free "," t) texts ->
  Interpret (logStatement (String.concat "," (map quoteArg texts)))
  = ([String.concat " " texts], None).
Proof.
  intros Hne Hfree.
  assert (Hsemi : Forall (free ";") (map quoteArg texts)).
  { apply Forall_map. eapply Forall_impl; [|exact Hfree].
    intros t [H _]. apply free_quoteArg; [discriminate | exact H]. }
  assert (Hcomma : Forall (free ",") (map quoteArg texts)).
  { apply Forall_map. eapply Forall_impl; [|exact Hfree].
    intros t [_ H]. apply free_quoteArg; [discriminate | exact H]. }
  unfold Interpret.
  rewrite Lex_logStatement by (apply free_concat; [discriminate | exact Hsemi]).
  rewrite Split_concat; [|destruct texts; [congruence | discriminate] | exact Hcomma].
  rewrite forRange_lexArgument_quoted, Parse_strings.
  cbn [Eval]. rewrite Execute_ConsoleLogNode, executeAll_strings. cbn [bind].
  rewrite Join_concat. reflexivity.
Qed.

Lemma string_literals_printed_with_spaces_witness :
  Interpret (logStatement (String.concat "," (map quoteArg ["a"; "(b + c)"])))
  = ([String.concat " " ["a"; "(b + c)"]], None).
Proof.
  apply (string_literals_printed_with_spaces ["a"; "(b + c)"]); [discriminate|].
  repeat constructor; vm_compute; intuition discriminate.
Defined.

(** A comma ends an argument even between quotes: the two halves are bare
    arguments and keep their quotes. *)
Example Interpret_comma_in_string :
  Interpret (logStatement (quoteArg "a,b")) = ([(dquote ++ "a b" ++ dquote)%string], None).
Proof. vm_compute. reflexivity. Qed.

(* ================================================================== *)
(** * The program as a whole *)

Lemma parsedStatement_typeName (tokens : list Token) (n : Node) (text : string) :
  parsedStatement tokens n -> treeLine n text = statementLine text.
Proof. intros [args [-> _]]. reflexivity. Qed.

(** The dump of the tree executes the statements as [Eval] does: it goes
    as far, prints a line for each line of [Eval] and ends the same way. *)
Lemma dumpTree_mirrors_Eval (tokens : list Token) (ast : list Node) :
  Forall (parsedStatement tokens) ast ->
  forall out out',
  exists lines,
    fst (Eval ast out) = out ++ lines
    /\ fst (dumpTree ast out') = out' ++ map statementLine lines
    /\ snd (dumpTree ast out') = snd (Eval ast out).
Proof.
  induction 1 as [|n ast Hn _ IH]; intros out out'; simpl.
  - exists []. rewrite !app_nil_r. repeat split.
  - destruct (Execute n) as [text|p].
    + destruct (IH (out ++ [text]) (out' ++ [treeLine n text])) as [lines [H1 [H2 H3]]].
      exists (text :: lines). rewrite H1, H2, H3, <- !app_assoc.
      rewrite (parsedStatement_typeName tokens n text Hn). repeat split.
    + exists []. rewrite !app_nil_r. repeat split.
Qed.

Lemma Eval_from (ast : list Node) (out : list string) :
  Eval ast out = (out ++ fst (Eval ast []), snd (Eval ast [])).
Proof.
  revert out. induction ast as [|n ast IH]; intros out; simpl.
  - rewrite app_nil_r. reflexivity.
  - destruct (Execute n) as [text|p]; simpl; [|rewrite app_nil_r; reflexivity].
    rewrite (IH (out ++ [text])), (IH [text]). simpl. rewrite <- app_assoc. reflexivity.
Qed.

(** X14. When the pipeline prints its lines without panic, [main] on the
    file writes the tokens under their header, one line for each
    statement under the header of the tree, and then under the header of
    the output exactly the lines of the pipeline; every statement is
    executed twice, with the same text, and [main] returns. *)
Theorem main_prints_three_sections (Args : list string) (ReadFile : string -> string + string)
  (data : string) (tokens : list Token) (lines : list string) :
  (2 <= List.length Args)%nat ->
  ReadFile (nth 1 Args "") = inl data ->
  Lex data = Ok tokens ->
  Interpret data = (lines, None) ->
  main Args ReadFile
  = (["Tokens:"] ++ map tokenLine tokens
     ++ [treeHeader] ++ map statementLine lines
     ++ [outputHeader] ++ lines, Returns).
Proof.
  intros HArgs Hread Hlex Hrun. unfold main.
  replace (List.length Args <? 2)%nat with false by (symmetry; apply Nat.ltb_ge; lia).
  rewrite Hread, Hlex. unfold Interpret in Hrun. rewrite Hlex in Hrun.
  destruct (Parse tokens) as [ast|p] eqn:EP; [|discriminate].
  destruct (dumpTree_mirrors_Eval tokens ast (Parse_parsed _ _ EP) []
              ((["Tokens:"] ++ map tokenLine tokens) ++ [treeHeader]))
    as [lines' [H1 [H2 H3]]].
  rewrite Hrun in H1, H3. simpl fst in H1. simpl snd in H3. simpl app in H1. subst lines'.
  destruct (dumpTree ast _) as [out q]. simpl in H2, H3. subst out q.
  rewrite (Eval_from ast), Hrun. simpl fst. simpl snd.
  f_equal. cbn [app]. f_equal. rewrite <- !app_assoc. reflexivity.
Qed.

Lemma main_prints_three_sections_witness :
  main ["easy-script"; "demo.es"] (fun _ => inl "console.log(1+1); console.log(2+2);")
  = (["Tokens:"]
     ++ map tokenLine
          [mkToken TokenConsole "console"; mkToken TokenLog "log";
           mkToken TokenInt "1"; mkToken TokenPlus "+"; mkToken TokenInt "1";
           mkToken TokenConsole "console"; mkToken TokenLog "log";
           mkToken TokenInt "2"; mkToken TokenPlus "+"; mkToken TokenInt "2"]
     ++ [treeHeader] ++ map statementLine ["2"; "4"]
     ++ [outputHeader] ++ ["2"; "4"], Returns).
Proof.
  apply (main_prints_three_sections ["easy-script"; "demo.es"]
           (fun _ => inl "console.log(1+1); console.log(2+2);")
           "console.log(1+1); console.log(2+2);").
  - simpl. lia.
  - reflexivity.
  - vm_compute. reflexivity.
  - vm_compute. reflexivity.
Defined.

Lemma tokenLine_not_header (t : Token) : tokenLine t <> outputHeader.
Proof. unfold tokenLine, outputHeader. simpl. discriminate. Qed.

Lemma statementLine_not_header (line : string) : statementLine line <> outputHeader.
Proof. unfold statementLine, outputHeader. simpl. discriminate. Qed.

(** X15. When the pipeline panics, [main] ends with the same panic and
    never writes the header of the output: a division by zero is met in
    the dump of the tree, which executes every statement before [Eval]
    does, so that the lines of the statements before it appear in the
    lines of the tree only, and nothing is printed as output. *)
Theorem main_panics_before_output (Args : list string) (ReadFile : string -> string + string)
  (data : string) (lines : list string) (p : panic) :
  (2 <= List.length Args)%nat ->
  ReadFile (nth 1 Args "") = inl data ->
  Interpret data = (lines, Some p) ->
  exists stdout,
    main Args ReadFile = (stdout, Panics p)
    /\ ~ In outputHeader stdout
    /\ forall line, In line lines -> In (statementLine line) stdout.
Proof.
  intros HArgs Hread Hrun. unfold main.
  replace (List.length Args <? 2)%nat with false by (symmetry; apply Nat.ltb_ge; lia).
  rewrite Hread. unfold Interpret in Hrun.
  destruct (Lex data) as [tokens|q] eqn:EL.
  2:{ injection Hrun as <- <-. exists []. repeat split; [intros [] | intros l []]. }
  assert (Htokens : ~ In outputHeader (["Tokens:"] ++ map tokenLine tokens)).
  { intros [H|H]; [discriminate|]. apply in_map_iff in H. destruct H as [t [Ht _]].
    exact (tokenLine_not_header t Ht). }
  destruct (Parse tokens) as [ast|q] eqn:EP.
  2:{ injection Hrun as <- <-. eexists. split; [reflexivity|].
      split; [exact Htokens | intros l []]. }
  destruct (dumpTree_mirrors_Eval tokens ast (Parse_parsed _ _ EP) []
              ((["Tokens:"] ++ map tokenLine tokens) ++ [treeHeader]))
    as [lines' [H1 [H2 H3]]].
  rewrite Hrun in H1, H3. simpl fst in H1. simpl snd in H3. simpl app in H1. subst lines'.
  destruct (dumpTree ast _) as [out q]. simpl in H2, H3. subst out q.
  eexists. split; [reflexivity|]. split.
  - intros H. destruct H as [H|H]; [discriminate|].
    apply in_app_or in H. destruct H as [H|H].
    + apply in_app_or in H. destruct H as [H|[H|[]]]; [|discriminate].
      apply Htokens. right. exact H.
    + apply in_map_iff in H. destruct H as [l [Hl _]].
      exact (statementLine_not_header l Hl).
  - intros line Hline. right. apply in_or_app. right. apply in_map, Hline.
Qed.

Lemma main_panics_before_output_witness :
  exists stdout,
    main ["easy-script"; "demo.es"] (fun _ => inl "console.log(1+1); console.log(5/0);")
    = (stdout, Panics IntegerDivideByZero)
    /\ ~ In outputHeader stdout
    /\ forall line, In line ["2"] -> In (statementLine line) stdout.
Proof.
  apply (main_panics_before_output ["easy-script"; "demo.es"]
           (fun _ => inl "console.log(1+1); console.log(5/0);")
           "console.log(1+1); console.log(5/0);").
  - simpl. lia.
  - reflexivity.
  - vm_compute. reflexivity.
Defined.

(* ================================================================== *)
(** * The words before the parenthesis and the text after it *)

(** X16. Of a statement [head(inner)tail] the lexer keeps the words
    console and log of [head], in their order, and the arguments of
    [inner]: the other words of [head], split at spaces and dots, and all
    of [tail], the text after the last closing parenthesis, are ignored. *)
Theorem Lex_ignores_other_words_and_tail (input head inner tail : string) :
  free ";" input ->
  strings.TrimSpace input = (head ++ String "(" (inner ++ String ")" tail))%string ->
  free "(" head ->
  free ")" tail ->
  Lex input
  = args <- forRange lexArgument [] (strings.Split inner ",") ;;
    Ok (flat_map wordTokens (strings.FieldsFunc head isSeparator) ++ args).
Proof.
  intros Hsemi Hstmt Hhead Htail. unfold Lex.
  rewrite (Split_free _ _ Hsemi). cbn [forRange].
  rewrite (lexStatement_call [] input head inner tail Hstmt Hhead Htail).
  rewrite forRange_lexWord_tokens. cbn [bind app].
  rewrite (forRange_appends lexArgument lexArgument_appends).
  destruct (forRange lexArgument [] _) as [args|p]; reflexivity.
Qed.

Lemma Lex_ignores_other_words_and_tail_witness :
  Lex " window.console. log (1+2) // sum "
  = args <- forRange lexArgument [] (strings.Split "1+2" ",") ;;
    Ok (flat_map wordTokens (strings.FieldsFunc " window.console. log " isSeparator)
        ++ args).
Proof.
  apply (Lex_ignores_other_words_and_tail " window.console. log (1+2) // sum "
           "window.console. log " "1+2" " // sum").
  - vm_compute. intuition discriminate.
  - vm_compute. reflexivity.
  - vm_compute. intuition discriminate.
  - vm_compute. intuition discriminate.
Defined.

Example Interpret_other_words_and_tail :
  Interpret " window.console. log (1+2) // sum " = (["3"], None).
Proof. vm_compute. reflexivity. Qed.

(* ================================================================== *)
(** * Quotient, remainder and power *)

Lemma valueFrom_upper (s : string) :
  allDigits s = true ->
  forall n, 0 <= n -> valueFrom s n < (n + 1) * 10 ^ len s.
Proof.
  induction s as [|c s IH]; intros Hd n Hn.
  - simpl. change (len "") with 0. lia.
  - apply allDigits_String in Hd. destruct Hd as [Hc Hs].
    apply isDigit_byte in Hc. cbn [valueFrom].
    specialize (IH Hs (10 * n + (byte c - 48)) ltac:(lia)).
    rewrite len_String. pose proof (len_nonneg s).
    rewrite Z.pow_add_r, Z.pow_1_r by lia.
    assert (0 < 10 ^ len s) by (apply Z.pow_pos_nonneg; lia). nia.
Qed.

Lemma atoiLoop_ok (s : string) (n v : Z) :
  strconv.atoiLoop s n = (v, None) -> allDigits s = true /\ v = valueFrom s n.
Proof.
  revert n. induction s as [|c s IH]; intros n; cbn [strconv.atoiLoop valueFrom].
  - intros [= <-]. split; reflexivity.
  - destruct (strconv.isDigit c) eqn:Ec; [|discriminate].
    intros H. destruct (IH _ H) as [Hd ->]. split.
    + apply allDigits_String. split; assumption.
    + replace (n * 10 + (byte c - 48)) with (10 * n + (byte c - 48)) by lia. reflexivity.
Qed.

Lemma parseUintLoop_range (s : string) :
  forall n, 0 <= n <= strconv.maxUint64 ->
    0 <= fst (strconv.parseUintLoop s n) <= strconv.maxUint64.
Proof.
  induction s as [|c s IH]; intros n Hn; simpl; [exact Hn|].
  assert (Hmax : strconv.maxUint64 = 18446744073709551615) by reflexivity.
  destruct (strconv.isDigit c) eqn:Ec; [|simpl; lia].
  destruct (_ <=? n); [simpl; lia|].
  destruct (Z.ltb_spec strconv.maxUint64 (n * 10 + (byte c - 48))); [simpl; lia|].
  apply IH. apply isDigit_byte in Ec. lia.
Qed.

(** Whatever the text, the value [Atoi] returns is an int. *)
Lemma operand_range (text : string) : MinInt64 <= operand text <= MaxInt64.
Proof.
  assert (Hmax : MaxInt64 = 9223372036854775807) by reflexivity.
  assert (Hmin : MinInt64 = -9223372036854775808) by reflexivity.
  unfold operand, strconv.Atoi.
  destruct ((0 <? len text) && (len text <? 19)) eqn:Elen.
  - destruct text as [|c r]; [simpl; lia|].
    apply andb_true_iff in Elen. destruct Elen as [_ Hlen]. apply Z.ltb_lt in Hlen.
    rewrite len_String in Hlen.
    assert (Hl : len (if Ascii.eqb c "-" || Ascii.eqb c "+" then r else String c r) <= 18).
    { destruct (Ascii.eqb c "-" || Ascii.eqb c "+"); [|rewrite len_String];
        pose proof (len_nonneg r); lia. }
    remember (if Ascii.eqb c "-" || Ascii.eqb c "+" then r else String c r) as ds eqn:Eds.
    clear Eds.
    destruct ((Ascii.eqb c "-" || Ascii.eqb c "+") && _); [simpl; lia|].
    destruct (strconv.atoiLoop ds 0) as [n [e|]] eqn:El; [simpl; lia|].
    apply atoiLoop_ok in El. destruct El as [Hd ->].
    pose proof (valueFrom_lower _ Hd 0 ltac:(lia)) as Hlow.
    pose proof (valueFrom_upper _ Hd 0 ltac:(lia)) as Hup.
    assert (10 ^ len ds <= 10 ^ 18) by (apply Z.pow_le_mono_r; [lia | exact Hl]).
    assert (H18 : 10 ^ 18 = 1000000000000000000) by reflexivity.
    destruct (Ascii.eqb c "-"); simpl; lia.
  - unfold strconv.ParseInt. destruct text as [|c r]; [simpl; lia|].
    assert (Hun : forall s, 0 <= fst (strconv.ParseUint s) <= strconv.maxUint64).
    { intros s. unfold strconv.ParseUint. destruct s; [simpl; unfold strconv.maxUint64; lia|].
      apply parseUintLoop_range. unfold strconv.maxUint64. lia. }
    specialize (Hun (if Ascii.eqb c "+" || Ascii.eqb c "-" then r else String c r)).
    destruct (strconv.ParseUint _) as [un [[|]|]]; simpl in Hun; try (simpl; lia);
      change (2 ^ 63) with 9223372036854775808;
      destruct (Ascii.eqb c "-"); cbn [negb andb];
      repeat match goal with
             | |- context [if ?x <=? ?y then _ else _] => destruct (Z.leb_spec x y)
             | |- context [if ?x <? ?y then _ else _] => destruct (Z.ltb_spec x y)
             end; simpl; lia.
Qed.

Lemma wrap64_congruent (a y r : Z) : wrap64 (wrap64 a * y + r) = wrap64 (a * y + r).
Proof.
  unfold wrap64. f_equal.
  replace ((a + 2 ^ 63) mod 2 ^ 64 - 2 ^ 63)
    with (a - 2 ^ 64 * ((a + 2 ^ 63) / 2 ^ 64))
    by (pose proof (Z.div_mod (a + 2 ^ 63) (2 ^ 64) ltac:(lia)); lia).
  replace ((a - 2 ^ 64 * ((a + 2 ^ 63) / 2 ^ 64)) * y + r + 2 ^ 63)
    with (a * y + r + 2 ^ 63 + (- ((a + 2 ^ 63) / 2 ^ 64) * y) * 2 ^ 64) by ring.
  apply Z.mod_add. lia.
Qed.

(** X17. The quotient and the remainder the program prints for the same
    operands fit together as in Go: when the right operand does not count
    as 0, quotient times divisor plus remainder is the dividend (in 64-bit
    arithmetic), the remainder is smaller in magnitude than the divisor and
    has the sign of the dividend, so that the quotient is truncated toward
    zero. *)
Theorem quotient_and_remainder (L R : Node) (lt rt : string) :
  Execute L = Ok lt ->
  Execute R = Ok rt ->
  operand rt <> 0 ->
  exists q r,
    Execute (DivideNode L R) = Ok (strconv.Itoa q)
    /\ Execute (ModuloNode L R) = Ok (strconv.Itoa r)
    /\ wrap64 (q * operand rt + r) = operand lt
    /\ Z.abs r < Z.abs (operand rt)
    /\ 0 <= r * operand lt.
Proof.
  intros HL HR Hnz.
  pose proof (operand_range lt) as Bl. pose proof (operand_range rt) as Br.
  assert (Hmax : MaxInt64 = 9223372036854775807) by reflexivity.
  assert (Hmin : MinInt64 = -9223372036854775808) by reflexivity.
  exists (wrap64 (Z.quot (operand lt) (operand rt))), (Z.rem (operand lt) (operand rt)).
  pose proof (Z.rem_bound_abs (operand lt) (operand rt) Hnz) as Hrem.
  pose proof (Z.rem_sign_mul (operand lt) (operand rt) Hnz) as Hsign.
  assert (Hr : wrap64 (Z.rem (operand lt) (operand rt)) = Z.rem (operand lt) (operand rt)).
  { apply wrap64_small. lia. }
  simpl. rewrite HL, HR. simpl.
  replace (operand rt =? 0) with false by (symmetry; apply Z.eqb_neq, Hnz).
  rewrite Hr. repeat split; try assumption.
  - rewrite wrap64_congruent.
    replace (Z.quot (operand lt) (operand rt) * operand rt + Z.rem (operand lt) (operand rt))
      with (operand lt)
      by (pose proof (Z.quot_rem' (operand lt) (operand rt)); lia).
    apply wrap64_small. lia.
Qed.

Lemma quotient_and_remainder_witness :
  exists q r,
    Execute (DivideNode (IntNode "-7") (IntNode "2")) = Ok (strconv.Itoa q)
    /\ Execute (ModuloNode (IntNode "-7") (IntNode "2")) = Ok (strconv.Itoa r)
    /\ wrap64 (q * operand "2" + r) = operand "-7"
    /\ Z.abs r < Z.abs (operand "2")
    /\ 0 <= r * operand "-7".
Proof.
  apply (quotient_and_remainder (IntNode "-7") (IntNode "2") "-7" "2");
    [reflexivity | reflexivity | vm_compute; discriminate].
Defined.

Example Execute_negative_quotient :
  Execute (DivideNode (IntNode "-7") (IntNode "2")) = Ok "-3"
  /\ Execute (ModuloNode (IntNode "-7") (IntNode "2")) = Ok "-1"
  /\ Execute (DivideNode (IntNode "-9223372036854775808") (IntNode "-1"))
     = Ok "-9223372036854775808".
Proof. repeat split; vm_compute; reflexivity. Qed.

(** X18. A power whose exponent counts as 0 prints 1 whatever the base,
    0 included, and so does a power whose exponent the conversion
    rejects. *)
Theorem power_of_exponent_zero (L R : Node) (lt rt : string) :
  Execute L = Ok lt ->
  Execute R = Ok rt ->
  operand rt = 0 ->
  Execute (PowerNode L R) = Ok "1".
Proof.
  intros HL HR Hz. simpl. rewrite HL, HR. simpl. rewrite Hz.
  unfold math.Pow.
  change (float64_of_int 0 =? 0)%float with true. reflexivity.
Qed.

Lemma power_of_exponent_zero_witness :
  Execute (PowerNode (IntNode "0") (IntNode "x")) = Ok "1".
Proof.
  apply (power_of_exponent_zero (IntNode "0") (IntNode "x") "0" "x"); reflexivity.
Defined.

(* ================================================================== *)
(** * Signs *)



Lemma TrimSpace_ends (s : string) (c0 cl : ascii) :
  firstByte s = Some c0 -> lastByte s = Some cl ->
  (strconv.isDigit c0 = true \/ exists op, c0 = operatorChar op) ->
  strconv.isDigit cl = true ->
  strings.TrimSpace s = s /\ quoted s = false.
Proof.
  intros Hf Hl H0 Hd. split.
  - apply (TrimSpace_plain s c0 cl Hf Hl); [|apply digit_plain, Hd].
    destruct H0 as [H0|[op ->]]; [apply digit_plain, H0 | apply operatorChar_plain].
  - destruct s as [|x s']; [discriminate|]. injection Hf as ->.
    unfold quoted, strings.HasPrefix, dquote. cbn [String.prefix].
    destruct (ascii_dec "034" c0) as [<-|_]; [|reflexivity].
    destruct H0 as [H0|[op H0]]; [discriminate | destruct op; discriminate].
Qed.



Example Interpret_signed_right_operand :
  Interpret "console.log(7/-2);" = (["-3"], None)
  /\ Interpret "console.log(7%-2);" = (["1"], None)
  /\ Interpret "console.log(3+-4);" = (["-1"], None).
Proof. repeat split; vm_compute; reflexivity. Qed.





Example Interpret_leading_sign :
  Interpret "console.log(-3+4);" = (["0"], None)
  /\ Interpret "console.log(+3*4);" = (["0"], None).
Proof. split; vm_compute; reflexivity. Qed.

(* ================================================================== *)
(** * One statement always parses *)

(** With turns enough, the inner loop of the parser only stops at the end
    of the tokens or at a Console token. *)
Lemma parseArguments_stops (tokens : list Token) (fuel : nat) :
  forall (i i' : nat) (args args' : list Node),
    (List.length tokens - i <= fuel)%nat ->
    parseArguments fuel tokens i args = Ok (args', i') ->
    (List.length tokens <= i')%nat
    \/ exists t, nth_error tokens i' = Some t /\ Type_ t = TokenConsole.
Proof.
  induction fuel as [|fuel IH]; intros i i' args args' Hf; cbn [parseArguments].
  - intros [= _ <-]. left. lia.
  - destruct (i <? List.length tokens)%nat eqn:G; [|intros [= _ <-]; left; apply Nat.ltb_ge, G].
    unfold index at 1. destruct (nth_error tokens i) as [t|] eqn:Et; cbn [bind]; [|discriminate].
    destruct (String.eqb (Type_ t) TokenConsole) eqn:Ec; cbn [negb].
    + intros [= _ <-]. right. exists t. split; [exact Et | apply String.eqb_eq, Ec].
    + apply Nat.ltb_lt in G.
      destruct (parseArgument_ok tokens i args G) as [args1 [i1 [E1 Hi1]]].
      rewrite E1. cbn [bind]. apply IH. lia.
Qed.

(** X21. A Console token and a Log token followed by tokens none of which
    is a Console always parse, and into one LogCall: whatever the tokens
    of the arguments are, their collection cannot fail. *)
Theorem one_statement_parses (t0 t1 : Token) (rest : list Token) :
  Type_ t0 = TokenConsole ->
  Type_ t1 = TokenLog ->
  Forall (fun t => Type_ t <> TokenConsole) rest ->
  exists args,
    Parse (t0 :: t1 :: rest) = Ok [ConsoleLogNode args]
    /\ Forall (parsedArgument (t0 :: t1 :: rest)) args.
Proof.
  intros H0 H1 Hrest.
  remember (t0 :: t1 :: rest) as tokens eqn:Et.
  assert (Hlen : List.length tokens = S (S (List.length rest))) by (subst; reflexivity).
  destruct (parseArguments_total tokens (List.length tokens) 2 []) as [args [i' [Hle Hall]]];
    [lia|].
  pose proof (Hall (List.length tokens) ltac:(lia)) as Hargs.
  assert (Hend : (List.length tokens <= i')%nat).
  { destruct (parseArguments_stops tokens (List.length tokens) 2 i' [] args ltac:(lia) Hargs)
      as [H|[t [Ht Hc]]]; [exact H|].
    exfalso. subst tokens.
    destruct i' as [|[|k]]; [lia | lia|]. simpl in Ht.
    apply nth_error_In in Ht. rewrite Forall_forall in Hrest. exact (Hrest t Ht Hc). }
  exists args. split.
  - unfold Parse. rewrite Hlen at 1. cbn [parseStatements].
    replace (0 <? List.length tokens)%nat with true by (symmetry; apply Nat.ltb_lt; lia).
    change (0 + 1)%nat with 1%nat. change (0 + 2)%nat with 2%nat.
    replace (index tokens 0) with (Ok t0) by (subst; reflexivity).
    replace (index tokens 1) with (Ok t1) by (subst; reflexivity).
    cbn [bind]. rewrite H0, H1.
    change (String.eqb TokenConsole TokenConsole) with true.
    change (String.eqb TokenLog TokenLog) with true. cbv iota.
    rewrite Hargs. cbn [bind app parseStatements].
    replace (i' <? List.length tokens)%nat with false by (symmetry; apply Nat.ltb_ge, Hend).
    reflexivity.
  - eapply parseArguments_parsed; [exact Hargs | constructor].
Qed.

Lemma one_statement_parses_witness :
  exists args,
    Parse [mkToken TokenConsole "console"; mkToken TokenLog "log";
           mkToken TokenPlus "+"; mkToken TokenInt "1"; mkToken TokenLog "log"]
    = Ok [ConsoleLogNode args]
    /\ Forall (parsedArgument [mkToken TokenConsole "console"; mkToken TokenLog "log";
                               mkToken TokenPlus "+"; mkToken TokenInt "1";
                               mkToken TokenLog "log"]) args.
Proof.
  apply (one_statement_parses (mkToken TokenConsole "console") (mkToken TokenLog "log")
           [mkToken TokenPlus "+"; mkToken TokenInt "1"; mkToken TokenLog "log"]);
    [reflexivity | reflexivity |].
  repeat constructor; discriminate.
Defined.

(* ================================================================== *)
(** * White space around the operands *)

Lemma isBlank_cases (c : ascii) :
  isBlank c = true ->
  c = "009"%char \/ c = "010"%char \/ c = "011"%char \/ c = "012"%char
  \/ c = "013"%char \/ c = " "%char.
Proof.
  destruct c as [[] [] [] [] [] [] [] []]; vm_compute; intros H;
    first [discriminate H | tauto].
Qed.

Lemma isBlank_space (c : ascii) :
  isBlank c = true -> byte c < 128 /\ unicode.IsSpace (byte c) = true.
Proof.
  unfold isBlank. intros H. apply andb_true_iff in H. destruct H as [H1 H2].
  split; [apply Z.ltb_lt, H1 | exact H2].
Qed.

Lemma blank_String (c : ascii) (w : string) :
  blank (String c w) <-> isBlank c = true /\ blank w.
Proof. unfold blank. cbn [list_ascii_of_string forallb]. apply andb_true_iff. Qed.

Lemma blank_free (c : ascii) (w : string) : isBlank c = false -> blank w -> free c w.
Proof.
  intros Hc. induction w as [|x w IH]; intros Hw; [intros []|].
  apply blank_String in Hw. destruct Hw as [Hx Hw].
  apply free_String. split; [congruence | apply IH, Hw].
Qed.

Lemma blank_freeOf_operators (w : string) : blank w -> freeOf operators w.
Proof.
  induction w as [|x w IH]; intros Hw; [intros c []|].
  apply blank_String in Hw. destruct Hw as [Hx Hw].
  apply freeOf_String. split; [|apply IH, Hw].
  destruct (isBlank_cases x Hx) as [->|[->|[->|[->|[->| ->]]]]]; reflexivity.
Qed.

Lemma trimLeft_blank (w t : string) (n : nat) :
  blank w -> strings.trimLeft (String.length w + n) (w ++ t) = strings.trimLeft n t.
Proof.
  induction w as [|c w IH]; intros Hw; [reflexivity|].
  apply blank_String in Hw. destruct Hw as [Hc Hw].
  destruct (isBlank_space c Hc) as [H1 H2].
  cbn [String.length Nat.add append strings.trimLeft utf8.DecodeRuneInString].
  unfold utf8.RuneSelf. replace (byte c <? 128) with true by (symmetry; apply Z.ltb_lt, H1).
  rewrite H2. cbn [drop]. apply IH, Hw.
Qed.

Lemma trimLeft_plain (n : nat) (c : ascii) (r : string) :
  plain c -> strings.trimLeft n (String c r) = String c r.
Proof.
  intros [H1 H2]. destruct n; [reflexivity|].
  cbn [strings.trimLeft utf8.DecodeRuneInString].
  unfold utf8.RuneSelf. replace (byte c <? 128) with true by (symmetry; apply Z.ltb_lt, H1).
  rewrite H2. reflexivity.
Qed.

Lemma trimRight_last_blank (t : string) (c : ascii) (n : nat) :
  isBlank c = true ->
  strings.trimRight (S n) (t ++ String c "") = strings.trimRight n t.
Proof.
  intros Hc. destruct (isBlank_space c Hc) as [H1 H2].
  cbn [strings.trimRight].
  destruct (t ++ String c "")%string eqn:E; [destruct t; discriminate|]. rewrite <- E.
  unfold utf8.DecodeLastRuneInString.
  replace (len (t ++ String c "") =? 0) with false.
  2:{ symmetry. apply Z.eqb_neq. rewrite len_app, len_String.
      pose proof (len_nonneg t). pose proof (len_nonneg ""). lia. }
  rewrite (byteAt_last _ c) by (rewrite lastByte_app; reflexivity).
  unfold utf8.RuneSelf. replace (byte c <? 128) with true by (symmetry; apply Z.ltb_lt, H1).
  rewrite H2.
  replace (String.length (t ++ String c "") - 1)%nat with (String.length t)
    by (rewrite length_app; simpl; lia).
  rewrite take_app. reflexivity.
Qed.

Lemma trimRight_blank (w : string) :
  blank w -> forall (s : string) (n : nat),
  strings.trimRight (n + String.length w) (s ++ w) = strings.trimRight n s.
Proof.
  induction w as [|c w IH]; intros Hw s n.
  - rewrite append_empty. cbn [String.length]. rewrite Nat.add_0_r. reflexivity.
  - apply blank_String in Hw. destruct Hw as [Hc Hw].
    change (s ++ String c w)%string with (s ++ (String c "" ++ w))%string.
    rewrite <- append_assoc.
    replace (n + String.length (String c w))%nat with (S n + String.length w)%nat
      by (simpl; lia).
    rewrite (IH Hw). apply trimRight_last_blank, Hc.
Qed.

Lemma trimRight_plain (n : nat) (s : string) (c : ascii) :
  lastByte s = Some c -> plain c -> strings.trimRight n s = s.
Proof.
  intros Hl [H1 H2]. destruct n; [reflexivity|].
  cbn [strings.trimRight]. destruct s as [|a r] eqn:E; [reflexivity|]. rewrite <- E in *.
  unfold utf8.DecodeLastRuneInString.
  replace (len s =? 0) with false.
  2:{ symmetry. apply Z.eqb_neq. subst s. rewrite len_String. pose proof (len_nonneg r). lia. }
  rewrite (byteAt_last _ _ Hl). unfold utf8.RuneSelf.
  replace (byte c <? 128) with true by (symmetry; apply Z.ltb_lt, H1).
  rewrite H2. reflexivity.
Qed.

(** White space around a text that starts and ends with plain bytes is
    what [TrimSpace] removes, and all of it. *)
Lemma TrimSpace_blanks (w s w' : string) (c0 cl : ascii) :
  blank w -> blank w' ->
  firstByte s = Some c0 -> lastByte s = Some cl -> plain c0 -> plain cl ->
  strings.TrimSpace (w ++ s ++ w') = s.
Proof.
  intros Hw Hw' Hf Hl P0 Pl. unfold strings.TrimSpace.
  rewrite length_app, (trimLeft_blank w (s ++ w') _ Hw).
  destruct s as [|a r] eqn:E; [discriminate|]. injection Hf as ->. rewrite <- E in *.
  assert (Hleft : strings.trimLeft (String.length (s ++ w')) (s ++ w') = (s ++ w')%string).
  { subst s. cbn [append]. apply trimLeft_plain, P0. }
  rewrite Hleft, length_app, (trimRight_blank w' Hw').
  apply (trimRight_plain _ s cl Hl Pl).
Qed.

Lemma TrimSpace_blank (w : string) : blank w -> strings.TrimSpace w = "".
Proof.
  intros Hw. unfold strings.TrimSpace.
  assert (H : strings.trimLeft (String.length w) w = "").
  { pose proof (trimLeft_blank w "" 0 Hw) as H.
    rewrite append_empty, Nat.add_0_r in H. exact H. }
  rewrite H. reflexivity.
Qed.

Lemma blank_nil : blank "".
Proof. reflexivity. Qed.

(** No separator of the lexer is white space, a digit or an operator. *)
Lemma spacedArgument_free (c : ascii) (sp : Spacing) (a b : string) (op : Operator) :
  c = ";"%char \/ c = ","%char \/ c = "("%char \/ c = ")"%char ->
  blanks sp -> literal a -> literal b ->
  free c (spacedArgument sp a op b).
Proof.
  intros Hc [_ [H1 [H2 [H3 [H4 _]]]]] [_ [Ha _]] [_ [Hb _]].
  assert (Hd : strconv.isDigit c = false)
    by (destruct Hc as [->|[->|[->| ->]]]; reflexivity).
  assert (Hs : isBlank c = false)
    by (destruct Hc as [->|[->|[->| ->]]]; reflexivity).
  unfold spacedArgument.
  repeat first [ apply free_app; split
               | apply free_String; split
               | apply blank_free; assumption
               | apply digits_free; assumption
               | apply operatorChar_free; assumption ].
Qed.

(** The lexer on the argument [a op b] with white space: the operands are
    trimmed. *)
Lemma lexArgument_spaced (tokens : list Token) (sp : Spacing) (a b : string) (op : Operator) :
  blanks sp -> literal a -> literal b ->
  lexArgument tokens (spacedArgument sp a op b)
  = Ok (tokens ++ [mkToken TokenInt a; operatorToken op; mkToken TokenInt b]).
Proof.
  intros [_ [H1 [H2 [H3 [H4 _]]]]] [Hna [Hda _]] [Hnb [Hdb _]].
  destruct (firstByte_digits a Hna Hda) as [c0 [Hc0 Hd0]].
  destruct (lastByte_digits b Hnb Hdb) as [cl [Hcl Hdl]].
  set (core := (a ++ afterLeft sp ++ String (operatorChar op) (afterOperator sp ++ b))%string).
  assert (Hfirst : firstByte core = Some c0).
  { unfold core. rewrite firstByte_app by assumption. exact Hc0. }
  assert (Hlast : lastByte core = Some cl).
  { unfold core. destruct b as [|x b']; [congruence|].
    change (String (operatorChar op) (afterOperator sp ++ String x b'))
      with (String (operatorChar op) "" ++ afterOperator sp ++ String x b')%string.
    rewrite <- !append_assoc, lastByte_app. exact Hcl. }
  assert (Htrim : strings.TrimSpace (spacedArgument sp a op b)
                  = ((a ++ afterLeft sp)
                     ++ String (operatorChar op) (afterOperator sp ++ b))%string).
  { unfold spacedArgument. fold core.
    rewrite (TrimSpace_blanks _ core _ c0 cl H1 H4 Hfirst Hlast);
      try (apply digit_plain; assumption).
    unfold core. rewrite append_assoc. reflexivity. }
  rewrite (lexArgument_operator tokens _ _ _ op Htrim).
  - assert (Ea : strings.TrimSpace (a ++ afterLeft sp) = a).
    { apply (TrimSpace_blanks "" a (afterLeft sp) c0) with (cl := match lastByte a with Some c => c | None => c0 end);
        try assumption; try apply blank_nil; try (apply digit_plain; assumption).
      - destruct (lastByte_digits a Hna Hda) as [c [Hc _]]. rewrite Hc. reflexivity.
      - destruct (lastByte_digits a Hna Hda) as [c [Hc Hd]]. rewrite Hc.
        apply digit_plain, Hd. }
    assert (Eb : strings.TrimSpace (afterOperator sp ++ b) = b).
    { rewrite <- (append_empty b) at 1.
      destruct (firstByte_digits b Hnb Hdb) as [c [Hc Hd]].
      apply (TrimSpace_blanks (afterOperator sp) b "" c cl);
        try assumption; try apply blank_nil; apply digit_plain; assumption. }
    rewrite Ea, Eb. reflexivity.
  - rewrite Htrim. rewrite append_assoc. fold core.
    apply (TrimSpace_ends core c0 cl Hfirst Hlast); [left; exact Hd0 | exact Hdl].
  - intros c Hin. rewrite chars_app in Hin. apply in_app_or in Hin.
    destruct Hin as [Hin|Hin].
    + exact (digits_freeOf_operators a Hda c Hin).
    + exact (blank_freeOf_operators _ H2 c Hin).
Qed.

(** The lexer on the statement [console.log(a op b);] with white space. *)
Lemma Lex_spacedStatement (sp : Spacing) (a b : string) (op : Operator) :
  blanks sp -> literal a -> literal b ->
  Lex (spacedStatement sp a op b)
  = Ok [mkToken TokenConsole "console"; mkToken TokenLog "log";
        mkToken TokenInt a; operatorToken op; mkToken TokenInt b].
Proof.
  intros Hsp Ha Hb. pose proof Hsp as [H0 [_ [_ [_ [_ [H5 H6]]]]]].
  unfold Lex, spacedStatement.
  rewrite Split_first.
  2:{ apply free_app. split; [apply blank_free; [reflexivity | exact H0]|].
      apply free_app. split; [|apply blank_free; [reflexivity | exact H5]].
      apply free_logCall, spacedArgument_free; auto. }
  rewrite (Split_free _ ";") by (apply blank_free; [reflexivity | exact H6]).
  cbn [forRange].
  rewrite (lexStatement_call [] _ "console.log" (spacedArgument sp a op b) "").
  - change (forRange lexWord [] (strings.FieldsFunc "console.log" isSeparator))
      with (Ok [mkToken TokenConsole "console"; mkToken TokenLog "log"]).
    cbn [bind].
    rewrite (Split_free _ ",") by (apply spacedArgument_free; auto).
    cbn [forRange]. rewrite (lexArgument_spaced _ sp a b op Hsp Ha Hb). cbn [bind app].
    unfold lexStatement. rewrite (TrimSpace_blank _ H6). reflexivity.
  - apply (TrimSpace_blanks _ (logCall _) _ "c" ")" H0 H5);
      [reflexivity | | split; reflexivity | split; reflexivity].
    unfold logCall.
    change ("console.log" ++ String "(" (spacedArgument sp a op b ++ String ")" ""))%string
      with ("console.log" ++ (String "(" (spacedArgument sp a op b) ++ String ")" ""))%string.
    rewrite <- append_assoc, lastByte_app. reflexivity.
  - vm_compute; intuition discriminate.
  - intros [].
Qed.

(** A BinaryOp node on two literals: the panic of a division by 0, and
    otherwise the text of what the operator computes. *)
Lemma Execute_operation (a b : string) (op : Operator) :
  literal a -> literal b ->
  Execute (BinaryOp op (IntNode a) (IntNode b))
  = if dividesByZero op (value b) then Panic IntegerDivideByZero
    else Ok (strconv.Itoa (computed op (value a) (value b))).
Proof.
  intros Ha Hb.
  pose proof (value_bounds a Ha) as Ba. pose proof (value_bounds b Hb) as Bb.
  assert (Hmax : MaxInt64 = 9223372036854775807) by reflexivity.
  assert (Hmin : MinInt64 = -9223372036854775808) by reflexivity.
  destruct op; cbn [BinaryOp Execute bind exact computed dividesByZero];
    rewrite (operand_literal a Ha), (operand_literal b Hb).
  - reflexivity.
  - rewrite wrap64_small by lia. reflexivity.
  - reflexivity.
  - destruct (Z.eqb_spec (value b) 0) as [E|E]; [reflexivity|].
    rewrite wrap64_small; [reflexivity|].
    rewrite Z.quot_div_nonneg by lia.
    pose proof (Z.div_pos (value a) (value b) ltac:(lia) ltac:(lia)).
    pose proof (Z.div_le_upper_bound (value a) (value b) (value a) ltac:(lia) ltac:(nia)).
    lia.
  - destruct (Z.eqb_spec (value b) 0) as [E|E]; [reflexivity|].
    rewrite wrap64_small; [reflexivity|].
    pose proof (Z.rem_bound_pos (value a) (value b) ltac:(lia) ltac:(lia)). lia.
  - reflexivity.
Qed.

(** Where what the program computes is the exact result. *)
Lemma computed_exact (op : Operator) (x y : Z) :
  0 <= x <= MaxInt64 -> 0 <= y <= MaxInt64 -> computable op x y ->
  computed op x y = exact op x y.
Proof.
  intros Hx Hy Hc.
  assert (Hmax : MaxInt64 = 9223372036854775807) by reflexivity.
  assert (Hmin : MinInt64 = -9223372036854775808) by reflexivity.
  destruct op; cbn [computed exact computable] in *; try reflexivity.
  - apply wrap64_small. lia.
  - apply wrap64_small. nia.
  - apply powInt_exact; [lia | lia | exact Hc].
Qed.

(** C4, amended. For every statement [console.log(a op b);] whose
    operands are literals, decimal digits of a number that fits in an int,
    with any white space before the statement, around the operands and the
    operator, after the closing parenthesis and after the semicolon, the
    pipeline prints one line, the decimal text of what the operator
    computes: the sum and the product modulo 2^64 in the range of an int,
    the difference, the quotient truncated toward zero and the remainder,
    and the power of binary64 converted to an int; the quotient and the
    remainder by 0 print no line and panic. What is computed is the exact
    result for the sum and the product when that fits in an int, always
    for the difference, the quotient and the remainder, and for the power
    whenever the exact power is below 2^53. *)
Theorem single_operator_statement (sp : Spacing) (a b : string) (op : Operator) :
  blanks sp ->
  literal a ->
  literal b ->
  Interpret (spacedStatement sp a op b)
  = (if dividesByZero op (value b) then ([], Some IntegerDivideByZero)
     else ([strconv.Itoa (computed op (value a) (value b))], None))
  /\ (computable op (value a) (value b) ->
      computed op (value a) (value b) = exact op (value a) (value b)).
Proof.
  intros Hsp Ha Hb. split.
  - unfold Interpret.
    rewrite (Lex_spacedStatement sp a b op Hsp Ha Hb), Parse_statement.
    cbn [Eval]. rewrite Execute_ConsoleLogNode. cbn [executeAll].
    rewrite (Execute_operation a b op Ha Hb).
    destruct (dividesByZero op (value b)); reflexivity.
  - apply computed_exact; apply value_bounds; assumption.
Qed.

Lemma single_operator_statement_witness :
  Interpret "console.log( 3 + 4 );" = (["7"], None)
  /\ (computable Add (value "3") (value "4")
      -> computed Add (value "3") (value "4") = exact Add (value "3") (value "4")).
Proof.
  apply (single_operator_statement (mkSpacing "" " " " " " " " " "" "") "3" "4" Add).
  - repeat split.
  - split; [discriminate|]. split; [reflexivity|]. vm_compute. discriminate.
  - split; [discriminate|]. split; [reflexivity|]. vm_compute. discriminate.
Defined.

(** White space of every kind around the statement and its operands, the
    wrap-around of the product and of the sum, and the panic. *)
Example Interpret_spaced_statements :
  Interpret (String "009" "console.log(" ++ String "010" " 1000 ^" ++ String "009" "2 )"
             ++ String "013" ";" ++ String "010" "")
  = (["1000000"], None)
  /\ Interpret "  console.log( 7 / 2 )  ;  " = (["3"], None)
  /\ Interpret "console.log(4294967296 * 4294967296);" = (["0"], None)
  /\ Interpret "console.log(9223372036854775807 + 1);" = (["-9223372036854775808"], None)
  /\ Interpret "console.log( 5 % 0 );" = ([], Some IntegerDivideByZero).
Proof. repeat split; vm_compute; reflexivity. Qed.

(** Without white space the statement is [console.log(a op b);] as it is
    written. *)
Lemma spacedStatement_noSpacing (a b : string) (op : Operator) :
  spacedStatement noSpacing a op b = statement a op b.
Proof.
  unfold spacedStatement, spacedArgument, statement, call, logCall, noSpacing.
  cbn [before afterOpen afterLeft afterOperator afterRight afterClose afterSemicolon append].
  rewrite !append_empty. reflexivity.
Qed.
